(** * SafeCommandParser: a shallow embedding of the safe command interpreter

    The interpreter takes one line of text, screens it against a denylist,
    classifies it as a method call, a property access or a constructor call,
    splits and coerces the arguments, and dispatches against a context
    supplied by the caller.

    Conventions of the embedding.
    - Text is [string]; a character is one code unit in the range 0..255.
    - Numbers are exact decimals ([Q]), rounding to binary64 is not modelled.
    - Built-ins of the host runtime that the interpreter only calls
      ([JSON.parse], the clock, property reads, calls and constructions on
      objects of the context) are variables of the sections below. *)

From Stdlib Require Import Bool List ZArith QArith Ascii String Lia.
From Stdlib Require Import DecimalString DecimalPos.
Import ListNotations.

Set Warnings "-register-all".

Local Open Scope string_scope.
Local Open Scope list_scope.

(* ------------------------------------------------------------------ *)
(** * Characters *)

Module Chars.

Definition code (c : ascii) : N := N_of_ascii c.

Definition in_range (lo hi : N) (c : ascii) : bool :=
  (lo <=? code c)%N && (code c <=? hi)%N.

Definition is_digit (c : ascii) : bool := in_range 48 57 c.
Definition is_upper (c : ascii) : bool := in_range 65 90 c.
Definition is_lower (c : ascii) : bool := in_range 97 122 c.

(** [\w] *)
Definition is_word (c : ascii) : bool :=
  is_digit c || is_upper c || is_lower c || (c =? "_")%char.

(** [\s], which is also the set removed by [String.prototype.trim]:
    TAB, LF, VT, FF, CR, SP and NBSP. *)
Definition is_space (c : ascii) : bool :=
  in_range 9 13 c || (code c =? 32)%N || (code c =? 160)%N.

(** Line terminators, the characters that [.] does not match. *)
Definition is_line_terminator (c : ascii) : bool :=
  (code c =? 10)%N || (code c =? 13)%N.

Definition to_lower (c : ascii) : ascii :=
  if is_upper c then ascii_of_N (code c + 32) else c.

(** Equality of characters under the [i] flag. *)
Definition eq_ci (a b : ascii) : bool := (to_lower a =? to_lower b)%char.

Definition dquote : ascii := "034"%char.
Definition squote : ascii := "'"%char.
Definition backslash : ascii := "\"%char.

End Chars.
Import Chars.

(* ------------------------------------------------------------------ *)
(** * Text helpers (the string methods the interpreter uses) *)

Module Text.

Definition is_empty (s : string) : bool :=
  match s with EmptyString => true | String _ _ => false end.

Definition str1 (c : ascii) : string := String c EmptyString.

(** [s.startsWith(p)] *)
Definition startsWith (p s : string) : bool := prefix p s.

Fixpoint last_char (s : string) : option ascii :=
  match s with
  | EmptyString => None
  | String c EmptyString => Some c
  | String _ r => last_char r
  end.

(** [s.endsWith(c)] for a one-character [c]. *)
Definition endsWith (c : ascii) (s : string) : bool :=
  match last_char s with Some d => (d =? c)%char | None => false end.

Fixpoint drop (n : nat) (s : string) : string :=
  match n, s with
  | O, _ => s
  | S _, EmptyString => EmptyString
  | S k, String _ r => drop k r
  end.

Fixpoint drop_last (s : string) : string :=
  match s with
  | EmptyString => EmptyString
  | String _ EmptyString => EmptyString
  | String c r => String c (drop_last r)
  end.

(** [s.slice(n, -1)]: the characters from index [n] up to, not including,
    the last one. *)
Definition slice (n : nat) (s : string) : string := drop_last (drop n s).

Fixpoint trim_start (s : string) : string :=
  match s with
  | EmptyString => EmptyString
  | String c r => if is_space c then trim_start r else s
  end.

Fixpoint trim_end (s : string) : string :=
  match s with
  | EmptyString => EmptyString
  | String c r =>
      match trim_end r with
      | EmptyString => if is_space c then EmptyString else str1 c
      | r' => String c r'
      end
  end.

(** [s.trim()] *)
Definition trim (s : string) : string := trim_end (trim_start s).

Fixpoint forallb_str (p : ascii -> bool) (s : string) : bool :=
  match s with
  | EmptyString => true
  | String c r => p c && forallb_str p r
  end.

Fixpoint map_str (f : ascii -> ascii) (s : string) : string :=
  match s with
  | EmptyString => EmptyString
  | String c r => String (f c) (map_str f r)
  end.

Fixpoint filter_str (p : ascii -> bool) (s : string) : string :=
  match s with
  | EmptyString => EmptyString
  | String c r => if p c then String c (filter_str p r) else filter_str p r
  end.

(** [s.replace(/c/g, d)] for single characters. *)
Definition replace_char (c d : ascii) (s : string) : string :=
  map_str (fun x => if (x =? c)%char then d else x) s.

(** [s.replace(/\\q/g, q)]: every backslash followed by [q] becomes [q]. *)
Fixpoint unescape (q : ascii) (s : string) : string :=
  match s with
  | EmptyString => EmptyString
  | String a r =>
      match r with
      | String b r' =>
          if (a =? backslash)%char && (b =? q)%char
          then String q (unescape q r')
          else String a (unescape q r)
      | EmptyString => s
      end
  end.

(** [s.replace(/pat/g, rep)] for a literal, non-empty [pat]; [skip] counts
    the characters of a match that are still to be passed over. *)
Fixpoint replace_from (pat rep : string) (skip : nat) (s : string) : string :=
  match s with
  | EmptyString => EmptyString
  | String c r =>
      match skip with
      | S k => replace_from pat rep k r
      | O =>
          if prefix pat s
          then rep ++ replace_from pat rep (String.length pat - 1) r
          else String c (replace_from pat rep 0 r)
      end
  end.

Definition replace_all (pat rep : string) (s : string) : string :=
  replace_from pat rep 0 s.

(** [s.includes(p)] *)
Fixpoint includes (p s : string) : bool :=
  prefix p s ||
  match s with
  | EmptyString => false
  | String _ r => includes p r
  end.

(** [l.includes(s)] on an array of strings. *)
Definition mem (s : string) (l : list string) : bool :=
  existsb (String.eqb s) l.

(** The longest prefix of [s] made of characters satisfying [p], and the
    rest. *)
Fixpoint span (p : ascii -> bool) (s : string) : string * string :=
  match s with
  | EmptyString => (EmptyString, EmptyString)
  | String c r =>
      if p c then let (a, b) := span p r in (String c a, b)
      else (EmptyString, s)
  end.

End Text.
Import Text.

(* ------------------------------------------------------------------ *)
(** * Regular expressions

    The patterns of the interpreter use no look-around and no
    back-reference, so [RegExp.prototype.test] decides membership in a
    regular language; it is computed here with derivatives. *)

Module Regex.

Inductive regex : Type :=
| Void
| Eps
| Cls (p : ascii -> bool)
| Seq (r1 r2 : regex)
| Alt (r1 r2 : regex)
| Star (r : regex).

Fixpoint nullable (r : regex) : bool :=
  match r with
  | Void => false
  | Eps => true
  | Cls _ => false
  | Seq r1 r2 => nullable r1 && nullable r2
  | Alt r1 r2 => nullable r1 || nullable r2
  | Star _ => true
  end.

Definition seq (r1 r2 : regex) : regex :=
  match r1, r2 with
  | Void, _ => Void
  | _, Void => Void
  | Eps, _ => r2
  | _, Eps => r1
  | _, _ => Seq r1 r2
  end.

Definition alt (r1 r2 : regex) : regex :=
  match r1, r2 with
  | Void, _ => r2
  | _, Void => r1
  | _, _ => Alt r1 r2
  end.

Fixpoint deriv (c : ascii) (r : regex) : regex :=
  match r with
  | Void => Void
  | Eps => Void
  | Cls p => if p c then Eps else Void
  | Seq r1 r2 =>
      if nullable r1
      then alt (seq (deriv c r1) r2) (deriv c r2)
      else seq (deriv c r1) r2
  | Alt r1 r2 => alt (deriv c r1) (deriv c r2)
  | Star r1 => seq (deriv c r1) (Star r1)
  end.

(** The whole of [s] matches [r]: the anchored form [^r$]. *)
Fixpoint matches (r : regex) (s : string) : bool :=
  match s with
  | EmptyString => nullable r
  | String c s' => matches (deriv c r) s'
  end.

(** Some prefix of [s] matches [r]. *)
Fixpoint match_here (r : regex) (s : string) : bool :=
  nullable r ||
  match s with
  | EmptyString => false
  | String c s' => match_here (deriv c r) s'
  end.

(** [r.test(s)] for an unanchored [r]: a match starts at some position. *)
Fixpoint test (r : regex) (s : string) : bool :=
  match_here r s ||
  match s with
  | EmptyString => false
  | String _ s' => test r s'
  end.

Definition chr (c : ascii) : regex := Cls (Ascii.eqb c).
Definition chr_ci (c : ascii) : regex := Cls (eq_ci c).

Fixpoint lit (s : string) : regex :=
  match s with
  | EmptyString => Eps
  | String c r => seq (chr c) (lit r)
  end.

Fixpoint lit_ci (s : string) : regex :=
  match s with
  | EmptyString => Eps
  | String c r => seq (chr_ci c) (lit_ci r)
  end.

Definition plus (r : regex) : regex := Seq r (Star r).
Definition opt (r : regex) : regex := Alt Eps r.
Definition seqs (l : list regex) : regex := fold_right seq Eps l.

Definition space : regex := Cls is_space.
Definition word : regex := Cls is_word.
Definition digit : regex := Cls is_digit.

End Regex.
Import Regex.

(* ------------------------------------------------------------------ *)
(** * Safety Validator: the denylist *)

Record pattern : Type := Pattern {
  source : string;   (* the text between the slashes *)
  flags : string;
  re : regex
}.

(** [`${pattern}`] *)
Definition show_pattern (p : pattern) : string :=
  "/" ++ source p ++ "/" ++ flags p.

Definition dangerous : list pattern :=
  [ Pattern "eval\s*\(" "i" (seqs [lit_ci "eval"; Star space; chr "("]);
    Pattern "function\s*\(" "i" (seqs [lit_ci "function"; Star space; chr "("]);
    Pattern "Function\s*\(" "i" (seqs [lit_ci "Function"; Star space; chr "("]);
    Pattern "new\s+Function" "i" (seqs [lit_ci "new"; plus space; lit_ci "Function"]);
    Pattern "setTimeout" "i" (lit_ci "setTimeout");
    Pattern "setInterval" "i" (lit_ci "setInterval");
    Pattern "document\." "i" (lit_ci "document.");
    Pattern "window\." "i" (lit_ci "window.");
    Pattern "localStorage" "i" (lit_ci "localStorage");
    Pattern "sessionStorage" "i" (lit_ci "sessionStorage");
    Pattern "fetch\s*\(" "i" (seqs [lit_ci "fetch"; Star space; chr "("]);
    Pattern "XMLHttpRequest" "i" (lit_ci "XMLHttpRequest");
    Pattern "import\s*\(" "i" (seqs [lit_ci "import"; Star space; chr "("]);
    Pattern "<script" "i" (lit_ci "<script");
    Pattern "on\w+\s*=" "i" (seqs [lit_ci "on"; plus word; Star space; chr "="]);
    Pattern "javascript:" "i" (lit_ci "javascript:");
    Pattern "\$\{" "" (lit "${") ].

Definition pattern_test (p : pattern) (command : string) : bool :=
  test (re p) command.

(** The loop of [validateSafety]: the first pattern that matches, if any. *)
Definition first_unsafe (command : string) : option pattern :=
  find (fun p => pattern_test p command) dangerous.

(** [command.trim().replace(/;$/, '')] *)
Fixpoint strip_semicolon (s : string) : string :=
  match s with
  | EmptyString => EmptyString
  | String c EmptyString => if (c =? ";")%char then EmptyString else s
  | String c r => String c (strip_semicolon r)
  end.

Definition normalize (command : string) : string :=
  strip_semicolon (trim command).

(* ------------------------------------------------------------------ *)
(** * Values *)

(** A number: an exact decimal, an infinity, or NaN. *)
Inductive number : Type :=
| Fin (q : Q)
| Inf (negative : bool)
| NaN.

(** A Date is kept as the argument it was built from: an epoch value in
    milliseconds, or a text handed to the runtime's date parser. *)
Inductive date : Type :=
| DateOfMillis (ms : number)
| DateOfText (s : string).

(** The literal values produced by the coercer; an object is the list of its
    own properties in the runtime's property order. *)
Inductive value : Type :=
| VNull
| VUndefined
| VBool (b : bool)
| VNum (n : number)
| VStr (s : string)
| VDate (d : date)
| VObj (fields : list (string * value))
| VArr (items : list value).

Module Num.

Definition digit_value (c : ascii) : N := (code c - 48)%N.

Definition hex_value (c : ascii) : option N :=
  if is_digit c then Some (code c - 48)%N
  else if in_range 97 102 c then Some (code c - 87)%N
  else if in_range 65 70 c then Some (code c - 55)%N
  else None.

Fixpoint digits_from (acc : N) (s : string) : N :=
  match s with
  | EmptyString => acc
  | String c r => digits_from (acc * 10 + digit_value c)%N r
  end.

(** The value of a run of decimal digits. *)
Definition digits (s : string) : N := digits_from 0 s.

Fixpoint radix_from (base : N) (acc : N) (s : string) : option N :=
  match s with
  | EmptyString => Some acc
  | String c r =>
      match hex_value c with
      | Some d => if (d <? base)%N then radix_from base (acc * base + d)%N r else None
      | None => None
      end
  end.

(** [m * 10^e] *)
Definition scale (m : Z) (e : Z) : Q :=
  match e with
  | Z0 => inject_Z m
  | Zpos p => inject_Z (m * Z.pow_pos 10 p)
  | Zneg p => Qred (Qmake m (Pos.pow 10 p))
  end.

(** The decimal with integer digits [ip], fraction digits [fp] and decimal
    exponent [e]. *)
Definition decimal (negative : bool) (ip fp : string) (e : Z) : Q :=
  let m := Z.of_N (digits (ip ++ fp)) in
  scale (if negative then (- m)%Z else m) (e - Z.of_nat (String.length fp)).

Definition signed (s : string) : bool * string :=
  match s with
  | String "-" r => (true, r)
  | _ => (false, s)
  end.

(** [Number(s)] for [s] of the shape [-?\d+(\.\d+)?]. *)
Definition of_literal (s : string) : number :=
  let (neg, r) := signed s in
  let (ip, r1) := span is_digit r in
  match r1 with
  | String "." fp => Fin (decimal neg ip fp 0)
  | _ => Fin (decimal neg ip EmptyString 0)
  end.

(** The exponent part [[eE][+-]?\d+] of a numeric text, or nothing. *)
Definition exponent (s : string) : option Z :=
  match s with
  | EmptyString => Some 0%Z
  | String c r =>
      if (c =? "e")%char || (c =? "E")%char then
        let '(neg, ds) :=
          match r with
          | String "-" r' => (true, r')
          | String "+" r' => (false, r')
          | _ => (false, r)
          end in
        if negb (is_empty ds) && forallb_str is_digit ds
        then Some (if neg then (- Z.of_N (digits ds))%Z else Z.of_N (digits ds))
        else None
      else None
  end.

(** An unsigned decimal literal of a numeric string: digits with an
    optional point and further digits, or a point and digits; then an
    optional exponent. *)
Definition unsigned_decimal (neg : bool) (s : string) : number :=
  let (ip, r1) := span is_digit s in
  let '(fp, r2) :=
    match r1 with
    | String "." r => span is_digit r
    | _ => (EmptyString, r1)
    end in
  if is_empty ip && is_empty fp then NaN
  else match exponent r2 with
       | Some e => Fin (decimal neg ip fp e)
       | None => NaN
       end.

Definition radix_literal (base : N) (ds : string) : number :=
  if is_empty ds then NaN
  else match radix_from base 0 ds with
       | Some n => Fin (inject_Z (Z.of_N n))
       | None => NaN
       end.

(** [Number(s)] for an arbitrary text: the numeric-string grammar of the
    language. *)
Definition of_string (s : string) : number :=
  let t := trim s in
  match t with
  | EmptyString => Fin 0
  | String "0" (String x ds) =>
      if (x =? "x")%char || (x =? "X")%char then radix_literal 16 ds
      else if (x =? "o")%char || (x =? "O")%char then radix_literal 8 ds
      else if (x =? "b")%char || (x =? "B")%char then radix_literal 2 ds
      else unsigned_decimal false t
  | String "-" r =>
      if (r =? "Infinity")%string then Inf true else unsigned_decimal true r
  | String "+" r =>
      if (r =? "Infinity")%string then Inf false else unsigned_decimal false r
  | _ =>
      if (t =? "Infinity")%string then Inf false else unsigned_decimal false t
  end.

(** [isNaN(s)] on a text. *)
Definition isNaN (s : string) : bool :=
  match of_string s with NaN => true | _ => false end.

Definition add (a b : number) : number :=
  match a, b with
  | Fin x, Fin y => Fin (Qred (x + y))
  | NaN, _ | _, NaN => NaN
  | Inf s, Fin _ | Fin _, Inf s => Inf s
  | Inf s, Inf t => if Bool.eqb s t then Inf s else NaN
  end.

Definition neg (a : number) : number :=
  match a with
  | Fin x => Fin (Qred (- x))
  | Inf s => Inf (negb s)
  | NaN => NaN
  end.

Definition sub (a b : number) : number := add a (neg b).

Definition of_Z (z : Z) : number := Fin (inject_Z z).

(** [String(z)] for an integer. *)
Definition show_Z (z : Z) : string := NilEmpty.string_of_int (Z.to_int z).

(** [String(n)] for a natural number, used for array indices. *)
Definition show_nat (n : nat) : string := NilEmpty.string_of_uint (Nat.to_uint n).

End Num.

(* ------------------------------------------------------------------ *)
(** * Own properties of an object literal *)

Module Obj.

Definition fields : Type := list (string * value).

(** An array index: a decimal numeral without leading zero, below 2^32 - 1.
    Such keys come first in the property order, by increasing value. *)
Definition array_index (k : string) : option N :=
  match k with
  | EmptyString => None
  | String c r =>
      if forallb_str is_digit k && (is_empty r || negb (c =? "0")%char)
      then let n := Num.digits k in
           if (n <? 4294967295)%N then Some n else None
      else None
  end.

Definition has_key (k : string) (o : fields) : bool :=
  existsb (fun kv => (fst kv =? k)%string) o.

Fixpoint get (k : string) (o : fields) : option value :=
  match o with
  | [] => None
  | (k', v) :: r => if (k' =? k)%string then Some v else get k r
  end.

Fixpoint update (k : string) (v : value) (o : fields) : fields :=
  match o with
  | [] => []
  | (k', v') :: r =>
      if (k' =? k)%string then (k', v) :: r else (k', v') :: update k v r
  end.

Fixpoint insert_index (n : N) (k : string) (v : value) (o : fields) : fields :=
  match o with
  | [] => [(k, v)]
  | (k', v') :: r =>
      match array_index k' with
      | Some m =>
          if (n <? m)%N then (k, v) :: o else (k', v') :: insert_index n k v r
      | None => (k, v) :: o
      end
  end.

(** Defining the own property [k]: an existing property keeps its place, a
    new one takes its place in the property order. *)
Definition set (k : string) (v : value) (o : fields) : fields :=
  if has_key k o then update k v o
  else match array_index k with
       | Some n => insert_index n k v o
       | None => o ++ [(k, v)]
       end.

(** The assignment [o[k] = v] on a plain object. Assigning to [__proto__]
    reaches the prototype accessor and creates no own property. *)
Definition assign (k : string) (v : value) (o : fields) : fields :=
  if (k =? "__proto__")%string then o else set k v o.

(** [Object.entries] of an array: its indices as keys. *)
Fixpoint entries_from (i : nat) (items : list value) : fields :=
  match items with
  | [] => []
  | v :: r => (Num.show_nat i, v) :: entries_from (S i) r
  end.

Definition array_entries (items : list value) : fields := entries_from 0 items.

End Obj.

(* ------------------------------------------------------------------ *)
(** * A decoder for JSON text

    [JSON.parse] belongs to the runtime. [Json.decode] is an executable
    rendering of its grammar over the characters of this development; an
    escape that denotes a code unit above 255 is outside that alphabet and
    is refused. The interpreter below takes the decoder as a parameter. *)

Module Json.

Inductive token : Type :=
| TLBrace | TRBrace | TLBrack | TRBrack | TComma | TColon
| TString (s : string)
| TAtom (s : string).

Inductive mode : Type :=
| Idle
| InAtom (acc : string)
| InStr (acc : string)
| InEsc (acc : string)
| InHex (acc : string) (todo : nat) (v : N).

Definition is_ws (c : ascii) : bool :=
  (code c =? 32)%N || (code c =? 9)%N || (code c =? 10)%N || (code c =? 13)%N.

Definition is_atom_char (c : ascii) : bool :=
  is_digit c || is_lower c || is_upper c ||
  (c =? "-")%char || (c =? "+")%char || (c =? ".")%char.

Definition punct (c : ascii) : option token :=
  if (c =? "{")%char then Some TLBrace
  else if (c =? "}")%char then Some TRBrace
  else if (c =? "[")%char then Some TLBrack
  else if (c =? "]")%char then Some TRBrack
  else if (c =? ",")%char then Some TComma
  else if (c =? ":")%char then Some TColon
  else None.

Definition idle_step (c : ascii) : option (list token * mode) :=
  if is_ws c then Some ([], Idle)
  else if (c =? dquote)%char then Some ([], InStr EmptyString)
  else if is_atom_char c then Some ([], InAtom (str1 c))
  else match punct c with
       | Some t => Some ([t], Idle)
       | None => None
       end.

Definition escape (c : ascii) : option ascii :=
  if (c =? dquote)%char then Some dquote
  else if (c =? backslash)%char then Some backslash
  else if (c =? "/")%char then Some "/"%char
  else if (c =? "b")%char then Some "008"%char
  else if (c =? "f")%char then Some "012"%char
  else if (c =? "n")%char then Some "010"%char
  else if (c =? "r")%char then Some "013"%char
  else if (c =? "t")%char then Some "009"%char
  else None.

Definition step (m : mode) (c : ascii) : option (list token * mode) :=
  match m with
  | Idle => idle_step c
  | InAtom a =>
      if is_atom_char c then Some ([], InAtom (a ++ str1 c))
      else match idle_step c with
           | Some (ts, m') => Some (TAtom a :: ts, m')
           | None => None
           end
  | InStr a =>
      if (c =? dquote)%char then Some ([TString a], Idle)
      else if (c =? backslash)%char then Some ([], InEsc a)
      else if (code c <? 32)%N then None
      else Some ([], InStr (a ++ str1 c))
  | InEsc a =>
      if (c =? "u")%char then Some ([], InHex a 4 0%N)
      else match escape c with
           | Some e => Some ([], InStr (a ++ str1 e))
           | None => None
           end
  | InHex a n v =>
      match Num.hex_value c with
      | None => None
      | Some d =>
          let v' := (v * 16 + d)%N in
          match n with
          | 0%nat => None
          | 1%nat =>
              if (v' <? 256)%N then Some ([], InStr (a ++ str1 (ascii_of_N v')))
              else None
          | S k => Some ([], InHex a k v')
          end
      end
  end.

Fixpoint lex (m : mode) (s : string) : option (list token) :=
  match s with
  | EmptyString =>
      match m with
      | Idle => Some []
      | InAtom a => Some [TAtom a]
      | _ => None
      end
  | String c r =>
      match step m c with
      | None => None
      | Some (ts, m') =>
          match lex m' r with
          | Some rest => Some (ts ++ rest)
          | None => None
          end
      end
  end.

(** The number grammar:
    an optional minus, [0] or a numeral without leading zero, an optional
    fraction, an optional exponent. *)
Definition number_re : regex :=
  seqs [ opt (chr "-");
         Alt (chr "0") (Seq (Cls (in_range 49 57)) (Star digit));
         opt (Seq (chr ".") (plus digit));
         opt (seqs [Cls (fun c => (c =? "e")%char || (c =? "E")%char);
                    opt (Cls (fun c => (c =? "+")%char || (c =? "-")%char));
                    plus digit]) ].

Definition atom_value (a : string) : option value :=
  if (a =? "null")%string then Some VNull
  else if (a =? "true")%string then Some (VBool true)
  else if (a =? "false")%string then Some (VBool false)
  else if matches number_re a then
    let (neg, r) := Num.signed a in Some (VNum (Num.unsigned_decimal neg r))
  else None.

(** Containers under construction. *)
Inductive frame : Type :=
| FArr (done : list value)                       (* elements, last first *)
| FObj (done : Obj.fields) (key : option string). (* members, pending key *)

Inductive expect : Type :=
| EValue      (* a value *)
| EArrFirst   (* a value or the end of the array *)
| EObjFirst   (* a key or the end of the object *)
| EKey        (* a key *)
| EColon      (* the colon after a key *)
| EAfter      (* a comma or the end of the container *)
| EDone (v : value).

Definition pstate : Type := (list frame * expect)%type.

(** A value has been read: hand it to the enclosing container. *)
Definition deliver (v : value) (stack : list frame) : option pstate :=
  match stack with
  | [] => Some ([], EDone v)
  | FArr done :: r => Some (FArr (v :: done) :: r, EAfter)
  | FObj done (Some k) :: r => Some (FObj (Obj.set k v done) None :: r, EAfter)
  | FObj _ None :: _ => None
  end.

Definition start_value (t : token) (stack : list frame) : option pstate :=
  match t with
  | TAtom a =>
      match atom_value a with
      | Some v => deliver v stack
      | None => None
      end
  | TString s => deliver (VStr s) stack
  | TLBrack => Some (FArr [] :: stack, EArrFirst)
  | TLBrace => Some (FObj [] None :: stack, EObjFirst)
  | _ => None
  end.

Definition set_key (k : string) (stack : list frame) : option pstate :=
  match stack with
  | FObj done None :: r => Some (FObj done (Some k) :: r, EColon)
  | _ => None
  end.

Definition close_array (stack : list frame) : option pstate :=
  match stack with
  | FArr done :: r => deliver (VArr (rev done)) r
  | _ => None
  end.

Definition close_object (stack : list frame) : option pstate :=
  match stack with
  | FObj done None :: r => deliver (VObj done) r
  | _ => None
  end.

Definition parse_step (st : pstate) (t : token) : option pstate :=
  let (stack, e) := st in
  match e with
  | EValue => start_value t stack
  | EArrFirst =>
      match t with
      | TRBrack => close_array stack
      | _ => start_value t stack
      end
  | EObjFirst =>
      match t with
      | TRBrace => close_object stack
      | TString k => set_key k stack
      | _ => None
      end
  | EKey =>
      match t with
      | TString k => set_key k stack
      | _ => None
      end
  | EColon =>
      match t with
      | TColon => Some (stack, EValue)
      | _ => None
      end
  | EAfter =>
      match t, stack with
      | TComma, FArr _ :: _ => Some (stack, EValue)
      | TComma, FObj _ None :: _ => Some (stack, EKey)
      | TRBrack, _ => close_array stack
      | TRBrace, _ => close_object stack
      | _, _ => None
      end
  | EDone _ => None
  end.

Fixpoint parse (st : pstate) (ts : list token) : option value :=
  match ts with
  | [] => match st with
          | ([], EDone v) => Some v
          | _ => None
          end
  | t :: r =>
      match parse_step st t with
      | Some st' => parse st' r
      | None => None
      end
  end.

Definition decode (text : string) : option value :=
  match lex Idle text with
  | Some ts => parse ([], EValue) ts
  | None => None
  end.

End Json.

(* ------------------------------------------------------------------ *)
(** * The runtime the interpreter runs on *)

Record Runtime : Type := {
  JSON_parse : string -> option value;   (* [None]: a SyntaxError is thrown *)
  clock : Z                              (* [Date.now()], in milliseconds *)
}.

Definition std_runtime (t : Z) : Runtime :=
  {| JSON_parse := Json.decode; clock := t |}.

(* ------------------------------------------------------------------ *)
(** * Value Coercer and Argument Lexer *)

(** The first replacement on an object literal: a run of word characters
    directly followed by a colon is put between double quotes. [run] is the
    run of word characters read so far. *)
Fixpoint quote_keys_from (run : string) (s : string) : string :=
  match s with
  | EmptyString => run
  | String c r =>
      if is_word c then quote_keys_from (run ++ str1 c) r
      else if (c =? ":")%char && negb (is_empty run)
      then str1 dquote ++ run ++ str1 dquote ++ ":" ++ quote_keys_from EmptyString r
      else run ++ String c (quote_keys_from EmptyString r)
  end.

Definition quote_keys (s : string) : string := quote_keys_from EmptyString s.

(** [/^-?\d+(\.\d+)?$/] *)
Definition number_literal : regex :=
  seqs [opt (chr "-"); plus digit; opt (Seq (chr ".") (plus digit))].

(** [expression.match(/^(\d+)\s*([\+\-])\s*(\d+)$/)]: the three groups. *)
Definition offset_expression (e : string) : option (string * ascii * string) :=
  let (lhs, r1) := span is_digit e in
  if is_empty lhs then None
  else match trim_start r1 with
       | EmptyString => None
       | String op r2 =>
           if (op =? "+")%char || (op =? "-")%char then
             let rhs := trim_start r2 in
             if negb (is_empty rhs) && forallb_str is_digit rhs
             then Some (lhs, op, rhs)
             else None
           else None
       end.

(** The matches of [content.match(/(\w+)\s*:\s*([^,]+)/g)], each one cut at
    its first colon: the text before it (key and blanks) and the text after
    it (up to the next comma). *)
Inductive pair_scan : Type :=
| Seek
| Run (w : string)              (* in the word *)
| Gap (w : string)              (* in the blanks between word and colon *)
| Colon (w : string)            (* just after the colon *)
| Val (w : string) (v : string) (* in the value *).

Definition seek (c : ascii) : pair_scan :=
  if is_word c then Run (str1 c) else Seek.

Fixpoint scan_pairs (st : pair_scan) (s : string) : list (string * string) :=
  match s with
  | EmptyString =>
      match st with
      | Val w v => [(w, v)]
      | _ => []
      end
  | String c r =>
      match st with
      | Seek => scan_pairs (seek c) r
      | Run w =>
          if is_word c then scan_pairs (Run (w ++ str1 c)) r
          else if is_space c then scan_pairs (Gap (w ++ str1 c)) r
          else if (c =? ":")%char then scan_pairs (Colon w) r
          else scan_pairs Seek r
      | Gap w =>
          if is_space c then scan_pairs (Gap (w ++ str1 c)) r
          else if (c =? ":")%char then scan_pairs (Colon w) r
          else scan_pairs (seek c) r
      | Colon w =>
          if (c =? ",")%char then scan_pairs Seek r
          else scan_pairs (Val w (str1 c)) r
      | Val w v =>
          if (c =? ",")%char then (w, v) :: scan_pairs Seek r
          else scan_pairs (Val w (v ++ str1 c)) r
      end
  end.

Definition match_pairs (content : string) : list (string * string) :=
  scan_pairs Seek content.

(** The text before the first colon. *)
Fixpoint until_colon (s : string) : string :=
  match s with
  | EmptyString => EmptyString
  | String c r => if (c =? ":")%char then EmptyString else String c (until_colon r)
  end.

Section Coercer.

Context (rt : Runtime).

(** The argument of [new Date(...)]. *)
Definition parseDate (raw : string) : date :=
  let dateArg := slice 9 raw in
  if is_empty dateArg then DateOfMillis (Num.of_Z (clock rt))
  else if startsWith (str1 dquote) dateArg || startsWith (str1 squote) dateArg
  then DateOfText (slice 1 dateArg)
  else if negb (Num.isNaN dateArg) then DateOfMillis (Num.of_string dateArg)
  else
    let fallback := DateOfText dateArg in
    if includes "Date.now()" dateArg then
      let expression := replace_all "Date.now()" (Num.show_Z (clock rt)) dateArg in
      match offset_expression expression with
      | Some (lhs, op, rhs) =>
          let l := Num.of_Z (Z.of_N (Num.digits lhs)) in
          let r := Num.of_Z (Z.of_N (Num.digits rhs)) in
          DateOfMillis (if (op =? "+")%char then Num.add l r else Num.sub l r)
      | None => fallback
      end
    else fallback.

(** [parseObject], with the coercer of the nested values as [coerce].
    [key] and [val] are the first two pieces of [pair.split(':')], trimmed. *)
Definition parseObject_with (coerce : string -> option value)
    (objString : string) : option value :=
  let content := slice 1 objString in
  let pairs := match_pairs content in
  option_map VObj
    (fold_left
       (fun obj pair =>
          let key := trim (fst pair) in
          let val := trim (until_colon (snd pair)) in
          match obj, coerce val with
          | Some o, Some v => Some (Obj.assign key v o)
          | _, _ => None
          end)
       pairs (Some [])).

(** [parseValue]; [fuel] bounds the nesting of [parseObject] and
    [parseValue], and [None] means that it ran out. *)
Fixpoint parseValue_fuel (fuel : nat) (raw : string) : option value :=
  if (raw =? "null")%string then Some VNull
  else if (raw =? "undefined")%string then Some VUndefined
  else if (raw =? "true")%string then Some (VBool true)
  else if (raw =? "false")%string then Some (VBool false)
  else if (startsWith (str1 dquote) raw && endsWith dquote raw)
          || (startsWith (str1 squote) raw && endsWith squote raw)
  then Some (VStr (unescape squote (unescape dquote (slice 1 raw))))
  else if matches number_literal raw then Some (VNum (Num.of_literal raw))
  else if startsWith "new Date(" raw then Some (VDate (parseDate raw))
  else if startsWith "{" raw then
    match JSON_parse rt (replace_char squote dquote (quote_keys raw)) with
    | Some v => Some v
    | None =>
        match fuel with
        | O => None
        | S f => parseObject_with (parseValue_fuel f) raw
        end
    end
  else if startsWith "[" raw then
    match JSON_parse rt (replace_char squote dquote raw) with
    | Some v => Some v
    | None => Some (VArr [])
    end
  else Some (VStr raw).

(** Every nested call is on a shorter text, so the length is fuel enough
    ([parseValue_fuel_enough] below). *)
Definition parseValue (raw : string) : value :=
  match parseValue_fuel (S (String.length raw)) raw with
  | Some v => v
  | None => VUndefined
  end.

Definition parseObject (objString : string) : value :=
  match parseObject_with (fun val => Some (parseValue val)) objString with
  | Some v => v
  | None => VUndefined
  end.

(** The state of the scan in [parseArguments]. *)
Record lexer : Type := Lexer {
  args : list value;
  current : string;
  depth : Z;
  inString : bool;
  stringChar : option ascii
}.

Definition lexer_init : lexer :=
  {| args := []; current := EmptyString; depth := 0;
     inString := false; stringChar := None |}.

Definition is_quote (c : ascii) : bool := (c =? dquote)%char || (c =? squote)%char.
Definition is_open (c : ascii) : bool :=
  (c =? "{")%char || (c =? "[")%char || (c =? "(")%char.
Definition is_close (c : ascii) : bool :=
  (c =? "}")%char || (c =? "]")%char || (c =? ")")%char.

Definition same_char (o : option ascii) (c : ascii) : bool :=
  match o with Some d => (c =? d)%char | None => false end.

(** One turn of the loop; [prev] is [argsString[i - 1]]. *)
Definition lex_char (prev : option ascii) (st : lexer) (char : ascii) : lexer :=
  if negb (inString st) then
    if is_quote char then
      {| args := args st; current := current st ++ str1 char; depth := depth st;
         inString := true; stringChar := Some char |}
    else if is_open char then
      {| args := args st; current := current st ++ str1 char;
         depth := depth st + 1;
         inString := inString st; stringChar := stringChar st |}
    else if is_close char then
      {| args := args st; current := current st ++ str1 char;
         depth := depth st - 1;
         inString := inString st; stringChar := stringChar st |}
    else if (char =? ",")%char && (depth st =? 0)%Z then
      {| args := args st ++ [parseValue (trim (current st))];
         current := EmptyString; depth := depth st;
         inString := inString st; stringChar := stringChar st |}
    else
      {| args := args st; current := current st ++ str1 char; depth := depth st;
         inString := inString st; stringChar := stringChar st |}
  else
    if same_char (stringChar st) char && negb (same_char prev backslash) then
      {| args := args st; current := current st ++ str1 char; depth := depth st;
         inString := false; stringChar := None |}
    else
      {| args := args st; current := current st ++ str1 char; depth := depth st;
         inString := inString st; stringChar := stringChar st |}.

Fixpoint lex_loop (prev : option ascii) (st : lexer) (s : string) : lexer :=
  match s with
  | EmptyString => st
  | String c r => lex_loop (Some c) (lex_char prev st c) r
  end.

Definition parseArguments (argsString : string) : list value :=
  if is_empty (trim argsString) then []
  else
    let st := lex_loop None lexer_init argsString in
    if negb (is_empty (trim (current st)))
    then args st ++ [parseValue (trim (current st))]
    else args st.

(* ---------------------------------------------------------------- *)
(** ** Grammar Classifier *)

Inductive parsed : Type :=
| Method (object : string) (property subProperty : option string)
         (arguments : list value)
| Property (object : string) (property subProperty : option string)
| Constructor (class : string) (arguments : list value).

(** The optional group [(?:\.(\w+))?]. *)
Definition dotted (s : string) : option string * string :=
  match s with
  | String "." r =>
      let (w, r') := span is_word r in
      if is_empty w then (None, s) else (Some w, r')
  | _ => (None, s)
  end.

(** [^(\w+)(?:\.(\w+))?(?:\.(\w+))?] and what follows it. *)
Definition path (s : string)
  : option (string * option string * option string * string) :=
  let (obj, r0) := span is_word s in
  if is_empty obj then None
  else let (prop1, r1) := dotted r0 in
       let (prop2, r2) := dotted r1 in
       Some (obj, prop1, prop2, r2).

(** The tail of a call, an opening parenthesis, any characters but line
    terminators, and a closing parenthesis at the very end: the text
    between the two. *)
Definition call_args (s : string) : option string :=
  match s with
  | String "(" r =>
      if endsWith ")" r
         && forallb_str (fun c => negb (is_line_terminator c)) (drop_last r)
      then Some (drop_last r)
      else None
  | _ => None
  end.

(** The constructor shape: [new], one or more blanks, a word, and the tail
    of a call. *)
Definition constructor_match (s : string) : option (string * string) :=
  match s with
  | String "n" (String "e" (String "w" r)) =>
      let (blanks, r1) := span is_space r in
      if is_empty blanks then None
      else let (className, r2) := span is_word r1 in
           if is_empty className then None
           else match call_args r2 with
                | Some a => Some (className, a)
                | None => None
                end
  | _ => None
  end.

Definition methodMatch (command : string)
  : option (string * option string * option string * string) :=
  match path command with
  | Some (obj, prop1, prop2, rest) =>
      match call_args rest with
      | Some a => Some (obj, prop1, prop2, a)
      | None => None
      end
  | None => None
  end.

Definition propMatch (command : string)
  : option (string * option string * option string) :=
  match path command with
  | Some (obj, prop1, prop2, rest) =>
      if is_empty rest then Some (obj, prop1, prop2) else None
  | None => None
  end.

Definition parseCommand (command : string) : option parsed :=
  match methodMatch command with
  | Some (obj, prop1, prop2, a) =>
      Some (Method obj prop1 prop2 (parseArguments a))
  | None =>
      match propMatch command with
      | Some (obj, prop1, prop2) => Some (Property obj prop1 prop2)
      | None =>
          match constructor_match command with
          | Some (className, a) => Some (Constructor className (parseArguments a))
          | None => None
          end
      end
  end.

End Coercer.

(* ------------------------------------------------------------------ *)
(** * Object Sanitizer *)

(** [this.sanitizers.string]: the angle brackets are removed. *)
Definition sanitize_string (s : string) : string :=
  filter_str (fun c => negb ((c =? "<")%char || (c =? ">")%char)) s.

(** [key.startsWith('__') || key.startsWith('on')] *)
Definition dangerous_key (key : string) : bool :=
  startsWith "__" key || startsWith "on" key.

(** [typeof v === 'object'] *)
Definition typeof_object (v : value) : bool :=
  match v with
  | VNull | VDate _ | VObj _ | VArr _ => true
  | VUndefined | VBool _ | VNum _ | VStr _ => false
  end.

(** [Object.entries(obj)] of a value whose type is ['object'] and which is
    not [null]: the members of a mapping, the indexed elements of an array,
    nothing for a Date. *)
Definition entries (v : value) : Obj.fields :=
  match v with
  | VObj fs => fs
  | VArr items => Obj.array_entries items
  | _ => []
  end.

(** One turn of the loop of [sanitizeObject] on the entry [(key, v)];
    [sanitized] is the object built so far and [self] the recursive call. *)
Definition sanitize_entry (self : value -> value) (key : string) (v : value)
    (sanitized : Obj.fields) : Obj.fields :=
  if dangerous_key key then sanitized
  else
    match v with
    | VStr s => Obj.assign key (VStr (sanitize_string s)) sanitized
    | VNull | VDate _ | VObj _ | VArr _ => Obj.assign key (self v) sanitized
    | VUndefined | VBool _ | VNum _ => Obj.assign key v sanitized
    end.

(** [sanitizeObject]. A value of type ['object'] other than [null] is
    rebuilt from its entries, whatever its class. *)
Fixpoint sanitizeObject (obj : value) : value :=
  match obj with
  | VNull => VNull
  | VUndefined => VUndefined
  | VBool _ | VNum _ | VStr _ => obj
  | VDate _ => VObj []
  | VObj fs =>
      VObj ((fix over_fields (es : Obj.fields) (sanitized : Obj.fields) :=
               match es with
               | [] => sanitized
               | (key, v) :: es' =>
                   over_fields es' (sanitize_entry sanitizeObject key v sanitized)
               end) fs [])
  | VArr items =>
      VObj ((fix over_items (i : nat) (es : list value) (sanitized : Obj.fields) :=
               match es with
               | [] => sanitized
               | v :: es' =>
                   over_items (S i) es'
                     (sanitize_entry sanitizeObject (Num.show_nat i) v sanitized)
               end) 0%nat items [])
  end.

(* ------------------------------------------------------------------ *)
(** * The context and the objects reachable from it *)

(** What a read of the context can yield: a literal value, a function, or
    some other live object. *)
Inductive hval : Type :=
| HLit (v : value)
| HFun (f : nat)
| HObj (o : nat).

(** The result of a step that may throw; [Throw m] carries the [message]
    of the error.  What the parser throws is always an [Error] with a
    message; for the host this describes a getter, a method or a constructor
    that throws an error object, and leaves out one that throws [null] or
    [undefined], which have no [message] to read. *)
Inductive outcome (A : Type) : Type :=
| Ok (a : A)
| Throw (message : string).
Arguments Ok {A} a.
Arguments Throw {A} message.

(** The host: the state of the live objects and the three ways in which the
    interpreter touches them. *)
Record Host : Type := {
  World : Type;
  context : hval;
  (* [target[key]] *)
  host_get : hval -> string -> World -> outcome hval * World;
  (* [method.apply(receiver, args)] *)
  host_call : hval -> hval -> list value -> World -> outcome hval * World;
  (* [new Constructor(...args)] *)
  host_new : hval -> list value -> World -> outcome hval * World
}.

(** Every touch of the host is recorded, oldest first: a read, the
    evaluation of [method.apply], the evaluation of [new] on a function.
    Whether the host answers with a value or throws does not show in the
    event. *)
Inductive event : Type :=
| EGet (target : hval) (key : string)
| ECall (method receiver : hval) (args : list value)
| ENew (class : hval) (args : list value).

Definition is_get (e : event) : bool :=
  match e with EGet _ _ => true | _ => false end.
Definition is_call (e : event) : bool :=
  match e with ECall _ _ _ => true | _ => false end.

(** Truthiness. *)
Definition truthy_value (v : value) : bool :=
  match v with
  | VNull | VUndefined => false
  | VBool b => b
  | VNum (Fin q) => negb (Qeq_bool q 0)
  | VNum (Inf _) => true
  | VNum NaN => false
  | VStr s => negb (is_empty s)
  | VDate _ | VObj _ | VArr _ => true
  end.

Definition truthy (h : hval) : bool :=
  match h with
  | HLit v => truthy_value v
  | HFun _ | HObj _ => true
  end.

(** [typeof h === 'function'] *)
Definition is_function (h : hval) : bool :=
  match h with HFun _ => true | _ => false end.

(** [h === undefined] *)
Definition is_undefined (h : hval) : bool :=
  match h with HLit VUndefined => true | _ => false end.

(** A captured group that may be [undefined]. *)
Definition present (o : option string) : bool :=
  match o with
  | Some s => negb (is_empty s)
  | None => false
  end.

(** A captured group used as a property key or inside a template. *)
Definition key_of (o : option string) : string :=
  match o with
  | Some s => s
  | None => "undefined"
  end.

(** [a || b] on captured groups. *)
Definition or_else (a : option string) (b : string) : string :=
  if present a then key_of a else b.

(* ------------------------------------------------------------------ *)
(** * The allow-lists *)

Definition allowedObjects : list string := ["calendar"; "Event"; "EventStore"].

(** What [this.allowedMethods[key]] evaluates to: a list of the table, a
    member inherited from [Object.prototype], or [undefined]. The table is
    a plain object, so the read also finds what it inherits; an inherited
    member is truthy and has no [includes], and calling it is a TypeError
    (with the message of the engine, here that of V8). *)
Inductive allow_entry : Type :=
| Scope (names : list string)
| Inherited
| Missing.

Definition object_prototype_keys : list string :=
  [ "constructor"; "__defineGetter__"; "__defineSetter__"; "hasOwnProperty";
    "__lookupGetter__"; "__lookupSetter__"; "isPrototypeOf";
    "propertyIsEnumerable"; "toString"; "valueOf"; "__proto__";
    "toLocaleString" ].

Definition buildAllowedMethods : list (string * list string) :=
  [ ("calendar",
      [ "getEvents"; "addEvent"; "updateEvent"; "removeEvent"; "setEvents";
        "getEventsForDate"; "getEventsInRange"; "setView"; "getView";
        "next"; "previous"; "today"; "getCurrentDate"; "setCurrentDate";
        "getTimezone"; "setTimezone"; "getViewData"; "getEventById";
        "detectConflicts"; "on"; "off"; "emit" ]);
    ("Event", [ "constructor"; "validate"; "normalize"; "clone" ]);
    ("EventStore",
      [ "add"; "update"; "remove"; "get"; "getAll"; "clear";
        "getByDate"; "getByDateRange"; "getStats"; "getPerformanceMetrics";
        "query"; "hasConflicts"; "getConflicts" ]);
    ("eventStore",
      [ "add"; "update"; "remove"; "get"; "getAll"; "clear";
        "getByDate"; "getByDateRange"; "getStats"; "getPerformanceMetrics" ]);
    ("state",
      [ "undo"; "redo"; "canUndo"; "canRedo"; "getUndoCount"; "getRedoCount";
        "subscribe"; "unsubscribe"; "getState" ]) ].

Fixpoint assoc (k : string) (t : list (string * list string))
  : option (list string) :=
  match t with
  | [] => None
  | (k', l) :: r => if (k' =? k)%string then Some l else assoc k r
  end.

(** [this.allowedMethods[key]] *)
Definition allowedMethods (key : string) : allow_entry :=
  match assoc key buildAllowedMethods with
  | Some l => Scope l
  | None => if mem key object_prototype_keys then Inherited else Missing
  end.

(** [a || b] on two such reads; every list and every inherited member is
    truthy. *)
Definition allow_or (a b : allow_entry) : allow_entry :=
  match a with
  | Missing => b
  | _ => a
  end.

(* ------------------------------------------------------------------ *)
(** * Dispatch Executor *)

Section Dispatch.

Context (rt : Runtime) (H : Host).

(** Computations that read and change the host, record what they do, and
    may throw. *)
Definition state : Type := (World H * list event)%type.
Definition M (A : Type) : Type := state -> outcome A * state.

Definition ret {A} (a : A) : M A := fun s => (Ok a, s).
Definition throw {A} (message : string) : M A := fun s => (Throw message, s).

Definition bind {A B} (m : M A) (k : A -> M B) : M B :=
  fun s =>
    match m s with
    | (Ok a, s') => k a s'
    | (Throw e, s') => (Throw e, s')
    end.

(** [try { m } catch (error) { handler(error.message) }] *)
Definition try_catch {A} (m : M A) (handler : string -> M A) : M A :=
  fun s =>
    match m s with
    | (Ok a, s') => (Ok a, s')
    | (Throw e, s') => handler e s'
    end.

Notation "x <- m ;; k" := (bind m (fun x => k))
  (at level 61, m at next level, right associativity).

Definition touch (e : event) (f : World H -> outcome hval * World H) : M hval :=
  fun s =>
    let (r, w') := f (fst s) in (r, (w', snd s ++ [e])).

Definition get (target : hval) (key : string) : M hval :=
  touch (EGet target key) (host_get H target key).

Definition apply (method receiver : hval) (args : list value) : M hval :=
  touch (ECall method receiver args) (host_call H method receiver args).

(** [new class(...args)]: a value that is not a function is no constructor,
    and the engine throws its TypeError (with the message of V8, which
    names the expression that was called) before any code of the host runs.
    For a function the host answers: a class builds its instance, a
    function that is no constructor is refused in the same way. *)
Definition construct (class : hval) (args : list value) : M hval :=
  if is_function class then touch (ENew class args) (host_new H class args)
  else throw "Constructor is not a constructor".

Definition validateSafety (command : string) : M unit :=
  match first_unsafe command with
  | Some p => throw ("Unsafe pattern detected: " ++ show_pattern p)
  | None => ret tt
  end.

Definition executeMethod (object : string) (property subProperty : option string)
    (args : list value) : M hval :=
  (* Get the target object *)
  target <- get (context H) object ;;
  if negb (truthy target) then throw ("Object '" ++ object ++ "' not found")
  else
  (* Navigate to sub-property if needed *)
  target <-
    (if present property then
       t <- get target (key_of property) ;;
       if negb (truthy t)
       then throw ("Property '" ++ key_of property ++ "' not found on " ++ object)
       else ret t
     else ret target) ;;
  (* Get the method *)
  let methodName := or_else subProperty (if present property then "call" else object) in
  method <- (if present subProperty then get target (key_of subProperty)
             else ret target) ;;
  if negb (is_function method) then
    (* If it's a property with sub-method, navigate further *)
    found <- (if present subProperty
              then (v <- get target (key_of subProperty) ;; ret (truthy v))
              else ret false) ;;
    if found then get target (key_of subProperty)
    else throw ("'" ++ methodName ++ "' is not a function")
  else
  (* Validate method is allowed *)
  let allowedList :=
    allow_or (allowedMethods (key_of property)) (allowedMethods object) in
  match allowedList with
  | Scope names =>
      if negb (mem (or_else subProperty "call") names)
      then throw ("Method '" ++ or_else subProperty (key_of property)
                  ++ "' is not allowed")
      else
        receiver <-
          (root <- get (context H) object ;;
           if present property then get root (key_of property) else ret root) ;;
        apply method receiver args
  | Inherited => throw "allowedList.includes is not a function"
  | Missing =>
      receiver <-
        (root <- get (context H) object ;;
         if present property then get root (key_of property) else ret root) ;;
      apply method receiver args
  end.

Definition executeProperty (object : string) (property subProperty : option string)
  : M hval :=
  value <- get (context H) object ;;
  if negb (truthy value) then throw ("Object '" ++ object ++ "' not found")
  else
  value <-
    (if present property then
       v <- get value (key_of property) ;;
       if is_undefined v
       then throw ("Property '" ++ key_of property ++ "' not found on " ++ object)
       else ret v
     else ret value) ;;
  value <-
    (if present subProperty then
       v <- get value (key_of subProperty) ;;
       if is_undefined v
       then throw ("Property '" ++ key_of subProperty ++ "' not found")
       else ret v
     else ret value) ;;
  ret value.

Definition executeConstructor (className : string) (args : list value) : M hval :=
  (* Only allow whitelisted constructors *)
  if negb (mem className allowedObjects)
  then throw ("Constructor '" ++ className ++ "' is not allowed")
  else
    Constructor <- get (context H) className ;;
    if negb (truthy Constructor)
    then throw ("Class '" ++ className ++ "' not found")
    else construct Constructor args.

Definition dispatch (p : parsed) : M hval :=
  match p with
  | Method object property subProperty args =>
      executeMethod object property subProperty args
  | Property object property subProperty =>
      executeProperty object property subProperty
  | Constructor className args => executeConstructor className args
  end.

Definition execute (command : string) : M hval :=
  try_catch
    (let command := normalize command in
     _ <- validateSafety command ;;
     match parseCommand rt command with
     | None => throw "Invalid command format"
     | Some parsed => dispatch parsed
     end)
    (fun message => throw ("Command execution failed: " ++ message)).

(** Running a command from a world, with nothing recorded yet. *)
Definition run (command : string) (w : World H) : outcome hval * state :=
  execute command (w, []).

End Dispatch.

(* ------------------------------------------------------------------ *)
(** * Well-nested argument text

    The shapes of text that the claims about the lexer speak of: a quoted
    string, a bracketed group, and a top-level argument. *)

(** [string_body q prev body]: inside a string opened by [q], with [prev]
    the character just before [body], no character of [body] ends the
    string, and the character before the closing quote is no backslash. *)
Fixpoint string_body (q prev : ascii) (body : string) : bool :=
  match body with
  | EmptyString => negb (prev =? backslash)%char
  | String c r =>
      (negb (c =? q)%char || (prev =? backslash)%char) && string_body q c r
  end.

(** [closes o c]: the bracket [c] closes the bracket [o]. *)
Definition closes (o c : ascii) : bool :=
  ((o =? "{")%char && (c =? "}")%char)
  || ((o =? "[")%char && (c =? "]")%char)
  || ((o =? "(")%char && (c =? ")")%char).

(** A character that is neither a quote nor a bracket. *)
Definition plain (c : ascii) : bool :=
  negb (is_quote c) && negb (is_open c) && negb (is_close c).

(** Text in which every string is closed and every bracket is matched;
    commas may occur anywhere. *)
Inductive balanced : string -> Prop :=
| balanced_nil : balanced EmptyString
| balanced_plain c s :
    plain c = true -> balanced s -> balanced (String c s)
| balanced_string q body s :
    is_quote q = true -> string_body q q body = true -> balanced s ->
    balanced (String q (body ++ String q s))
| balanced_group o inner c s :
    closes o c = true -> balanced inner -> balanced s ->
    balanced (String o (inner ++ String c s)).

(** One top-level argument: well-nested text whose commas all lie inside a
    string or inside a bracketed group. *)
Inductive toplevel : string -> Prop :=
| toplevel_nil : toplevel EmptyString
| toplevel_plain c s :
    plain c = true -> (c =? ",")%char = false -> toplevel s ->
    toplevel (String c s)
| toplevel_string q body s :
    is_quote q = true -> string_body q q body = true -> toplevel s ->
    toplevel (String q (body ++ String q s))
| toplevel_group o inner c s :
    closes o c = true -> balanced inner -> toplevel s ->
    toplevel (String o (inner ++ String c s)).

(** The argument-list text made of the given arguments. *)
Definition join_args (pieces : list string) : string := String.concat "," pieces.

Definition blank (s : string) : bool := forallb_str is_space s.

(* ------------------------------------------------------------------ *)
(** * A small context for concrete runs

    [calendar] has two methods and a store, and a few entries of the
    context hold falsy values. The world counts the calls and constructions
    made so far. *)

Module Demo.

Definition root : hval := HObj 0.
Definition calendar : hval := HObj 1.
Definition eventStore : hval := HObj 2.
Definition getEvents : hval := HFun 10.
Definition getStats : hval := HFun 11.
Definition EventClass : hval := HFun 12.
Definition add : hval := HFun 13.
Definition purge : hval := HFun 14.
Definition fetch : hval := HFun 15.

Definition table : list (nat * list (string * hval)) :=
  [ (0%nat, [ ("calendar", calendar); ("Event", EventClass);
              ("zero", HLit (VNum (Fin 0))); ("blank", HLit (VStr EmptyString));
              ("no", HLit (VBool false)); ("nothing", HLit VNull) ]);
    (1%nat, [ ("getEvents", getEvents); ("eventStore", eventStore);
              ("purge", purge); ("fetch", fetch);
              ("count", HLit (VNum (Fin 0))); ("label", HLit (VStr EmptyString)) ]);
    (2%nat, [ ("getStats", getStats); ("add", add);
              ("size", HLit (VNum (Fin 0))) ]) ].

Fixpoint lookup {A} (k : string) (l : list (string * A)) : option A :=
  match l with
  | [] => None
  | (k', a) :: r => if (k' =? k)%string then Some a else lookup k r
  end.

Fixpoint members (o : nat) (t : list (nat * list (string * hval)))
  : list (string * hval) :=
  match t with
  | [] => []
  | (o', ms) :: r => if Nat.eqb o' o then ms else members o r
  end.

(** What every object and every function inherits from
    [Object.prototype]. Each member is a function of its own, but for
    [__proto__], which is the prototype: an object for an object, and for a
    function [Function.prototype], which is itself a function. *)
Fixpoint position (key : string) (l : list string) (n : nat) : option nat :=
  match l with
  | [] => None
  | k :: r => if (k =? key)%string then Some n else position key r (S n)
  end.

Definition prototype_member (of_function : bool) (key : string) : hval :=
  match position key object_prototype_keys 900 with
  | Some n =>
      if (key =? "__proto__")%string && negb of_function then HObj n else HFun n
  | None => HLit VUndefined
  end.

(** [target[key]]: an own member of the table, else an inherited one, else
    [undefined].  A function has no own member here, and a literal answers
    [undefined] for every key. *)
Definition read (target : hval) (key : string) : hval :=
  match target with
  | HObj o =>
      match lookup key (members o table) with
      | Some h => h
      | None => prototype_member false key
      end
  | HFun _ => prototype_member true key
  | HLit _ => HLit VUndefined
  end.

Definition get (target : hval) (key : string) (w : nat) : outcome hval * nat :=
  (Ok (read target key), w).

(** Every method answers with the number of arguments it was given. *)
Definition call (method receiver : hval) (args : list value) (w : nat)
  : outcome hval * nat :=
  (Ok (HLit (VNum (Fin (inject_Z (Z.of_nat (List.length args)))))), S w).

(** [new Constructor(...args)] on a function: the class [Event] builds an
    instance; any other function of this host is a method, which is no
    constructor, and the engine throws its TypeError before anything is
    built. *)
Definition new (class : hval) (args : list value) (w : nat)
  : outcome hval * nat :=
  match class with
  | HFun 12 => (Ok (HObj 100), S w)
  | _ => (Throw "Constructor is not a constructor", w)
  end.

Definition host : Host :=
  {| World := nat; context := root;
     host_get := get; host_call := call; host_new := new |}.

Definition rt : Runtime := std_runtime 1700000000000.

End Demo.

(* ------------------------------------------------------------------ *)
(** * Notions used in the statements *)

(** [classifies rt command p]: the normalized text passes the Safety
    Validator and the Grammar Classifier reads it as [p]. *)
Definition classifies (rt : Runtime) (command : string) (p : parsed) : Prop :=
  first_unsafe (normalize command) = None
  /\ parseCommand rt (normalize command) = Some p.

(** The [catch] clause of [execute] seen from outside: a message is
    prefixed, everything else is kept. *)
Definition wrapped {A S : Type} (r : outcome A * S) : outcome A * S :=
  match r with
  | (Ok a, s) => (Ok a, s)
  | (Throw e, s) => (Throw ("Command execution failed: " ++ e), s)
  end.

(** The number of calls recorded in a trace. *)
Definition calls (trace : list event) : nat :=
  List.length (filter is_call trace).

(** A value that is there and falsy: [0], the empty string, [false],
    [null]. *)
Definition present_but_falsy (h : hval) : Prop :=
  In h [ HLit (VNum (Fin 0)); HLit (VStr EmptyString);
         HLit (VBool false); HLit VNull ].

(** [displayResult] of the console: the text that it logs for [null], for
    [undefined], and through [String(result)] for a boolean or a string.
    [None] stands for the results whose text comes from the number and
    JSON formatting of the runtime, which is not modelled. *)
Definition displayResult (result : value) : option string :=
  match result with
  | VNull => Some "null"
  | VUndefined => Some "undefined"
  | VBool true => Some "true"
  | VBool false => Some "false"
  | VStr s => Some s
  | _ => None
  end.

(** The text of a string literal: [body] between two quotes [q]. *)
Definition quoted (q : ascii) (body : string) : string :=
  String q (body ++ str1 q).

(** What the lexer pushes for the raw argument [t]:
    [this.parseValue(current.trim())]. *)
Definition coerce_raw (rt : Runtime) (t : string) : value :=
  parseValue rt (trim t).

(** The length of the value text that a scan has in hand. *)
Definition in_hand (st : pair_scan) : nat :=
  match st with
  | Val _ v => String.length v
  | _ => 0%nat
  end.

(** A character of a string body that needs no care: neither the quote
    nor a backslash. *)
Definition ordinary (q c : ascii) : bool :=
  negb (c =? q)%char && negb (c =? backslash)%char.

(** The three shapes of the classifier as regular expressions, to compare
    the recognizers [methodMatch], [propMatch] and [constructor_match]
    with. *)
Definition dot_char : regex := Cls (fun c => negb (is_line_terminator c)).

Definition path_re : regex :=
  seqs [plus word; opt (Seq (chr ".") (plus word));
        opt (Seq (chr ".") (plus word))].

Definition call_re : regex := seqs [chr "("; Star dot_char; chr ")"].

Definition method_re : regex := Seq path_re call_re.
Definition property_re : regex := path_re.
Definition constructor_re : regex :=
  seqs [lit "new"; plus space; plus word; call_re].

Definition is_some {A} (o : option A) : bool :=
  match o with Some _ => true | None => false end.

Definition newline : string := str1 "010"%char.

Definition shape_samples : list string :=
  [ "calendar.getEvents()"; "a.b.c()"; "a..b()"; "a.b.c.d()"; "f(a)(b)";
    "f(" ++ newline ++ ")"; "new X()"; "new  X(1)"; "newX()"; "new" ++ newline ++ "X()";
    "a.b"; "a."; ".a"; ""; "a b"; "f()x"; "f("; "new X() "; "a.b.c"; "1.2.3";
    "_()"; "a.b(c"; "a(b))"; "new X"; "new .X()"; "new X.y()"; "a.b.c.d";
    "f(,)"; "a.b()()"; "new new()"; "new"; "x.new()" ]%string.

(** [s] is empty or begins with a character that fails [p]. *)
Definition stops (p : ascii -> bool) (s : string) : Prop :=
  match s with
  | EmptyString => True
  | String c _ => p c = false
  end.

(** One optional dotted segment of a path. *)
Definition segment : regex := opt (Seq (chr ".") (plus word)).

(** A text that begins neither with a word character nor with a dot. *)
Definition ends_path (s : string) : Prop :=
  match s with
  | EmptyString => True
  | String c _ => is_word c = false /\ c <> "."%char
  end.

(** The language of a regular expression: the texts that it matches as a
    whole. *)
Inductive lang : regex -> string -> Prop :=
| lang_eps : lang Eps EmptyString
| lang_cls p c : p c = true -> lang (Cls p) (str1 c)
| lang_seq r1 r2 s1 s2 :
    lang r1 s1 -> lang r2 s2 -> lang (Seq r1 r2) (s1 ++ s2)
| lang_alt_l r1 r2 s : lang r1 s -> lang (Alt r1 r2) s
| lang_alt_r r1 r2 s : lang r2 s -> lang (Alt r1 r2) s
| lang_star_nil r : lang (Star r) EmptyString
| lang_star_more r s1 s2 :
    lang r s1 -> lang (Star r) s2 -> lang (Star r) (s1 ++ s2).

(* ------------------------------------------------------------------ *)
(** * What a run records *)



(** The trace that a result carries. *)
Definition trace_of {A W : Type} (r : outcome A * (W * list event)) : list event :=
  snd (snd r).

(* ------------------------------------------------------------------ *)
(** * The context of the demo application

    The context that [LightningCalendarDemo.initializeConsole] hands to
    the console: [calendar], [Event], [EventStore], [app], [help], [clear]
    and [exportHistory]. Of the objects behind these names only a few
    members are listed. The world counts the calls and constructions made
    so far. *)

Module App.

Definition root : hval := HObj 0.
Definition calendar : hval := HObj 1.
Definition app : hval := HObj 2.
Definition stateManager : hval := HObj 3.
Definition eventStore : hval := HObj 4.
Definition help : hval := HFun 20.
Definition clear : hval := HFun 21.
Definition exportHistory : hval := HFun 22.
Definition EventClass : hval := HFun 23.
Definition EventStoreClass : hval := HFun 24.
Definition loadSampleEvents : hval := HFun 25.
Definition clearState : hval := HFun 26.
Definition getStats : hval := HFun 27.
Definition query : hval := HFun 28.
Definition getEvents : hval := HFun 29.

Definition table : list (nat * list (string * hval)) :=
  [ (0%nat, [ ("calendar", calendar); ("Event", EventClass);
              ("EventStore", EventStoreClass); ("app", app); ("help", help);
              ("clear", clear); ("exportHistory", exportHistory) ]);
    (1%nat, [ ("getEvents", getEvents); ("eventStore", eventStore) ]);
    (2%nat, [ ("calendar", calendar); ("stateManager", stateManager);
              ("loadSampleEvents", loadSampleEvents) ]);
    (3%nat, [ ("key", HLit (VStr "lightning-calendar-demo"));
              ("clear", clearState) ]);
    (4%nat, [ ("getStats", getStats); ("query", query) ]) ].

(** [target[key]]: an own member of the table, else one inherited from
    [Object.prototype], else [undefined]. *)
Definition read (target : hval) (key : string) : hval :=
  match target with
  | HObj o =>
      match Demo.lookup key (Demo.members o table) with
      | Some h => h
      | None => Demo.prototype_member false key
      end
  | HFun _ => Demo.prototype_member true key
  | HLit _ => HLit VUndefined
  end.

Definition get (target : hval) (key : string) (w : nat) : outcome hval * nat :=
  (Ok (read target key), w).

(** [help] answers with the text of [showHelp]; every other function
    answers [undefined]. *)
Definition call (method receiver : hval) (args : list value) (w : nat)
  : outcome hval * nat :=
  match method with
  | HFun 20 => (Ok (HLit (VStr "Help displayed above")), S w)
  | _ => (Ok (HLit VUndefined), S w)
  end.

(** [new Constructor(...args)] on a function: the classes [Event] and
    [EventStore] build an instance; any other function of this host is no
    constructor. *)
Definition new (class : hval) (args : list value) (w : nat)
  : outcome hval * nat :=
  match class with
  | HFun 23 | HFun 24 => (Ok (HObj 100), S w)
  | _ => (Throw "Constructor is not a constructor", w)
  end.

Definition host : Host :=
  {| World := nat; context := root;
     host_get := get; host_call := call; host_new := new |}.

End App.

(* ------------------------------------------------------------------ *)
(** * Further notions used in the statements *)

(** Whether the allow-list check of [executeMethod] lets [name] through:
    no list applies, or the list that applies holds the name. *)
Definition permits (entry : allow_entry) (name : string) : bool :=
  match entry with
  | Scope names => mem name names
  | Missing => true
  | Inherited => false
  end.

(** A word of the classifier: one or more word characters. *)
Definition is_name (s : string) : bool :=
  negb (is_empty s) && forallb_str is_word s.

(** Two texts that differ at most in the case of their letters. *)
Fixpoint same_ci (s t : string) : bool :=
  match s, t with
  | EmptyString, EmptyString => true
  | String a s', String b t' => eq_ci a b && same_ci s' t'
  | _, _ => false
  end.

(** A character class that does not look at the case of a letter. *)
Definition case_blind (p : ascii -> bool) : Prop :=
  forall a, p (to_lower a) = p a.

(** A regular expression all of whose character classes are case-blind. *)
Fixpoint folds (r : regex) : Prop :=
  match r with
  | Cls p => case_blind p
  | Seq r1 r2 | Alt r1 r2 => folds r1 /\ folds r2
  | Star r1 => folds r1
  | Void | Eps => True
  end.

(* ------------------------------------------------------------------ *)
(** * The console: command history

    The part of [ConsoleInterface] that keeps the history of the commands
    and walks through it with the arrow keys. The state is the array
    [commandHistory], the cursor [historyIndex] and the text last assigned
    to [input.value]. *)

Module Console.

Record console : Type := {
  commandHistory : list string;
  historyIndex : Z;
  (* [None]: [undefined] was assigned, what an array yields outside its
     bounds *)
  input : option string
}.

Definition maxHistorySize : nat := 100.

(** [new ConsoleInterface], before any state is loaded. *)
Definition initial (typed : string) : console :=
  {| commandHistory := []; historyIndex := (-1)%Z; input := Some typed |}.

(** [array[i]] *)
Definition element (array : list string) (i : Z) : option string :=
  if (i <? 0)%Z then None else nth_error array (Z.to_nat i).

Definition length_of (c : console) : Z :=
  Z.of_nat (List.length (commandHistory c)).

Definition navigateHistory (direction : Z) (c : console) : console :=
  if (length_of c =? 0)%Z then c
  else if (direction =? -1)%Z && (0 <? historyIndex c)%Z then
    let i := (historyIndex c - 1)%Z in
    {| commandHistory := commandHistory c; historyIndex := i;
       input := element (commandHistory c) i |}
  else if (direction =? 1)%Z && (historyIndex c <? length_of c - 1)%Z then
    let i := (historyIndex c + 1)%Z in
    {| commandHistory := commandHistory c; historyIndex := i;
       input := element (commandHistory c) i |}
  else if (direction =? 1)%Z && (historyIndex c =? length_of c - 1)%Z then
    {| commandHistory := commandHistory c; historyIndex := length_of c;
       input := Some EmptyString |}
  else c.

(** [array[array.length - 1] === command] *)
Definition is_last (command : string) (array : list string) : bool :=
  match element array (Z.of_nat (List.length array) - 1) with
  | Some s => (s =? command)%string
  | None => false
  end.

Definition addToHistory (command : string) (c : console) : console :=
  (* Don't add duplicates *)
  if is_last command (commandHistory c) then c
  else
    let pushed := commandHistory c ++ [command] in
    (* Limit history size *)
    let kept :=
      if (maxHistorySize <? List.length pushed)%nat then tl pushed else pushed in
    {| commandHistory := kept; historyIndex := Z.of_nat (List.length kept);
       input := input c |}.

(** The cursor lies on an entry of the history or just after the last. *)
Definition in_range (c : console) : Prop :=
  (0 <= historyIndex c <= length_of c)%Z.

(** The console right after a command was added: the cursor stands just
    after the last entry. *)
Definition fresh (history : list string) (typed : option string) : console :=
  {| commandHistory := history;
     historyIndex := Z.of_nat (List.length history);
     input := typed |}.

Definition up : console -> console := navigateHistory (-1).
Definition down : console -> console := navigateHistory 1.

End Console.

(* ------------------------------------------------------------------ *)
(** * The console: how an error is shown

    [ErrorHandler.getUserMessage] and [ConsoleInterface.handleError]. An
    error is seen through the name of its constructor and its message. *)

Module Report.

Definition errorMessages : list (string * string) :=
  [ ("SyntaxError", "Invalid command syntax. Check parentheses and quotes.");
    ("ReferenceError", "Referenced object or method not found.");
    ("TypeError", "Type error. Check that you're using the correct data types.");
    ("RangeError", "Value out of range.");
    ("SecurityError", "This operation is not allowed for security reasons.");
    ("TimeoutError", "Operation timed out. Try a simpler command.");
    ("NetworkError", "Network request failed. Check your connection.");
    ("ValidationError", "Invalid input. Check the required parameters.") ].

(** [getUserMessage]. The table of messages is a plain object: under the
    name of a member that it inherits, the read yields a function of the
    runtime, whose text is not modelled ([None]). *)
Definition getUserMessage (errorType message : string) : option string :=
  match Demo.lookup errorType errorMessages with
  | Some friendly => Some (friendly ++ " (" ++ message ++ ")")%string
  | None =>
      if mem errorType object_prototype_keys then None
      else if includes "not found" message
      then Some ("Command or object not found: " ++ message)%string
      else if includes "not allowed" message
      then Some ("Security: " ++ message)%string
      else if includes "timeout" message
      then Some "Operation timed out. Try a simpler command."
      else if includes "parse" message
      then Some "Could not parse command. Check your syntax."
      else Some (if is_empty message then "An unexpected error occurred"
                 else message)
  end.

(** The entries that [handleError] logs: the message for the user, and a
    hint after some messages. An entry is a text and its class. *)
Definition handleError (errorType message : string)
  : option (list (string * string)) :=
  match getUserMessage errorType message with
  | None => None
  | Some userMessage =>
      Some ((userMessage, "error")
            :: (if includes "not found" message
                then [(("Hint: Use " ++ str1 dquote ++ "help()" ++ str1 dquote
                        ++ " to see available commands")%string, "info")]
                else if includes "not a function" message
                then [("Hint: Make sure to include parentheses for function calls",
                       "info")]
                else []))
  end.

(** What [execute] of the console logs, after the echo of the command,
    for the outcome of [SafeCommandParser.execute]: nothing for
    [undefined], the text of [displayResult] for another result, and the
    entries of [handleError] for an error. The parser throws instances of
    [Error]. [None] stands for a text that is not modelled. *)
Definition shown (r : outcome hval) : option (list (string * string)) :=
  match r with
  | Ok (HLit VUndefined) => Some []
  | Ok (HLit v) =>
      option_map (fun text => [(text, "result"%string)]) (displayResult v)
  | Ok _ => None
  | Throw message => handleError "Error" message
  end.

End Report.

(* ------------------------------------------------------------------ *)
(** * What the sanitizer is for *)

Definition is_angle (c : ascii) : bool := (c =? "<")%char || (c =? ">")%char.

(** A value in which no string holds an angle bracket and no mapping, at
    any depth, has a key that [sanitizeObject] skips. *)
Fixpoint clean (v : value) : bool :=
  match v with
  | VStr s => forallb_str (fun c => negb (is_angle c)) s
  | VObj fs =>
      (fix all (es : Obj.fields) : bool :=
         match es with
         | [] => true
         | (key, x) :: r => negb (dangerous_key key) && clean x && all r
         end) fs
  | VArr items =>
      (fix all (es : list value) : bool :=
         match es with
         | [] => true
         | x :: r => clean x && all r
         end) items
  | VNull | VUndefined | VBool _ | VNum _ | VDate _ => true
  end.

(** The same on one entry of a mapping. *)
Definition clean_entry (kv : string * value) : bool :=
  negb (dangerous_key (fst kv)) && clean (snd kv).

(** What the induction needs of a nested value: a string is filtered by
    the caller, anything else goes through [sanitizeObject]. *)
Definition sanitized_clean (v : value) : Prop :=
  match v with
  | VStr _ => True
  | _ => clean (sanitizeObject v) = true
  end.

(* ------------------------------------------------------------------ *)
(** * Tactics for runs on an arbitrary host *)

(** One step of a run whose outcome is not known: a case analysis on what
    the host answers, or on a test. *)
Ltac step_host H :=
  match goal with
  | |- context [host_get H ?t ?k ?w] =>
      let r := fresh "r" in let w' := fresh "w" in
      destruct (host_get H t k w) as [r w']; destruct r
  | |- context [host_call H ?m ?t ?a ?w] =>
      let r := fresh "r" in let w' := fresh "w" in
      destruct (host_call H m t a w) as [r w']; destruct r
  | |- context [host_new H ?c ?a ?w] =>
      let r := fresh "r" in let w' := fresh "w" in
      destruct (host_new H c a w) as [r w']; destruct r
  | |- context [if ?b then _ else _] => destruct b
  | |- context [match allow_or ?a ?b with _ => _ end] => destruct (allow_or a b)
  end.

Ltac run_host H :=
  unfold bind, ret, throw, get, apply, construct, touch; cbn [fst snd];
  repeat (step_host H; cbn [fst snd app]).

(** A run whose steps are known from the hypotheses: each answer of the
    host and each test is rewritten with the hypothesis that gives it. *)
Ltac drive H :=
  unfold bind, ret, throw, get, apply, construct, touch; cbn [fst snd];
  repeat first
    [ progress cbn [fst snd app negb is_function key_of truthy allow_or]
    | match goal with
      | E : host_get H _ _ _ = _ |- _ => rewrite E
      | E : host_call H _ _ _ _ = _ |- _ => rewrite E
      | E : host_new H _ _ _ = _ |- _ => rewrite E
      | E : truthy _ = _ |- _ => rewrite E
      | E : is_function _ = _ |- _ => rewrite E
      | E : present _ = _ |- _ => rewrite E
      | E : allow_or _ _ = _ |- _ => rewrite E
      | E : allowedMethods _ = _ |- _ => rewrite E
      | E : mem _ _ = _ |- _ => rewrite E
      end ].

(* ------------------------------------------------------------------ *)
(** * The console: completion with the Tab key *)

Module Autocomplete.

Definition buildAutocompleteOptions : list string :=
  [ "calendar"; "calendar.getEvents"; "calendar.addEvent";
    "calendar.updateEvent"; "calendar.removeEvent"; "calendar.setView";
    "calendar.getView"; "calendar.next"; "calendar.previous";
    "calendar.today"; "calendar.getTimezone"; "calendar.setTimezone";
    "calendar.eventStore"; "calendar.eventStore.getStats";
    "calendar.eventStore.clear"; "calendar.state"; "calendar.state.undo";
    "calendar.state.redo"; "Event"; "EventStore"; "new Date"; "Date.now";
    "true"; "false"; "null"; "undefined" ]%string.

(** A character of the class by which the text before the cursor is
    split: a blank, a dot or an opening parenthesis. *)
Definition is_separator (c : ascii) : bool :=
  is_space c || (c =? ".")%char || (c =? "(")%char.

(** The last piece of the split: the text after the last separator, with
    [word] the piece read so far. *)
Fixpoint last_piece (word : string) (s : string) : string :=
  match s with
  | EmptyString => word
  | String c r =>
      if is_separator c then last_piece EmptyString r
      else last_piece (word ++ str1 c) r
  end.

(** [s.substring(0, n)] *)
Fixpoint take (n : nat) (s : string) : string :=
  match n, s with
  | S k, String c r => String c (take k r)
  | _, _ => EmptyString
  end.

(** What one press of the Tab key does: nothing, a new text and cursor
    for the input, or an entry logged with the suggestions. *)
Inductive effect : Type :=
| Nothing
| Completed (value : string) (cursor : nat)
| Suggested (message type : string).

Definition handleAutocomplete (input : string) (cursorPos : nat) : effect :=
  (* Get the word being typed *)
  let beforeCursor := take cursorPos input in
  let currentWord := last_piece EmptyString beforeCursor in
  if is_empty currentWord then Nothing
  else
    (* Find matching options *)
    let found :=
      filter (fun opt => startsWith currentWord opt) buildAutocompleteOptions in
    match found with
    | [] => Nothing
    | [completion] =>
        let before := take (cursorPos - String.length currentWord) input in
        let after := drop cursorPos input in
        Completed (before ++ completion ++ after)
          (cursorPos - String.length currentWord + String.length completion)
    | _ => Suggested ("Suggestions: " ++ String.concat ", " found) "info"
    end.

(** A word that holds no separator. *)
Definition no_separator (w : string) : bool :=
  forallb_str (fun c => negb (is_separator c)) w.

(** The options that a press of the Tab key can put into the input. *)
Definition completable : list string :=
  [ "EventStore"; "new Date"; "Date.now"; "true"; "false"; "null";
    "undefined" ]%string.

End Autocomplete.

(* ------------------------------------------------------------------ *)
(** * What the sanitizer returns *)

Definition keys (fs : Obj.fields) : list string := map fst fs.

Definition index_at_least (n : N) (k : string) : bool :=
  match Obj.array_index k with
  | Some m => (n <=? m)%N
  | None => true
  end.

Definition index_at_most (n : N) (k : string) : bool :=
  match Obj.array_index k with
  | Some m => (m <=? n)%N
  | None => false
  end.

Definition not_index (k : string) : bool :=
  match Obj.array_index k with
  | Some _ => false
  | None => true
  end.

(** Keys in the property order: the array indices first, by increasing
    value, then the other keys. *)
Fixpoint ordered (ks : list string) : bool :=
  match ks with
  | [] => true
  | k :: r =>
      match Obj.array_index k with
      | Some n => forallb (index_at_least n) r
      | None => forallb not_index r
      end && ordered r
  end.

Fixpoint distinct (ks : list string) : bool :=
  match ks with
  | [] => true
  | k :: r => negb (mem k r) && distinct r
  end.

(** The keys of an object that the sanitizer has built. *)
Definition canonical (ks : list string) : bool :=
  distinct ks && ordered ks && forallb (fun k => negb (dangerous_key k)) ks.

(** A value as the sanitizer leaves it: mappings only, with keys as
    above, and strings without angle brackets, at every depth. *)
Fixpoint settled (v : value) : bool :=
  match v with
  | VStr s => forallb_str (fun c => negb (is_angle c)) s
  | VObj fs =>
      canonical (map fst fs)
      && (fix all (es : Obj.fields) : bool :=
            match es with
            | [] => true
            | (_, x) :: r => settled x && all r
            end) fs
  | VArr _ | VDate _ => false
  | VNull | VUndefined | VBool _ | VNum _ => true
  end.

(** What one turn of the loop of [sanitizeObject] stores for the value
    [v]. *)
Definition stored (v : value) : value :=
  match v with
  | VStr s => VStr (sanitize_string s)
  | VNull | VDate _ | VObj _ | VArr _ => sanitizeObject v
  | VUndefined | VBool _ | VNum _ => v
  end.

(** What the induction needs of a nested value. *)
Definition sanitized_settled (v : value) : Prop :=
  settled (stored v) = true.

Definition fixed_when_settled (v : value) : Prop :=
  settled v = true -> stored v = v.

(* ------------------------------------------------------------------ *)
(** * The interactive demo: conflicts between events

    The loops of [InteractiveDemo.detectConflicts] that fill
    [this.conflicts]; what the method then does to the page is not
    modelled. An event is seen through its title and its two instants,
    in milliseconds. *)

Module Conflicts.

Record calendar_event : Type := {
  title : string;
  startUTC : Z;
  endUTC : Z
}.

Record conflict : Type := {
  event1 : calendar_event;
  event2 : calendar_event;
  type : string;
  severity : string
}.

Definition time_conflict (e1 e2 : calendar_event) : conflict :=
  {| event1 := e1; event2 := e2; type := "time"; severity := "warning" |}.

(** [e1.startUTC < e2.endUTC && e2.startUTC < e1.endUTC] *)
Definition overlap (e1 e2 : calendar_event) : bool :=
  (startUTC e1 <? endUTC e2)%Z && (startUTC e2 <? endUTC e1)%Z.

(** The inner loop: [e1] against the events after it. *)
Fixpoint against (e1 : calendar_event) (later : list calendar_event)
    (conflicts : list conflict) : list conflict :=
  match later with
  | [] => conflicts
  | e2 :: rest =>
      against e1 rest
        (if overlap e1 e2 then conflicts ++ [time_conflict e1 e2] else conflicts)
  end.

(** The outer loop. *)
Fixpoint scan (events : list calendar_event) (conflicts : list conflict)
  : list conflict :=
  match events with
  | [] => conflicts
  | e1 :: later => scan later (against e1 later conflicts)
  end.

Definition detectConflicts (events : list calendar_event) : list conflict :=
  scan events [].

(** An event that ends after it starts. *)
Definition lasting (e : calendar_event) : Prop := (startUTC e < endUTC e)%Z.

(** The instant [t] lies in the event, its end excluded. *)
Definition during (t : Z) (e : calendar_event) : Prop :=
  (startUTC e <= t < endUTC e)%Z.

(** [e1] comes before [e2] in the list. *)
Definition in_order (events : list calendar_event) (e1 e2 : calendar_event)
  : Prop :=
  exists before between after,
    events = before ++ e1 :: between ++ e2 :: after.

(** The conflicts of the pairs of a list, pair by pair. *)
Fixpoint pairwise (events : list calendar_event) : list conflict :=
  match events with
  | [] => []
  | e1 :: later =>
      map (time_conflict e1) (filter (overlap e1) later) ++ pairwise later
  end.

End Conflicts.

(* ================================================================== *)
(** * Properties of the embedding *)

(** ** The pipeline *)

Section Pipeline.

Context (rt : Runtime) (H : Host).

Lemma bind_ok {A B} (m : M H A) (k : A -> M H B) s a s' :
  m s = (Ok a, s') -> bind H m k s = k a s'.
Proof. intros E. unfold bind. rewrite E. reflexivity. Qed.

Lemma bind_throw {A B} (m : M H A) (k : A -> M H B) s e s' :
  m s = (Throw e, s') -> bind H m k s = (Throw e, s').
Proof. intros E. unfold bind. rewrite E. reflexivity. Qed.

Lemma get_at target key w trace r w' :
  host_get H target key w = (r, w') ->
  get H target key (w, trace) = (r, (w', trace ++ [EGet target key])).
Proof. intros E. unfold get, touch. simpl. rewrite E. reflexivity. Qed.

Lemma apply_at method receiver args w trace r w' :
  host_call H method receiver args w = (r, w') ->
  apply H method receiver args (w, trace)
  = (r, (w', trace ++ [ECall method receiver args])).
Proof. intros E. unfold apply, touch. simpl. rewrite E. reflexivity. Qed.

Lemma execute_unsafe command p s :
  first_unsafe (normalize command) = Some p ->
  execute rt H command s
  = (Throw ("Command execution failed: Unsafe pattern detected: "
            ++ show_pattern p), s).
Proof.
  intros E. unfold execute, try_catch, bind, validateSafety.
  rewrite E. reflexivity.
Qed.

Lemma execute_classified command p s :
  classifies rt command p ->
  execute rt H command s = wrapped (dispatch H p s).
Proof.
  intros [Hsafe Hparse].
  unfold execute, try_catch, bind, validateSafety, wrapped.
  rewrite Hsafe. cbn. rewrite Hparse.
  destruct (dispatch H p s) as [[a | e] s']; reflexivity.
Qed.

Lemma execute_unparsed command s :
  first_unsafe (normalize command) = None ->
  parseCommand rt (normalize command) = None ->
  execute rt H command s
  = (Throw "Command execution failed: Invalid command format", s).
Proof.
  intros Hsafe Hparse.
  unfold execute, try_catch, bind, validateSafety.
  rewrite Hsafe. cbn. rewrite Hparse. reflexivity.
Qed.

End Pipeline.

(** ** The denylist *)

Lemma find_some_first {A} (f : A -> bool) (l : list A) (x : A) :
  find f l = Some x ->
  exists before after,
    l = before ++ x :: after
    /\ f x = true
    /\ forall y, In y before -> f y = false.
Proof.
  induction l as [| a l IH]; simpl; intros E.
  - discriminate.
  - destruct (f a) eqn:Fa.
    + inversion E; subst. exists [], l. repeat split; auto.
      intros y [].
    + destruct (IH E) as (before & after & -> & Fx & Hb).
      exists (a :: before), after. repeat split; auto.
      intros y [<- | Hy]; auto.
Qed.

Lemma find_exists {A} (f : A -> bool) (l : list A) (x : A) :
  In x l -> f x = true -> exists y, find f l = Some y.
Proof.
  induction l as [| a l IH]; simpl; intros Hin Fx.
  - contradiction.
  - destruct (f a) eqn:Fa.
    + eauto.
    + destruct Hin as [-> | Hin]; [congruence | auto].
Qed.

(** C3. Whenever the normalized text of a command matches some pattern of
    the denylist, [execute] throws the security error that names the first
    pattern of the list that matches (every pattern before it does not),
    the host is left as it was and nothing is recorded: no property of the
    context is read, no method is called, nothing is constructed. *)
Theorem denylisted_command_is_refused_before_dispatch
    (rt : Runtime) (H : Host) (command : string) (p : pattern) (w : World H) :
  In p dangerous ->
  pattern_test p (normalize command) = true ->
  exists first before after,
    dangerous = before ++ first :: after
    /\ pattern_test first (normalize command) = true
    /\ (forall q, In q before -> pattern_test q (normalize command) = false)
    /\ run rt H command w
       = (Throw ("Command execution failed: Unsafe pattern detected: "
                 ++ show_pattern first), (w, [])).
Proof.
  intros Hin Hp.
  destruct (find_exists (fun q => pattern_test q (normalize command))
              dangerous p Hin Hp) as [first Hfirst].
  destruct (find_some_first _ _ _ Hfirst) as (before & after & Hd & Ht & Hb).
  exists first, before, after. repeat split; auto.
  unfold run. apply execute_unsafe. exact Hfirst.
Qed.

Lemma denylisted_command_is_refused_before_dispatch_witness :
  exists first before after,
    dangerous = before ++ first :: after
    /\ pattern_test first (normalize "  eval (document.cookie); ") = true
    /\ (forall q, In q before ->
        pattern_test q (normalize "  eval (document.cookie); ") = false)
    /\ run Demo.rt Demo.host "  eval (document.cookie); " 0%nat
       = (Throw ("Command execution failed: Unsafe pattern detected: "
                 ++ show_pattern first), (0%nat, [])).
Proof.
  apply (denylisted_command_is_refused_before_dispatch Demo.rt Demo.host
           "  eval (document.cookie); "
           (Pattern "document\." "i" (lit_ci "document.")) 0%nat).
  - unfold dangerous. simpl. tauto.
  - vm_compute. reflexivity.
Defined.

(** ** The allow-lists *)

Lemma assoc_in key table names :
  assoc key table = Some names -> In names (map snd table).
Proof.
  induction table as [| [k l] t IH]; simpl; intros E.
  - discriminate E.
  - destruct (k =? key)%string.
    + inversion E; subst. left; reflexivity.
    + right. apply IH. exact E.
Qed.

Lemma allowed_lists_lack_call key names :
  allowedMethods key = Scope names -> mem "call" names = false.
Proof.
  unfold allowedMethods.
  destruct (assoc key buildAllowedMethods) as [l |] eqn:E.
  - intros E'; inversion E'; subst.
    assert (Hall : forallb (fun l => negb (mem "call" l))
                     (map snd buildAllowedMethods) = true) by reflexivity.
    rewrite forallb_forall in Hall.
    specialize (Hall names (assoc_in _ _ _ E)).
    destruct (mem "call" names); [discriminate Hall | reflexivity].
  - destruct (mem key object_prototype_keys); intros E'; discriminate E'.
Qed.

Lemma allow_or_scope a b names :
  allow_or a b = Scope names -> a = Scope names \/ b = Scope names.
Proof. destruct a; simpl; intros E; auto. Qed.

Lemma applicable_list_lacks_call property object names :
  allow_or (allowedMethods property) (allowedMethods object) = Scope names ->
  mem "call" names = false.
Proof.
  intros E. destruct (allow_or_scope _ _ _ E) as [E' | E'];
    eapply allowed_lists_lack_call; eauto.
Qed.

(** ** What the classifier captures *)

Lemma dotted_some s w r :
  dotted s = (Some w, r) -> is_empty w = false.
Proof.
  unfold dotted. destruct s as [| c s']; [discriminate |].
  destruct (Ascii.eqb_spec c "."%char) as [-> | Hc].
  - destruct (span is_word s') as [w' r'].
    destruct (is_empty w') eqn:Ew; intros E; inversion E; subst; auto.
  - intro E.
    destruct c as [[] [] [] [] [] [] [] []]; try discriminate E.
    contradiction Hc; reflexivity.
Qed.

Lemma path_captures s obj prop1 prop2 rest :
  path s = Some (obj, prop1, prop2, rest) ->
  is_empty obj = false
  /\ (forall p, prop1 = Some p -> is_empty p = false)
  /\ (forall p, prop2 = Some p -> is_empty p = false).
Proof.
  unfold path. destruct (span is_word s) as [o r0].
  destruct (is_empty o) eqn:Eo; [discriminate |].
  destruct (dotted r0) as [p1 r1] eqn:E1.
  destruct (dotted r1) as [p2 r2] eqn:E2.
  intros E; inversion E; subst. repeat split; auto.
  - intros p ->. eapply dotted_some; eauto.
  - intros p ->. eapply dotted_some; eauto.
Qed.

Lemma parsed_method_captures rt command object property subProperty args :
  parseCommand rt command = Some (Method object property subProperty args) ->
  (forall p, property = Some p -> present property = true)
  /\ (forall p, subProperty = Some p -> present subProperty = true).
Proof.
  unfold parseCommand, methodMatch, propMatch.
  destruct (path command) as [[[[o p1] p2] rest] |] eqn:Ep.
  - destruct (path_captures _ _ _ _ _ Ep) as (_ & H1 & H2).
    destruct (call_args rest) as [a |].
    + intros E; inversion E; subst. split; intros p ->; simpl.
      * rewrite (H1 p eq_refl). reflexivity.
      * rewrite (H2 p eq_refl). reflexivity.
    + destruct (is_empty rest); [intros E; discriminate E |].
      destruct (constructor_match command) as [[c a] |];
        intros E; discriminate E.
  - destruct (constructor_match command) as [[c a] |];
      intros E; discriminate E.
Qed.

(** ** Method calls *)

Section MethodCalls.

Context (rt : Runtime) (H : Host).

(** A call with two segments is refused as soon as a list applies to it,
    whatever the list holds: the name looked up in the list is [call]. *)
Lemma two_segment_call_is_refused
    command object prop args names w target w1 f w2 :
  classifies rt command (Method object (Some prop) None args) ->
  host_get H (context H) object w = (Ok target, w1) ->
  truthy target = true ->
  host_get H target prop w1 = (Ok (HFun f), w2) ->
  allow_or (allowedMethods prop) (allowedMethods object) = Scope names ->
  run rt H command w
  = (Throw ("Command execution failed: Method '" ++ prop ++ "' is not allowed"),
     (w2, [EGet (context H) object; EGet target prop])).
Proof.
  intros Hc Hroot Ht Hprop Hlist.
  pose proof (proj1 (parsed_method_captures _ _ _ _ _ _ (proj2 Hc)) prop eq_refl)
    as Hp.
  unfold run. rewrite (execute_classified rt H _ _ _ Hc).
  unfold dispatch, executeMethod.
  rewrite (bind_ok H _ _ _ _ _ (get_at H _ _ _ _ _ _ Hroot)).
  rewrite Ht. cbn [negb]. rewrite Hp.
  rewrite (bind_ok H (bind H _ _) _ _ (HFun f)
             (w2, [EGet (context H) object; EGet target prop])).
  2:{ rewrite (bind_ok H _ _ _ _ _ (get_at H _ _ _ _ _ _ Hprop)).
      reflexivity. }
  cbn [present]. rewrite (bind_ok H (ret H _) _ _ (HFun f)
             (w2, [EGet (context H) object; EGet target prop])) by reflexivity.
  cbn [is_function negb key_of]. rewrite Hlist.
  unfold or_else. cbn [present].
  rewrite (applicable_list_lacks_call _ _ _ Hlist). reflexivity.
Qed.

(** A call with two segments for which the table answers a member that it
    inherits fails inside the check: the member has no [includes]. *)
Lemma two_segment_call_fails_in_the_check
    command object prop args w target w1 f w2 :
  classifies rt command (Method object (Some prop) None args) ->
  host_get H (context H) object w = (Ok target, w1) ->
  truthy target = true ->
  host_get H target prop w1 = (Ok (HFun f), w2) ->
  allow_or (allowedMethods prop) (allowedMethods object) = Inherited ->
  run rt H command w
  = (Throw "Command execution failed: allowedList.includes is not a function",
     (w2, [EGet (context H) object; EGet target prop])).
Proof.
  intros Hc Hroot Ht Hprop Hlist.
  pose proof (proj1 (parsed_method_captures _ _ _ _ _ _ (proj2 Hc)) prop eq_refl)
    as Hp.
  unfold run. rewrite (execute_classified rt H _ _ _ Hc).
  unfold dispatch, executeMethod.
  rewrite (bind_ok H _ _ _ _ _ (get_at H _ _ _ _ _ _ Hroot)).
  rewrite Ht. cbn [negb]. rewrite Hp.
  rewrite (bind_ok H (bind H _ _) _ _ (HFun f)
             (w2, [EGet (context H) object; EGet target prop])).
  2:{ rewrite (bind_ok H _ _ _ _ _ (get_at H _ _ _ _ _ _ Hprop)).
      reflexivity. }
  cbn [present]. rewrite (bind_ok H (ret H _) _ _ (HFun f)
             (w2, [EGet (context H) object; EGet target prop])) by reflexivity.
  cbn [is_function negb key_of]. rewrite Hlist. reflexivity.
Qed.

(** A call with three segments whose last name is in the applicable list
    is made once, on the receiver read again from the context, and its
    result is returned. *)
Lemma three_segment_call_is_made
    command object prop sub args names
    w root w1 target w2 f w3 root' w4 receiver w5 result w6 :
  classifies rt command (Method object (Some prop) (Some sub) args) ->
  host_get H (context H) object w = (Ok root, w1) ->
  truthy root = true ->
  host_get H root prop w1 = (Ok target, w2) ->
  truthy target = true ->
  host_get H target sub w2 = (Ok (HFun f), w3) ->
  allow_or (allowedMethods prop) (allowedMethods object) = Scope names ->
  mem sub names = true ->
  host_get H (context H) object w3 = (Ok root', w4) ->
  host_get H root' prop w4 = (Ok receiver, w5) ->
  host_call H (HFun f) receiver args w5 = (Ok result, w6) ->
  run rt H command w
  = (Ok result,
     (w6, [EGet (context H) object; EGet root prop; EGet target sub;
           EGet (context H) object; EGet root' prop;
           ECall (HFun f) receiver args])).
Proof.
  intros Hc Hroot Ht Hprop Ht' Hsub Hlist Hmem Hroot' Hrecv Hcall.
  destruct (parsed_method_captures _ _ _ _ _ _ (proj2 Hc)) as [Hp Hs].
  specialize (Hp prop eq_refl). specialize (Hs sub eq_refl).
  unfold run. rewrite (execute_classified rt H _ _ _ Hc).
  unfold dispatch, executeMethod.
  rewrite (bind_ok H _ _ _ _ _ (get_at H _ _ _ _ _ _ Hroot)).
  rewrite Ht. cbn [negb]. rewrite Hp.
  rewrite (bind_ok H (bind H _ _) _ _ target
             (w2, [EGet (context H) object; EGet root prop])).
  2:{ rewrite (bind_ok H _ _ _ _ _ (get_at H _ _ _ _ _ _ Hprop)).
      rewrite Ht'. reflexivity. }
  rewrite Hs. cbn [key_of].
  rewrite (bind_ok H _ _ _ _ _ (get_at H _ _ _ _ _ _ Hsub)).
  cbn [is_function negb]. rewrite Hlist.
  unfold or_else. rewrite Hs. cbn [key_of]. rewrite Hmem. cbn [negb].
  rewrite (bind_ok H (bind H _ _) _ _ receiver
             (w5, [EGet (context H) object; EGet root prop; EGet target sub;
                   EGet (context H) object; EGet root' prop])).
  2:{ rewrite (bind_ok H _ _ _ _ _ (get_at H _ _ _ _ _ _ Hroot')).
      cbn [key_of].
      rewrite (get_at H _ _ _ _ _ _ Hrecv). reflexivity. }
  rewrite (apply_at H _ _ _ _ _ _ _ Hcall). reflexivity.
Qed.

End MethodCalls.

(** C4. Take a command that passes the validator and reaches the
    dispatcher as the method call [object.prop(args)]. If [prop] read on
    the target is a function, and the read of the table under the property
    name, else under the root name, yields a list (one of the entries of
    the table itself, and not a member that the table inherits, as it does
    under [toString] or [constructor]), and that list is not empty and
    does not hold [prop], then [execute] throws the error that [prop] is
    not allowed; the trace holds the two reads and no call. *)
Theorem unlisted_method_is_forbidden
    (rt : Runtime) (H : Host) (command object prop : string)
    (args : list value) (names : list string)
    (w w1 w2 : World H) (target : hval) (f : nat) :
  classifies rt command (Method object (Some prop) None args) ->
  host_get H (context H) object w = (Ok target, w1) ->
  truthy target = true ->
  host_get H target prop w1 = (Ok (HFun f), w2) ->
  allow_or (allowedMethods prop) (allowedMethods object) = Scope names ->
  names <> [] ->
  mem prop names = false ->
  run rt H command w
  = (Throw ("Command execution failed: Method '" ++ prop ++ "' is not allowed"),
     (w2, [EGet (context H) object; EGet target prop]))
  /\ calls [EGet (context H) object; EGet target prop] = 0%nat.
Proof.
  intros Hc Hroot Ht Hprop Hlist _ _. split; [| reflexivity].
  eapply two_segment_call_is_refused; eauto.
Qed.

Lemma unlisted_method_is_forbidden_witness :
  classifies Demo.rt "calendar.purge()" (Method "calendar" (Some "purge") None [])
  /\ Demo.read Demo.calendar "purge" = Demo.purge
  /\ run Demo.rt Demo.host "calendar.purge()" 0%nat
     = (Throw "Command execution failed: Method 'purge' is not allowed",
        (0%nat, [EGet Demo.root "calendar"; EGet Demo.calendar "purge"])).
Proof.
  assert (Hc : classifies Demo.rt "calendar.purge()"
                 (Method "calendar" (Some "purge") None [])).
  { split; vm_compute; reflexivity. }
  split; [exact Hc | split; [reflexivity |]].
  refine (proj1 (unlisted_method_is_forbidden Demo.rt Demo.host
            "calendar.purge()" "calendar" "purge" [] _ 0%nat 0%nat 0%nat
            Demo.calendar 14 Hc _ _ _ _ _ _)).
  - reflexivity.
  - reflexivity.
  - reflexivity.
  - reflexivity.
  - discriminate.
  - reflexivity.
Defined.

(** C4, as stated, at [calendar.fetch()]: the text has the shape of a
    method call, [fetch] is a function of the calendar and is not in the
    list of [calendar], which is the applicable one and is not empty; but
    the text matches the denylist, so [execute] throws the security error
    and not the error that the method is not allowed. *)
Lemma denylisted_method_call_is_not_forbidden :
  methodMatch "calendar.fetch()" = Some ("calendar", Some "fetch", None, EmptyString)
  /\ Demo.read Demo.calendar "fetch" = Demo.fetch
  /\ (exists names,
        allow_or (allowedMethods "fetch") (allowedMethods "calendar") = Scope names
        /\ names <> [] /\ mem "fetch" names = false)
  /\ run Demo.rt Demo.host "calendar.fetch()" 0%nat
     = (Throw "Command execution failed: Unsafe pattern detected: /fetch\s*\(/i",
        (0%nat, []))
  /\ fst (run Demo.rt Demo.host "calendar.fetch()" 0%nat)
     <> Throw "Command execution failed: Method 'fetch' is not allowed".
Proof.
  split; [reflexivity | split; [reflexivity | split; [| split]]].
  - eexists. split; [reflexivity | split; [discriminate | reflexivity]].
  - vm_compute. reflexivity.
  - vm_compute. discriminate.
Qed.

(** C4, as stated, at [calendar.toString()]: the text passes the
    validator and has the shape of a method call, [toString] is a function
    of the calendar, as of every object, and the table has no entry of its
    own under [toString], so that the list of [calendar] is the applicable
    one; it is not empty and does not hold [toString]. But the read of the
    table under [toString] yields the member that the table inherits,
    which is truthy and has no [includes]: [execute] throws the wrapped
    TypeError and not the error that the method is not allowed. *)
Lemma inherited_method_call_is_not_forbidden :
  classifies Demo.rt "calendar.toString()"
    (Method "calendar" (Some "toString") None [])
  /\ is_function (Demo.read Demo.calendar "toString") = true
  /\ assoc "toString" buildAllowedMethods = None
  /\ (exists names,
        assoc "calendar" buildAllowedMethods = Some names
        /\ names <> [] /\ mem "toString" names = false)
  /\ allow_or (allowedMethods "toString") (allowedMethods "calendar") = Inherited
  /\ run Demo.rt Demo.host "calendar.toString()" 0%nat
     = (Throw "Command execution failed: allowedList.includes is not a function",
        (0%nat, [EGet Demo.root "calendar"; EGet Demo.calendar "toString"]))
  /\ fst (run Demo.rt Demo.host "calendar.toString()" 0%nat)
     <> Throw "Command execution failed: Method 'toString' is not allowed".
Proof.
  split; [split; vm_compute; reflexivity |].
  split; [reflexivity | split; [reflexivity | split; [| split; [| split]]]].
  - eexists. split; [reflexivity | split; [discriminate | reflexivity]].
  - reflexivity.
  - vm_compute. reflexivity.
  - vm_compute. discriminate.
Qed.

(** C1. The command [calendar.getEvents()] of the console's help text:
    [getEvents] is in the list of [calendar] and is a function of the
    calendar, the text passes the validator and is read as a method call,
    and still [execute] throws that the method is not allowed; the trace
    holds two reads and no call. *)
Theorem listed_method_call_is_refused :
  (exists names,
      allowedMethods "calendar" = Scope names /\ mem "getEvents" names = true)
  /\ classifies Demo.rt "calendar.getEvents()"
       (Method "calendar" (Some "getEvents") None [])
  /\ Demo.read Demo.calendar "getEvents" = Demo.getEvents
  /\ run Demo.rt Demo.host "calendar.getEvents()" 0%nat
     = (Throw "Command execution failed: Method 'getEvents' is not allowed",
        (0%nat, [EGet Demo.root "calendar"; EGet Demo.calendar "getEvents"])).
Proof.
  split; [| split; [| split]].
  - eexists. split; reflexivity.
  - split; vm_compute; reflexivity.
  - reflexivity.
  - vm_compute. reflexivity.
Qed.

(** The path with three segments does what the one with two misses. *)
Example three_segment_call_runs :
  run Demo.rt Demo.host "calendar.eventStore.getStats(1, 2);" 0%nat
  = (Ok (HLit (VNum (Fin 2))),
     (1%nat, [EGet Demo.root "calendar"; EGet Demo.calendar "eventStore";
              EGet Demo.eventStore "getStats";
              EGet Demo.root "calendar"; EGet Demo.calendar "eventStore";
              ECall Demo.getStats Demo.eventStore [VNum (Fin 1); VNum (Fin 2)]])).
Proof. vm_compute. reflexivity. Qed.

(** ** Constructor calls *)

(** C7. Take a command that reaches the dispatcher as the constructor call
    [new className(args)]. If [className] is not in the fixed list of
    constructible classes, [execute] throws that the constructor is not
    allowed, and the host is not touched at all: nothing is read and
    nothing is constructed. That list is not the table of the method
    allow-lists: [eventStore] and [state] are scopes of the table and are
    not constructible. *)
Theorem unlisted_constructor_is_forbidden
    (rt : Runtime) (H : Host) (command className : string)
    (args : list value) (w : World H) :
  classifies rt command (Constructor className args) ->
  mem className allowedObjects = false ->
  run rt H command w
  = (Throw ("Command execution failed: Constructor '" ++ className
            ++ "' is not allowed"), (w, []))
  /\ allowedObjects = ["calendar"; "Event"; "EventStore"]
  /\ map fst buildAllowedMethods
     = ["calendar"; "Event"; "EventStore"; "eventStore"; "state"].
Proof.
  intros Hc Hmem. split; [| split; reflexivity].
  unfold run. rewrite (execute_classified rt H _ _ _ Hc).
  unfold dispatch, executeConstructor. rewrite Hmem. reflexivity.
Qed.

Lemma unlisted_constructor_is_forbidden_witness :
  classifies Demo.rt "new Unapproved()" (Constructor "Unapproved" [])
  /\ run Demo.rt Demo.host "new Unapproved()" 0%nat
     = (Throw "Command execution failed: Constructor 'Unapproved' is not allowed",
        (0%nat, [])).
Proof.
  assert (Hc : classifies Demo.rt "new Unapproved()" (Constructor "Unapproved" [])).
  { split; vm_compute; reflexivity. }
  split; [exact Hc |].
  exact (proj1 (unlisted_constructor_is_forbidden Demo.rt Demo.host
                  "new Unapproved()" "Unapproved" [] 0%nat Hc eq_refl)).
Defined.

(** C7, as stated, at [new XMLHttpRequest()]: the text has the shape of a
    constructor call and the class is not constructible; but the text
    matches the denylist, so [execute] throws the security error and not
    the error that the constructor is not allowed. *)
Lemma denylisted_constructor_call_is_not_forbidden :
  constructor_match "new XMLHttpRequest()" = Some ("XMLHttpRequest", EmptyString)
  /\ mem "XMLHttpRequest" allowedObjects = false
  /\ run Demo.rt Demo.host "new XMLHttpRequest()" 0%nat
     = (Throw "Command execution failed: Unsafe pattern detected: /XMLHttpRequest/i",
        (0%nat, []))
  /\ fst (run Demo.rt Demo.host "new XMLHttpRequest()" 0%nat)
     <> Throw "Command execution failed: Constructor 'XMLHttpRequest' is not allowed".
Proof.
  split; [reflexivity | split; [reflexivity | split]].
  - vm_compute. reflexivity.
  - vm_compute. discriminate.
Qed.

(** ** Falsy entries of the context *)

Section FalsyEntries.

Context (H : Host).

Lemma present_but_falsy_spec h :
  present_but_falsy h -> truthy h = false /\ is_undefined h = false.
Proof.
  unfold present_but_falsy. simpl.
  intros [<- | [<- | [<- | [<- | []]]]]; split; reflexivity.
Qed.

Lemma method_root_falsy object property subProperty args w falsy w1 :
  host_get H (context H) object w = (Ok falsy, w1) ->
  truthy falsy = false ->
  executeMethod H object property subProperty args (w, [])
  = (Throw ("Object '" ++ object ++ "' not found"),
     (w1, [EGet (context H) object])).
Proof.
  intros Hroot Hf. unfold executeMethod.
  rewrite (bind_ok H _ _ _ _ _ (get_at H _ _ _ _ _ _ Hroot)).
  rewrite Hf. reflexivity.
Qed.

Lemma property_root_falsy object property subProperty w falsy w1 :
  host_get H (context H) object w = (Ok falsy, w1) ->
  truthy falsy = false ->
  executeProperty H object property subProperty (w, [])
  = (Throw ("Object '" ++ object ++ "' not found"),
     (w1, [EGet (context H) object])).
Proof.
  intros Hroot Hf. unfold executeProperty.
  rewrite (bind_ok H _ _ _ _ _ (get_at H _ _ _ _ _ _ Hroot)).
  rewrite Hf. reflexivity.
Qed.

Lemma method_property_falsy object p subProperty args w root w1 u w2 :
  host_get H (context H) object w = (Ok root, w1) ->
  truthy root = true ->
  is_empty p = false ->
  host_get H root p w1 = (Ok u, w2) ->
  truthy u = false ->
  executeMethod H object (Some p) subProperty args (w, [])
  = (Throw ("Property '" ++ p ++ "' not found on " ++ object),
     (w2, [EGet (context H) object; EGet root p])).
Proof.
  intros Hroot Ht Hp Hprop Hu. unfold executeMethod.
  rewrite (bind_ok H _ _ _ _ _ (get_at H _ _ _ _ _ _ Hroot)).
  rewrite Ht. cbn [negb present key_of]. rewrite Hp. cbn [negb].
  erewrite bind_throw; [reflexivity |].
  rewrite (bind_ok H _ _ _ _ _ (get_at H _ _ _ _ _ _ Hprop)).
  rewrite Hu. reflexivity.
Qed.

Lemma property_property_read object p w root w1 u w2 :
  host_get H (context H) object w = (Ok root, w1) ->
  truthy root = true ->
  is_empty p = false ->
  host_get H root p w1 = (Ok u, w2) ->
  executeProperty H object (Some p) None (w, [])
  = (if is_undefined u
     then Throw ("Property '" ++ p ++ "' not found on " ++ object)
     else Ok u,
     (w2, [EGet (context H) object; EGet root p])).
Proof.
  intros Hroot Ht Hp Hprop. unfold executeProperty.
  rewrite (bind_ok H _ _ _ _ _ (get_at H _ _ _ _ _ _ Hroot)).
  rewrite Ht. cbn [negb present key_of]. rewrite Hp. cbn [negb].
  destruct (is_undefined u) eqn:Eu.
  - erewrite bind_throw; [reflexivity |].
    rewrite (bind_ok H _ _ _ _ _ (get_at H _ _ _ _ _ _ Hprop)).
    rewrite Eu. reflexivity.
  - erewrite bind_ok; [reflexivity |].
    rewrite (bind_ok H _ _ _ _ _ (get_at H _ _ _ _ _ _ Hprop)).
    rewrite Eu. reflexivity.
Qed.

Lemma property_subproperty_read object p s w root w1 mid w2 u w3 :
  host_get H (context H) object w = (Ok root, w1) ->
  truthy root = true ->
  is_empty p = false ->
  host_get H root p w1 = (Ok mid, w2) ->
  is_undefined mid = false ->
  is_empty s = false ->
  host_get H mid s w2 = (Ok u, w3) ->
  executeProperty H object (Some p) (Some s) (w, [])
  = (if is_undefined u
     then Throw ("Property '" ++ s ++ "' not found")
     else Ok u,
     (w3, [EGet (context H) object; EGet root p; EGet mid s])).
Proof.
  intros Hroot Ht Hp Hprop Hmid Hs Hsub. unfold executeProperty.
  rewrite (bind_ok H _ _ _ _ _ (get_at H _ _ _ _ _ _ Hroot)).
  rewrite Ht. cbn [negb present key_of]. rewrite Hp, Hs. cbn [negb].
  rewrite (bind_ok H (bind H _ _) _ _ mid
             (w2, [EGet (context H) object; EGet root p])).
  2:{ rewrite (bind_ok H _ _ _ _ _ (get_at H _ _ _ _ _ _ Hprop)).
      rewrite Hmid. reflexivity. }
  destruct (is_undefined u) eqn:Eu.
  - erewrite bind_throw; [reflexivity |].
    rewrite (bind_ok H _ _ _ _ _ (get_at H _ _ _ _ _ _ Hsub)).
    rewrite Eu. reflexivity.
  - erewrite bind_ok; [reflexivity |].
    rewrite (bind_ok H _ _ _ _ _ (get_at H _ _ _ _ _ _ Hsub)).
    rewrite Eu. reflexivity.
Qed.

Lemma truthy_defined h : truthy h = true -> is_undefined h = false.
Proof. destruct h as [[] | |]; simpl; intros E; solve [reflexivity | discriminate E]. Qed.

Lemma method_subproperty_falsy object p s args w root w1 mid w2 v w3 v' w4 :
  host_get H (context H) object w = (Ok root, w1) ->
  truthy root = true ->
  is_empty p = false ->
  host_get H root p w1 = (Ok mid, w2) ->
  truthy mid = true ->
  is_empty s = false ->
  host_get H mid s w2 = (Ok v, w3) ->
  is_function v = false ->
  host_get H mid s w3 = (Ok v', w4) ->
  truthy v' = false ->
  executeMethod H object (Some p) (Some s) args (w, [])
  = (Throw ("'" ++ s ++ "' is not a function"),
     (w4, [EGet (context H) object; EGet root p; EGet mid s; EGet mid s])).
Proof.
  intros Hroot Ht Hp Hprop Hmid Hs Hsub Hv Hsub' Hv'. unfold executeMethod.
  rewrite (bind_ok H _ _ _ _ _ (get_at H _ _ _ _ _ _ Hroot)).
  rewrite Ht. cbn [negb present key_of]. rewrite Hp, Hs. cbn [negb].
  rewrite (bind_ok H (bind H _ _) _ _ mid
             (w2, [EGet (context H) object; EGet root p])).
  2:{ rewrite (bind_ok H _ _ _ _ _ (get_at H _ _ _ _ _ _ Hprop)).
      rewrite Hmid. reflexivity. }
  rewrite (bind_ok H _ _ _ _ _ (get_at H _ _ _ _ _ _ Hsub)).
  rewrite Hv. cbn [negb].
  rewrite (bind_ok H (bind H _ _) _ _ false
             (w4, [EGet (context H) object; EGet root p; EGet mid s; EGet mid s])).
  2:{ rewrite (bind_ok H _ _ _ _ _ (get_at H _ _ _ _ _ _ Hsub')).
      rewrite Hv'. reflexivity. }
  unfold or_else. cbn [present]. rewrite Hs. reflexivity.
Qed.

End FalsyEntries.

(** C10. In the dispatch of a method call and of a property access alike, a
    root identifier whose entry in the context is falsy is reported as not
    found although it is there. In a method call the first property
    segment is treated the same way, and a falsy sub-property is reported
    as not callable whether it is there or not. In a property access the
    segments after the root are compared with [undefined] only: a property
    or a sub-property that is there and falsy is returned, one that reads
    as [undefined] is reported as not found. *)
Theorem falsy_entries_are_reported_missing
    (H : Host)
    (* a falsy root entry *)
    (object : string) (property subProperty : option string)
    (args : list value) (falsy : hval) (w w1 : World H)
    (* a root with a falsy first property [p], a missing property [q], a
       property [r] holding a falsy sub-property [s] and no sub-property [t] *)
    (object' p q r s t : string) (root u mid v : hval)
    (w' w1' w2' wq wr ws ws' wt wt' : World H) :
  host_get H (context H) object w = (Ok falsy, w1) ->
  present_but_falsy falsy ->
  host_get H (context H) object' w' = (Ok root, w1') ->
  truthy root = true ->
  is_empty p = false -> is_empty q = false -> is_empty r = false ->
  is_empty s = false -> is_empty t = false ->
  host_get H root p w1' = (Ok u, w2') ->
  present_but_falsy u ->
  host_get H root q w1' = (Ok (HLit VUndefined), wq) ->
  host_get H root r w1' = (Ok mid, wr) ->
  truthy mid = true ->
  host_get H mid s wr = (Ok v, ws) ->
  host_get H mid s ws = (Ok v, ws') ->
  present_but_falsy v ->
  host_get H mid t wr = (Ok (HLit VUndefined), wt) ->
  host_get H mid t wt = (Ok (HLit VUndefined), wt') ->
  (* root: not found, in both dispatchers *)
  executeMethod H object property subProperty args (w, [])
  = (Throw ("Object '" ++ object ++ "' not found"),
     (w1, [EGet (context H) object]))
  /\ executeProperty H object property subProperty (w, [])
     = (Throw ("Object '" ++ object ++ "' not found"),
        (w1, [EGet (context H) object]))
  (* first property of a method call: not found *)
  /\ executeMethod H object' (Some p) subProperty args (w', [])
     = (Throw ("Property '" ++ p ++ "' not found on " ++ object'),
        (w2', [EGet (context H) object'; EGet root p]))
  (* sub-property of a method call: not a function, there or not *)
  /\ executeMethod H object' (Some r) (Some s) args (w', [])
     = (Throw ("'" ++ s ++ "' is not a function"),
        (ws', [EGet (context H) object'; EGet root r;
               EGet mid s; EGet mid s]))
  /\ executeMethod H object' (Some r) (Some t) args (w', [])
     = (Throw ("'" ++ t ++ "' is not a function"),
        (wt', [EGet (context H) object'; EGet root r;
               EGet mid t; EGet mid t]))
  (* property of a property access: returned when falsy, not found when
     undefined *)
  /\ executeProperty H object' (Some p) None (w', [])
     = (Ok u, (w2', [EGet (context H) object'; EGet root p]))
  /\ executeProperty H object' (Some q) None (w', [])
     = (Throw ("Property '" ++ q ++ "' not found on " ++ object'),
        (wq, [EGet (context H) object'; EGet root q]))
  (* sub-property of a property access: the same *)
  /\ executeProperty H object' (Some r) (Some s) (w', [])
     = (Ok v, (ws, [EGet (context H) object'; EGet root r; EGet mid s]))
  /\ executeProperty H object' (Some r) (Some t) (w', [])
     = (Throw ("Property '" ++ t ++ "' not found"),
        (wt, [EGet (context H) object'; EGet root r; EGet mid t])).
Proof.
  intros Hroot Hfalsy Hroot' Ht Hp Hq Hr Hs Ht' Hu Hufalsy Hq' Hmid Hmid' Hv
    Hv2 Hvfalsy Hnone Hnone2.
  destruct (present_but_falsy_spec _ Hfalsy) as [Hf _].
  destruct (present_but_falsy_spec _ Hufalsy) as [Huf Hud].
  destruct (present_but_falsy_spec _ Hvfalsy) as [Hvf Hvd].
  pose proof (truthy_defined _ Hmid') as Hmidd.
  assert (Hvfun : is_function v = false) by (destruct v; [reflexivity | discriminate Hvf | discriminate Hvf]).
  repeat split.
  - eapply method_root_falsy; eauto.
  - eapply property_root_falsy; eauto.
  - eapply method_property_falsy; eauto.
  - eapply method_subproperty_falsy; eauto.
  - eapply method_subproperty_falsy; eauto.
  - rewrite (property_property_read H _ _ _ _ _ _ _ Hroot' Ht Hp Hu).
    rewrite Hud. reflexivity.
  - rewrite (property_property_read H _ _ _ _ _ _ _ Hroot' Ht Hq Hq').
    reflexivity.
  - rewrite (property_subproperty_read H _ _ _ _ _ _ _ _ _ _
               Hroot' Ht Hr Hmid Hmidd Hs Hv).
    rewrite Hvd. reflexivity.
  - rewrite (property_subproperty_read H _ _ _ _ _ _ _ _ _ _
               Hroot' Ht Hr Hmid Hmidd Ht' Hnone).
    reflexivity.
Qed.

Lemma falsy_entries_are_reported_missing_witness :
  run Demo.rt Demo.host "zero()" 0%nat
  = (Throw "Command execution failed: Object 'zero' not found",
     (0%nat, [EGet Demo.root "zero"]))
  /\ executeMethod Demo.host "zero" None None [] (0%nat, [])
     = (Throw "Object 'zero' not found", (0%nat, [EGet Demo.root "zero"]))
  /\ executeProperty Demo.host "zero" None None (0%nat, [])
     = (Throw "Object 'zero' not found", (0%nat, [EGet Demo.root "zero"]))
  /\ executeMethod Demo.host "calendar" (Some "count") None [] (0%nat, [])
     = (Throw "Property 'count' not found on calendar",
        (0%nat, [EGet Demo.root "calendar"; EGet Demo.calendar "count"]))
  /\ executeMethod Demo.host "calendar" (Some "eventStore") (Some "size") []
       (0%nat, [])
     = (Throw "'size' is not a function",
        (0%nat, [EGet Demo.root "calendar"; EGet Demo.calendar "eventStore";
                 EGet Demo.eventStore "size"; EGet Demo.eventStore "size"]))
  /\ executeMethod Demo.host "calendar" (Some "eventStore") (Some "missing") []
       (0%nat, [])
     = (Throw "'missing' is not a function",
        (0%nat, [EGet Demo.root "calendar"; EGet Demo.calendar "eventStore";
                 EGet Demo.eventStore "missing"; EGet Demo.eventStore "missing"]))
  /\ executeProperty Demo.host "calendar" (Some "count") None (0%nat, [])
     = (Ok (HLit (VNum (Fin 0))),
        (0%nat, [EGet Demo.root "calendar"; EGet Demo.calendar "count"]))
  /\ executeProperty Demo.host "calendar" (Some "missing") None (0%nat, [])
     = (Throw "Property 'missing' not found on calendar",
        (0%nat, [EGet Demo.root "calendar"; EGet Demo.calendar "missing"]))
  /\ executeProperty Demo.host "calendar" (Some "eventStore") (Some "size")
       (0%nat, [])
     = (Ok (HLit (VNum (Fin 0))),
        (0%nat, [EGet Demo.root "calendar"; EGet Demo.calendar "eventStore";
                 EGet Demo.eventStore "size"]))
  /\ executeProperty Demo.host "calendar" (Some "eventStore") (Some "missing")
       (0%nat, [])
     = (Throw "Property 'missing' not found",
        (0%nat, [EGet Demo.root "calendar"; EGet Demo.calendar "eventStore";
                 EGet Demo.eventStore "missing"])).
Proof.
  split; [vm_compute; reflexivity |].
  apply (falsy_entries_are_reported_missing Demo.host
           "zero" None None [] (HLit (VNum (Fin 0))) 0%nat 0%nat
           "calendar" "count" "missing" "eventStore" "size" "missing"
           Demo.calendar (HLit (VNum (Fin 0))) Demo.eventStore
           (HLit (VNum (Fin 0)))
           0%nat 0%nat 0%nat 0%nat 0%nat 0%nat 0%nat 0%nat 0%nat);
    try reflexivity; unfold present_but_falsy; simpl; auto.
Defined.

(** ** The coercer on array and object literals *)

Lemma matches_void s : matches Void s = false.
Proof. induction s as [| c s IH]; simpl; auto. Qed.

(** C8. For every text that starts with an opening square bracket and
    whose form with single quotes turned into double quotes is refused by
    the decoder, the coercer returns the empty array. *)
Theorem malformed_array_becomes_empty (rt : Runtime) (raw : string) :
  startsWith "[" raw = true ->
  JSON_parse rt (replace_char squote dquote raw) = None ->
  parseValue rt raw = VArr [].
Proof.
  intros Hstart Hfail.
  destruct raw as [| c r]; [discriminate Hstart |].
  unfold startsWith in Hstart. cbn [prefix] in Hstart.
  destruct (ascii_dec "[" c) as [<- |]; [| discriminate Hstart].
  unfold parseValue. cbn [String.length parseValue_fuel].
  change (String "[" r =? "null")%string with false.
  change (String "[" r =? "undefined")%string with false.
  change (String "[" r =? "true")%string with false.
  change (String "[" r =? "false")%string with false.
  change (startsWith (str1 dquote) (String "[" r)) with false.
  change (startsWith (str1 squote) (String "[" r)) with false.
  change (startsWith "new Date(" (String "[" r)) with false.
  change (startsWith "{" (String "[" r)) with false.
  cbn [andb orb].
  change (matches number_literal (String "[" r)) with (matches Void r).
  rewrite matches_void.
  unfold startsWith. simpl prefix.
  destruct (prefix "" r) eqn:E.
  - rewrite Hfail. reflexivity.
  - destruct r; discriminate E.
Qed.

Lemma malformed_array_becomes_empty_witness :
  Json.decode "[1, 2," = None /\ parseValue Demo.rt "[1, 2," = VArr [].
Proof.
  split; [reflexivity |].
  apply (malformed_array_becomes_empty Demo.rt "[1, 2,"); reflexivity.
Defined.

(** The same literal as the only argument of a call. *)
Example malformed_array_argument :
  parseArguments Demo.rt "[1, 2," = [VArr []]
  /\ parseValue Demo.rt "[1, 2, 3]" = VArr [VNum (Fin 1); VNum (Fin 2); VNum (Fin 3)].
Proof. split; reflexivity. Qed.

(** C2. An object literal comes out of the coercer as the decoder or the
    fallback split produced it; the sanitizer is not applied. With the
    strict decoder: the key [onClick] and the angle brackets are still
    there, and sanitizing the result would remove them. With the fallback
    split (the strict decoder refuses the bare word): the key [onClick] is
    still there. Through [execute], the method receives the mapping as it
    was decoded. *)
Theorem object_literal_is_returned_unsanitized :
  Json.decode (replace_char squote dquote
                 (quote_keys "{onClick: 1, title: '<b>x</b>'}"))
  = Some (VObj [("onClick", VNum (Fin 1)); ("title", VStr "<b>x</b>")])
  /\ parseValue Demo.rt "{onClick: 1, title: '<b>x</b>'}"
     = VObj [("onClick", VNum (Fin 1)); ("title", VStr "<b>x</b>")]
  /\ sanitizeObject (parseValue Demo.rt "{onClick: 1, title: '<b>x</b>'}")
     = VObj [("title", VStr "bx/b")]
  /\ Json.decode (replace_char squote dquote (quote_keys "{onClick: go}")) = None
  /\ parseValue Demo.rt "{onClick: go}" = VObj [("onClick", VStr "go")]
  /\ sanitizeObject (parseValue Demo.rt "{onClick: go}") = VObj []
  /\ run Demo.rt Demo.host
       "calendar.eventStore.add({onClick: 1, title: '<b>x</b>'})" 0%nat
     = (Ok (HLit (VNum (Fin 1))),
        (1%nat,
         [EGet Demo.root "calendar"; EGet Demo.calendar "eventStore";
          EGet Demo.eventStore "add";
          EGet Demo.root "calendar"; EGet Demo.calendar "eventStore";
          ECall Demo.add Demo.eventStore
            [VObj [("onClick", VNum (Fin 1)); ("title", VStr "<b>x</b>")]]])).
Proof. repeat split; vm_compute; reflexivity. Qed.

(** ** The sanitizer *)

(** C9. A mapping with an array and a Date among its values: the array
    comes back as a mapping from its indices and the Date as an empty
    mapping, where the claim has both pass through unchanged. The same
    holds of every Date and of every array under any key that is kept. *)
Theorem sanitizer_rebuilds_arrays_and_dates :
  sanitizeObject
    (VObj [("tags", VArr [VStr "a"; VStr "b"]);
           ("when", VDate (DateOfMillis (Fin 0)));
           ("count", VNum (Fin 2))])
  = VObj [("tags", VObj [("0", VStr "a"); ("1", VStr "b")]);
          ("when", VObj []);
          ("count", VNum (Fin 2))]
  /\ (forall d, sanitizeObject (VObj [("when", VDate d)])
                = VObj [("when", VObj [])])
  /\ (forall items,
        sanitizeObject (VObj [("tags", VArr items)])
        = VObj [("tags", sanitizeObject (VArr items))]
        /\ exists fields, sanitizeObject (VArr items) = VObj fields).
Proof.
  split; [reflexivity | split].
  - intros d. reflexivity.
  - intros items. split; [reflexivity |].
    simpl. eexists. reflexivity.
Qed.

(** The example of the claim, on which the sanitizer does what is said. *)
Example sanitizer_example :
  sanitizeObject
    (VObj [("__proto__", VNum (Fin 1)); ("onClick", VNum (Fin 2));
           ("title", VStr "<b>hi</b>");
           ("nested", VObj [("onLoad", VNum (Fin 3)); ("safe", VStr "ok")])])
  = VObj [("title", VStr "bhi/b"); ("nested", VObj [("safe", VStr "ok")])].
Proof. reflexivity. Qed.

(** ** The argument lexer *)

Section ArgumentLexer.

Context (rt : Runtime).

Lemma append_nil_r (s : string) : (s ++ EmptyString)%string = s.
Proof. induction s as [| c s IH]; simpl; congruence. Qed.

Lemma append_assoc (s1 s2 s3 : string) :
  ((s1 ++ s2) ++ s3 = s1 ++ (s2 ++ s3))%string.
Proof. induction s1 as [| c s1 IH]; simpl; congruence. Qed.

Lemma append_cons (s : string) c r :
  (s ++ String c r = (s ++ str1 c) ++ r)%string.
Proof. rewrite append_assoc. reflexivity. Qed.

(** Outside a string the previous character is not looked at. *)
Lemma lex_loop_prev p p' a cur d s :
  lex_loop rt p (Lexer a cur d false None) s
  = lex_loop rt p' (Lexer a cur d false None) s.
Proof. destruct s as [| c s]; reflexivity. Qed.

(** Inside a string nothing is split and nothing is counted, up to the
    quote that closes it. *)
Lemma scan_string_body q body : forall prev a cur d rest,
  string_body q prev body = true ->
  lex_loop rt (Some prev) (Lexer a cur d true (Some q)) (body ++ String q rest)
  = lex_loop rt (Some q) (Lexer a (cur ++ body ++ str1 q) d false None) rest.
Proof.
  induction body as [| c body IH]; intros prev a cur d rest Hb;
    cbn [string_body] in Hb.
  - cbn [append lex_loop]. unfold lex_char.
    cbn [inString stringChar negb same_char args current depth].
    rewrite Ascii.eqb_refl, (Ascii.eqb_sym backslash prev), Hb. reflexivity.
  - apply andb_prop in Hb. destruct Hb as [Hc Hb].
    cbn [append lex_loop]. unfold lex_char at 1.
    cbn [inString stringChar negb same_char args current depth].
    rewrite (Ascii.eqb_sym backslash prev).
    assert (E : ((c =? q)%char && negb (prev =? backslash)%char) = false).
    { destruct (c =? q)%char, (prev =? backslash)%char; simpl in *; congruence. }
    rewrite E. rewrite (IH c a (cur ++ str1 c)%string d rest Hb).
    rewrite append_assoc. reflexivity.
Qed.

Lemma closes_cases o c :
  closes o c = true ->
  (o = "{" /\ c = "}")%char \/ (o = "[" /\ c = "]")%char
  \/ (o = "(" /\ c = ")")%char.
Proof.
  unfold closes. intros Hc.
  apply orb_prop in Hc. destruct Hc as [Hc | Hc];
    [apply orb_prop in Hc; destruct Hc as [Hc | Hc] |];
    apply andb_prop in Hc; destruct Hc as [Ho Hc];
    apply Ascii.eqb_eq in Ho, Hc; auto.
Qed.

(** An opening bracket and what it does to the state. *)
Lemma lex_char_open p a cur d o c :
  closes o c = true ->
  lex_char rt p (Lexer a cur d false None) o
  = Lexer a (cur ++ str1 o) (d + 1) false None.
Proof.
  intros Hc.
  destruct (closes_cases _ _ Hc) as [[-> _] | [[-> _] | [-> _]]]; reflexivity.
Qed.

Lemma lex_char_close p a cur d o c :
  closes o c = true ->
  lex_char rt p (Lexer a cur d false None) c
  = Lexer a (cur ++ str1 c) (d - 1) false None.
Proof.
  intros Hc.
  destruct (closes_cases _ _ Hc) as [[_ ->] | [[_ ->] | [_ ->]]]; reflexivity.
Qed.

Lemma lex_char_quote p a cur d q :
  is_quote q = true ->
  lex_char rt p (Lexer a cur d false None) q
  = Lexer a (cur ++ str1 q) d true (Some q).
Proof. intros Hq. unfold lex_char. simpl. rewrite Hq. reflexivity. Qed.

(** A plain character is kept, unless it is a comma at depth zero. *)
Lemma lex_char_plain p a cur d c :
  plain c = true ->
  ((c =? ",")%char && (d =? 0)%Z) = false ->
  lex_char rt p (Lexer a cur d false None) c
  = Lexer a (cur ++ str1 c) d false None.
Proof.
  unfold plain. intros Hp Hc.
  apply andb_prop in Hp. destruct Hp as [Hp Hclose].
  apply andb_prop in Hp. destruct Hp as [Hquote Hopen].
  apply negb_true_iff in Hquote, Hopen, Hclose.
  unfold lex_char. simpl. rewrite Hquote, Hopen, Hclose, Hc. reflexivity.
Qed.

(** Well-nested text read below the top level adds to the current argument
    and nothing else. *)
Lemma scan_balanced s :
  balanced s ->
  forall p a cur d rest,
    (0 < d)%Z ->
    lex_loop rt p (Lexer a cur d false None) (s ++ rest)
    = lex_loop rt None (Lexer a (cur ++ s) d false None) rest.
Proof.
  induction 1 as [| c s Hc Hs IH | q body s Hq Hb Hs IH
                  | o inner c s Hc Hin IHin Hs IH];
    intros p a cur d rest Hd.
  - simpl. rewrite append_nil_r. apply lex_loop_prev.
  - cbn [append lex_loop]. rewrite lex_char_plain; auto.
    + rewrite IH by assumption. rewrite append_assoc. reflexivity.
    + replace (d =? 0)%Z with false by (symmetry; apply Z.eqb_neq; lia).
      apply andb_false_r.
  - cbn [append lex_loop]. rewrite lex_char_quote by assumption.
    rewrite append_assoc. cbn [append].
    rewrite scan_string_body by assumption.
    rewrite (lex_loop_prev (Some q) None).
    rewrite IH by assumption.
    rewrite !append_assoc. reflexivity.
  - cbn [append lex_loop]. rewrite (lex_char_open _ _ _ _ _ _ Hc).
    rewrite append_assoc. cbn [append].
    rewrite IHin by lia.
    cbn [lex_loop]. rewrite (lex_char_close _ _ _ _ _ _ Hc).
    replace (d + 1 - 1)%Z with d by lia.
    rewrite (lex_loop_prev (Some c) None).
    rewrite IH by assumption.
    rewrite !append_assoc. reflexivity.
Qed.

(** One top-level argument read at the top level adds to the current
    argument and nothing else: none of its commas splits. *)
Lemma scan_toplevel s :
  toplevel s ->
  forall p a cur rest,
    lex_loop rt p (Lexer a cur 0 false None) (s ++ rest)
    = lex_loop rt None (Lexer a (cur ++ s) 0 false None) rest.
Proof.
  induction 1 as [| c s Hc Hcomma Hs IH | q body s Hq Hb Hs IH
                  | o inner c s Hc Hin Hs IH];
    intros p a cur rest.
  - simpl. rewrite append_nil_r. apply lex_loop_prev.
  - cbn [append lex_loop]. rewrite lex_char_plain; auto.
    + rewrite IH. rewrite append_assoc. reflexivity.
    + rewrite Hcomma. reflexivity.
  - cbn [append lex_loop]. rewrite lex_char_quote by assumption.
    rewrite append_assoc. cbn [append].
    rewrite scan_string_body by assumption.
    rewrite (lex_loop_prev (Some q) None).
    rewrite IH. rewrite !append_assoc. reflexivity.
  - cbn [append lex_loop]. rewrite (lex_char_open _ _ _ _ _ _ Hc).
    rewrite append_assoc. cbn [append].
    rewrite (scan_balanced inner Hin) by lia.
    cbn [lex_loop]. rewrite (lex_char_close _ _ _ _ _ _ Hc).
    change (0 + 1 - 1)%Z with 0%Z.
    rewrite (lex_loop_prev (Some c) None).
    rewrite IH. rewrite !append_assoc. reflexivity.
Qed.

Lemma join_args_cons t ts last :
  join_args (t :: ts ++ [last])
  = (t ++ String "," (join_args (ts ++ [last])))%string.
Proof.
  unfold join_args. simpl.
  destruct (ts ++ [last]) eqn:E.
  - destruct ts; discriminate E.
  - reflexivity.
Qed.

(** Arguments joined by commas are split at these commas and nowhere
    else. *)
Lemma scan_join tops : forall last p a,
  Forall toplevel tops -> toplevel last ->
  lex_loop rt p (Lexer a EmptyString 0 false None) (join_args (tops ++ [last]))
  = Lexer (a ++ map (coerce_raw rt) tops) last 0 false None.
Proof.
  induction tops as [| t ts IH]; intros last p a Hall Hlast.
  - pose proof (scan_toplevel last Hlast p a EmptyString EmptyString) as E.
    rewrite append_nil_r in E.
    change (join_args ([] ++ [last])) with last.
    rewrite E. simpl. rewrite app_nil_r. reflexivity.
  - inversion Hall as [| x l Ht Hts]; subst.
    change ((t :: ts) ++ [last]) with (t :: ts ++ [last]).
    rewrite join_args_cons.
    rewrite scan_toplevel by assumption.
    cbn [lex_loop append]. unfold lex_char at 1. cbn.
    rewrite (IH last (Some ","%char) _ Hts Hlast).
    rewrite <- app_assoc. reflexivity.
Qed.

Lemma trim_start_blank s : is_empty (trim_start s) = blank s.
Proof.
  unfold blank. induction s as [| c s IH]; simpl; auto.
  destruct (is_space c); simpl; auto.
Qed.

Lemma trim_end_head c r : is_space c = false -> is_empty (trim_end (String c r)) = false.
Proof.
  intros Hc. simpl. destruct (trim_end r); [rewrite Hc |]; reflexivity.
Qed.

Lemma trim_start_head s c r : trim_start s = String c r -> is_space c = false.
Proof.
  induction s as [| d s IH]; simpl; [discriminate |].
  destruct (is_space d) eqn:Ed; auto.
  intros E; inversion E; subst. exact Ed.
Qed.

(** [!s.trim()] holds exactly of blank text. *)
Lemma trim_blank s : is_empty (trim s) = blank s.
Proof.
  unfold trim. rewrite <- trim_start_blank.
  destruct (trim_start s) as [| c r] eqn:E; [reflexivity |].
  simpl is_empty at 2. apply trim_end_head.
  eapply trim_start_head; eauto.
Qed.

Lemma blank_append (s1 s2 : string) :
  blank (s1 ++ s2)%string = blank s1 && blank s2.
Proof.
  unfold blank. induction s1 as [| c s1 IH]; simpl; auto.
  rewrite IH. apply andb_assoc.
Qed.

Lemma blank_join tops last :
  blank last = false -> blank (join_args (tops ++ [last])) = false.
Proof.
  intros Hl. induction tops as [| t ts IH].
  - exact Hl.
  - change ((t :: ts) ++ [last]) with (t :: ts ++ [last]).
    rewrite join_args_cons, blank_append.
    change (String "," (join_args (ts ++ [last])))
      with ("," ++ join_args (ts ++ [last]))%string.
    rewrite blank_append, IH. rewrite !andb_false_r. reflexivity.
Qed.

Lemma parseArguments_join tops last :
  Forall toplevel tops -> toplevel last -> blank last = false ->
  parseArguments rt (join_args (tops ++ [last]))
  = map (coerce_raw rt) (tops ++ [last]).
Proof.
  intros Hall Hlast Hb. unfold parseArguments.
  rewrite trim_blank, (blank_join tops last Hb).
  change lexer_init with (Lexer [] EmptyString 0 false None).
  rewrite scan_join by assumption. simpl.
  rewrite trim_blank, Hb. simpl. rewrite map_app. reflexivity.
Qed.

Lemma parseArguments_blank s : blank s = true -> parseArguments rt s = [].
Proof. intros Hb. unfold parseArguments. rewrite trim_blank, Hb. reflexivity. Qed.

End ArgumentLexer.

(** C5. The lexer splits at top-level commas and nowhere else: when each
    piece is one top-level argument (its commas, if any, lie inside a
    quoted string or inside a bracketed group) and the last piece is not
    blank, the text made of the pieces joined by commas yields exactly one
    value per piece, the coercion of that piece. The text
    [{a:1,b:2}, 'x,y', [1,2,3]] yields three arguments. Blank text yields
    no argument. *)
Theorem lexer_splits_at_top_level_commas_only
    (rt : Runtime) (pieces : list string) (last blanks : string) :
  Forall toplevel pieces ->
  toplevel last ->
  blank last = false ->
  blank blanks = true ->
  parseArguments rt (join_args (pieces ++ [last]))
  = map (coerce_raw rt) (pieces ++ [last])
  /\ List.length (parseArguments rt "{a:1,b:2}, 'x,y', [1,2,3]") = 3%nat
  /\ parseArguments rt blanks = [].
Proof.
  intros Hall Hlast Hb Hblank. split; [| split].
  - apply parseArguments_join; assumption.
  - reflexivity.
  - apply parseArguments_blank. exact Hblank.
Qed.

Lemma toplevel_group_example : toplevel "{a:1,b:2}".
Proof.
  apply (toplevel_group "{" "a:1,b:2" "}" EmptyString);
    [reflexivity | | apply toplevel_nil].
  repeat (apply balanced_plain; [reflexivity |]). apply balanced_nil.
Defined.

Lemma toplevel_string_example : toplevel " 'x,y'".
Proof.
  apply toplevel_plain; [reflexivity | reflexivity |].
  apply (toplevel_string "'" "x,y" EmptyString);
    [reflexivity | reflexivity | apply toplevel_nil].
Defined.

Lemma toplevel_array_example : toplevel " [1,2,3]".
Proof.
  apply toplevel_plain; [reflexivity | reflexivity |].
  apply (toplevel_group "[" "1,2,3" "]" EmptyString);
    [reflexivity | | apply toplevel_nil].
  repeat (apply balanced_plain; [reflexivity |]). apply balanced_nil.
Defined.

Lemma lexer_splits_at_top_level_commas_only_witness :
  join_args (["{a:1,b:2}"; " 'x,y'"] ++ [" [1,2,3]"]) = "{a:1,b:2}, 'x,y', [1,2,3]"
  /\ parseArguments Demo.rt "{a:1,b:2}, 'x,y', [1,2,3]"
     = [ VObj [("a", VNum (Fin 1)); ("b", VNum (Fin 2))];
         VStr "x,y";
         VArr [VNum (Fin 1); VNum (Fin 2); VNum (Fin 3)] ]
  /\ parseArguments Demo.rt "   " = [].
Proof.
  destruct (lexer_splits_at_top_level_commas_only Demo.rt
              ["{a:1,b:2}"; " 'x,y'"] " [1,2,3]" "   ") as (E & _ & B).
  - apply Forall_cons; [exact toplevel_group_example |].
    apply Forall_cons; [exact toplevel_string_example | apply Forall_nil].
  - exact toplevel_array_example.
  - reflexivity.
  - reflexivity.
  - split; [reflexivity | split; [| exact B]].
    change (join_args (["{a:1,b:2}"; " 'x,y'"] ++ [" [1,2,3]"]))
      with "{a:1,b:2}, 'x,y', [1,2,3]" in E.
    rewrite E. reflexivity.
Defined.

(** C5, as stated, on text that is not well nested. In [}{a,b}] the only
    comma lies between the braces of [{a,b}], and the lexer splits there:
    the closing brace in front has brought the counter to zero again. In
    ['a\\', 'b,c'] the first literal ends with an escaped backslash, its
    closing quote is taken for an escaped one, and the lexer splits at
    the comma inside the second literal instead of the one between the
    two. *)
Lemma lexer_splits_inside_after_stray_closer :
  parseArguments Demo.rt "}{a,b}" = [VStr "}{a"; VStr "b}"]
  /\ List.length (parseArguments Demo.rt "}{a,b}") <> 1%nat
  /\ parseArguments Demo.rt "'a\\', 'b,c'" = [VStr "'a\\', 'b"; VStr "c'"].
Proof.
  split; [reflexivity | split; [| reflexivity]].
  vm_compute. discriminate.
Qed.

(** ** The coercer always returns *)

Section CoercerTotal.

Context (rt : Runtime).

Lemma length_append (s1 s2 : string) :
  String.length (s1 ++ s2)%string = (String.length s1 + String.length s2)%nat.
Proof. induction s1 as [| c s1 IH]; simpl; auto. Qed.

Lemma length_drop_last s : (String.length (drop_last s) <= String.length s)%nat.
Proof.
  induction s as [| c s IH]; simpl; auto.
  destruct s as [| d s]; simpl in *; lia.
Qed.

Lemma length_trim_start s : (String.length (trim_start s) <= String.length s)%nat.
Proof.
  induction s as [| c s IH]; simpl; auto.
  destruct (is_space c); simpl; lia.
Qed.

Lemma length_trim_end s : (String.length (trim_end s) <= String.length s)%nat.
Proof.
  induction s as [| c s IH]; simpl; auto.
  destruct (trim_end s) as [| d r]; [destruct (is_space c) |]; simpl in *; lia.
Qed.

Lemma length_trim s : (String.length (trim s) <= String.length s)%nat.
Proof.
  unfold trim. pose proof (length_trim_end (trim_start s)).
  pose proof (length_trim_start s). lia.
Qed.

Lemma length_until_colon s :
  (String.length (until_colon s) <= String.length s)%nat.
Proof.
  induction s as [| c s IH]; simpl; auto.
  destruct (c =? ":")%char; simpl; lia.
Qed.

Lemma scan_pairs_length s : forall st w v,
  In (w, v) (scan_pairs st s) ->
  (String.length v <= String.length s + in_hand st)%nat.
Proof.
  induction s as [| c s IH]; intros st w v Hin.
  - destruct st; simpl in Hin; try contradiction.
    destruct Hin as [E | []]. inversion E; subst. simpl. lia.
  - destruct st as [| w0 | w0 | w0 | w0 v0]; cbn [scan_pairs] in Hin.
    + apply IH in Hin. unfold seek in Hin.
      destruct (is_word c); simpl in *; lia.
    + destruct (is_word c); [| destruct (is_space c);
                               [| destruct (c =? ":")%char]];
        apply IH in Hin; simpl in *; lia.
    + destruct (is_space c); [| destruct (c =? ":")%char];
        apply IH in Hin; unfold seek in Hin;
        try destruct (is_word c); simpl in *; lia.
    + destruct (c =? ",")%char; apply IH in Hin; simpl in *; lia.
    + destruct (c =? ",")%char.
      * destruct Hin as [E | Hin].
        -- inversion E; subst. simpl. lia.
        -- apply IH in Hin. simpl in *. lia.
      * apply IH in Hin. simpl in Hin. rewrite length_append in Hin.
        simpl in *. lia.
Qed.

(** Every value text of an object literal is shorter than the literal. *)
Lemma pair_value_shorter c r pair :
  In pair (match_pairs (slice 1 (String c r))) ->
  (String.length (trim (until_colon (snd pair))) <= String.length r)%nat.
Proof.
  destruct pair as [w v]. intros Hin.
  apply scan_pairs_length in Hin. simpl in Hin.
  pose proof (length_trim (until_colon v)).
  pose proof (length_until_colon v).
  pose proof (length_drop_last r).
  simpl. unfold slice in Hin. simpl in Hin. lia.
Qed.

(** The loop of [parseObject] with two coercers that agree on its value
    texts. *)
Lemma fold_pairs_ext (c1 c2 : string -> option value) pairs :
  (forall pair, In pair pairs ->
     c1 (trim (until_colon (snd pair))) = c2 (trim (until_colon (snd pair)))) ->
  forall acc,
    fold_left
      (fun obj pair =>
         match obj, c1 (trim (until_colon (snd pair))) with
         | Some o, Some v => Some (Obj.assign (trim (fst pair)) v o)
         | _, _ => None
         end) pairs acc
    = fold_left
        (fun obj pair =>
           match obj, c2 (trim (until_colon (snd pair))) with
           | Some o, Some v => Some (Obj.assign (trim (fst pair)) v o)
           | _, _ => None
           end) pairs acc.
Proof.
  induction pairs as [| pair pairs IH]; intros Hext acc; simpl; auto.
  rewrite (Hext pair (or_introl eq_refl)).
  apply IH. intros p Hp. apply Hext. right. exact Hp.
Qed.

Lemma parseObject_with_ext c1 c2 objString :
  (forall pair, In pair (match_pairs (slice 1 objString)) ->
     c1 (trim (until_colon (snd pair))) = c2 (trim (until_colon (snd pair)))) ->
  parseObject_with c1 objString = parseObject_with c2 objString.
Proof.
  intros Hext. unfold parseObject_with. f_equal.
  apply fold_pairs_ext. exact Hext.
Qed.

Lemma fold_pairs_total (coerce : string -> option value) pairs :
  (forall pair, In pair pairs ->
     exists v, coerce (trim (until_colon (snd pair))) = Some v) ->
  forall acc,
  exists o,
    fold_left
      (fun obj pair =>
         match obj, coerce (trim (until_colon (snd pair))) with
         | Some o, Some v => Some (Obj.assign (trim (fst pair)) v o)
         | _, _ => None
         end) pairs (Some acc) = Some o.
Proof.
  induction pairs as [| pair pairs IH]; intros Hall acc; simpl; eauto.
  destruct (Hall pair (or_introl eq_refl)) as [v ->].
  apply IH. intros p Hp. apply Hall. right. exact Hp.
Qed.

Lemma startsWith_brace raw :
  startsWith "{" raw = true -> exists r, raw = String "{" r.
Proof.
  destruct raw as [| c r]; [discriminate |].
  unfold startsWith. cbn [prefix].
  destruct (ascii_dec "{" c) as [<- |]; [eauto | discriminate].
Qed.

(** Beyond the length of the text the fuel does not matter. *)
Lemma parseValue_fuel_stable n : forall m raw,
  (String.length raw < n)%nat -> (String.length raw < m)%nat ->
  parseValue_fuel rt n raw = parseValue_fuel rt m raw.
Proof.
  induction n as [| n IH]; intros m raw Hn Hm; [lia |].
  destruct m as [| m]; [lia |].
  cbn [parseValue_fuel].
  destruct (startsWith "{" raw) eqn:Hbrace; [| reflexivity].
  destruct (startsWith_brace raw Hbrace) as [r ->].
  rewrite (parseObject_with_ext (parseValue_fuel rt n) (parseValue_fuel rt m)).
  - reflexivity.
  - intros pair Hin. pose proof (pair_value_shorter _ r pair Hin) as Hv.
    simpl in Hn, Hm. apply IH; lia.
Qed.

(** With fuel beyond the length of the text there is an answer. *)
Lemma parseValue_fuel_some n : forall raw,
  (String.length raw < n)%nat ->
  exists v, parseValue_fuel rt n raw = Some v.
Proof.
  induction n as [| n IH]; intros raw Hn; [lia |].
  cbn [parseValue_fuel].
  repeat match goal with
         | |- context [if ?b then _ else _] => destruct b eqn:?
         end; eauto.
  - destruct (JSON_parse rt _); eauto.
    destruct (startsWith_brace raw) as [r ->]; [assumption |].
    unfold parseObject_with. cbv zeta.
    destruct (fold_pairs_total (parseValue_fuel rt n)
                (match_pairs (slice 1 (String "{" r)))) with (acc := @nil (string * value))
      as [o Ho].
    + intros pair Hin. pose proof (pair_value_shorter _ r pair Hin) as Hv.
      apply IH. simpl in Hn. lia.
    + exists (VObj o). exact (f_equal (option_map VObj) Ho).
  - destruct (JSON_parse rt _); eauto.
Qed.

(** [parseValue] is the answer for any fuel beyond the length. *)
Lemma parseValue_fuel_enough n raw :
  (String.length raw < n)%nat ->
  parseValue_fuel rt n raw = Some (parseValue rt raw).
Proof.
  intros Hn. unfold parseValue.
  rewrite (parseValue_fuel_stable (S (String.length raw)) n raw) by lia.
  destruct (parseValue_fuel_some n raw Hn) as [v ->]. reflexivity.
Qed.

Lemma parseValue_fuel_object n r :
  JSON_parse rt (replace_char squote dquote (quote_keys (String "{" r))) = None ->
  parseValue_fuel rt (S n) (String "{" r)
  = parseObject_with (parseValue_fuel rt n) (String "{" r).
Proof.
  intros Hfail. cbn [parseValue_fuel].
  change (String "{" r =? "null")%string with false.
  change (String "{" r =? "undefined")%string with false.
  change (String "{" r =? "true")%string with false.
  change (String "{" r =? "false")%string with false.
  change (startsWith (str1 dquote) (String "{" r)) with false.
  change (startsWith (str1 squote) (String "{" r)) with false.
  change (startsWith "new Date(" (String "{" r)) with false.
  cbn [andb orb].
  change (matches number_literal (String "{" r)) with (matches Void r).
  rewrite matches_void, Hfail.
  unfold startsWith. cbn [prefix].
  destruct (ascii_dec "{" "{") as [_ | Hne]; [| contradiction Hne; reflexivity].
  destruct r; reflexivity.
Qed.

(** The fallback of the object branch is [parseObject], whose nested values
    go through [parseValue] again. *)
Lemma parseValue_object_fallback raw :
  startsWith "{" raw = true ->
  JSON_parse rt (replace_char squote dquote (quote_keys raw)) = None ->
  parseValue rt raw = parseObject rt raw.
Proof.
  intros Hbrace Hfail.
  destruct (startsWith_brace raw Hbrace) as [r ->].
  unfold parseValue, parseObject.
  rewrite (parseValue_fuel_object _ r Hfail).
  rewrite (parseObject_with_ext
             (parseValue_fuel rt (String.length (String "{" r)))
             (fun val => Some (parseValue rt val))).
  - reflexivity.
  - intros pair Hin. pose proof (pair_value_shorter _ r pair Hin) as Hv.
    apply parseValue_fuel_enough. simpl. lia.
Qed.

End CoercerTotal.

(** ** String literals *)

Section StringLiterals.

Context (rt : Runtime).

Lemma last_char_append (s : string) c : last_char (s ++ str1 c)%string = Some c.
Proof.
  induction s as [| d s IH]; [reflexivity |].
  cbn [append last_char]. rewrite IH.
  destruct s; reflexivity.
Qed.

Lemma drop_last_append (s : string) c : drop_last (s ++ str1 c)%string = s.
Proof.
  induction s as [| d s IH]; [reflexivity |].
  cbn [append drop_last]. rewrite IH.
  destruct s; reflexivity.
Qed.

Lemma trim_end_append (s : string) c :
  is_space c = false -> trim_end (s ++ str1 c)%string = (s ++ str1 c)%string.
Proof.
  intros Hc. induction s as [| d s IH].
  - simpl. rewrite Hc. reflexivity.
  - cbn [append trim_end]. rewrite IH.
    destruct s; reflexivity.
Qed.

Lemma unescape_ordinary q q' s :
  forallb_str (ordinary q') s = true -> unescape q s = s.
Proof.
  induction s as [| a s IH]; [reflexivity |].
  cbn [forallb_str]. intros Hall.
  apply andb_prop in Hall. destruct Hall as [Ha Hs].
  unfold ordinary in Ha. apply andb_prop in Ha. destruct Ha as [_ Ha].
  apply negb_true_iff in Ha.
  cbn [unescape]. destruct s as [| b s']; [reflexivity |].
  rewrite Ha. cbn [andb]. rewrite (IH Hs). reflexivity.
Qed.

Lemma string_body_ordinary q body : forall prev,
  (prev =? backslash)%char = false ->
  forallb_str (ordinary q) body = true ->
  string_body q prev body = true.
Proof.
  induction body as [| c body IH]; intros prev Hprev Hall; cbn [string_body].
  - rewrite Hprev. reflexivity.
  - cbn [forallb_str] in Hall. apply andb_prop in Hall.
    destruct Hall as [Hc Hall]. unfold ordinary in Hc.
    apply andb_prop in Hc. destruct Hc as [Hq Hb].
    rewrite Hq. cbn [orb andb]. apply IH; [| assumption].
    apply negb_true_iff. exact Hb.
Qed.

Lemma is_quote_cases q : is_quote q = true -> q = dquote \/ q = squote.
Proof.
  unfold is_quote. intros Hq. apply orb_prop in Hq.
  destruct Hq as [Hq | Hq]; apply Ascii.eqb_eq in Hq; auto.
Qed.

Lemma startsWith_head c r : startsWith (str1 c) (String c r) = true.
Proof.
  unfold startsWith, str1. cbn [prefix].
  destruct (ascii_dec c c) as [_ | Hne]; [| contradiction Hne; reflexivity].
  destruct r; reflexivity.
Qed.

(** The coercion of a string literal is its body. *)
Lemma parseValue_quoted q body :
  is_quote q = true ->
  forallb_str (ordinary q) body = true ->
  parseValue rt (quoted q body) = VStr body.
Proof.
  intros Hq Hall.
  assert (Hend : forall c, endsWith c (quoted c body) = true).
  { intros c. unfold endsWith, quoted.
    change (String c (body ++ str1 c)) with (str1 c ++ (body ++ str1 c))%string.
    rewrite <- append_assoc, last_char_append. apply Ascii.eqb_refl. }
  assert (Hslice : slice 1 (quoted q body) = body).
  { unfold slice, quoted. cbn [drop]. apply drop_last_append. }
  unfold parseValue. cbn [parseValue_fuel].
  rewrite Hslice.
  destruct (is_quote_cases q Hq) as [-> | ->].
  - change (quoted dquote body =? "null")%string with false.
    change (quoted dquote body =? "undefined")%string with false.
    change (quoted dquote body =? "true")%string with false.
    change (quoted dquote body =? "false")%string with false.
    unfold quoted at 1. rewrite startsWith_head.
    rewrite Hend. cbn [andb orb].
    rewrite (unescape_ordinary dquote dquote body Hall).
    rewrite (unescape_ordinary squote dquote body Hall). reflexivity.
  - change (quoted squote body =? "null")%string with false.
    change (quoted squote body =? "undefined")%string with false.
    change (quoted squote body =? "true")%string with false.
    change (quoted squote body =? "false")%string with false.
    change (startsWith (str1 dquote) (quoted squote body)) with false.
    cbn [andb orb].
    unfold quoted at 1. rewrite startsWith_head.
    rewrite Hend. cbn [andb orb].
    rewrite (unescape_ordinary dquote squote body Hall).
    rewrite (unescape_ordinary squote squote body Hall). reflexivity.
Qed.

Lemma trim_quoted q body :
  is_quote q = true -> trim (quoted q body) = quoted q body.
Proof.
  intros Hq.
  assert (Hs : is_space q = false)
    by (destruct (is_quote_cases q Hq) as [-> | ->]; reflexivity).
  unfold trim, quoted. cbn [trim_start]. rewrite Hs.
  change (String q (body ++ str1 q)) with (str1 q ++ (body ++ str1 q))%string.
  rewrite <- append_assoc. apply trim_end_append. exact Hs.
Qed.

Lemma parseArguments_quoted q body :
  is_quote q = true ->
  forallb_str (ordinary q) body = true ->
  parseArguments rt (quoted q body) = [VStr body].
Proof.
  intros Hq Hall.
  assert (Hs : is_space q = false)
    by (destruct (is_quote_cases q Hq) as [-> | ->]; reflexivity).
  assert (Htop : toplevel (quoted q body)).
  { unfold quoted. apply toplevel_string; [assumption | | apply toplevel_nil].
    apply string_body_ordinary; [| assumption].
    destruct (is_quote_cases q Hq) as [-> | ->]; reflexivity. }
  pose proof (parseArguments_join rt [] (quoted q body) (Forall_nil _) Htop) as E.
  change (join_args ([] ++ [quoted q body])) with (quoted q body) in E.
  rewrite E.
  - simpl. unfold coerce_raw. rewrite (trim_quoted q body Hq).
    rewrite (parseValue_quoted q body Hq Hall). reflexivity.
  - unfold blank, quoted. cbn [forallb_str]. rewrite Hs. reflexivity.
Qed.

End StringLiterals.

(** C6. A string literal whose body holds neither its quote nor a
    backslash, given as the argument text, is coerced to the one String
    value that has the characters of the body, whatever commas and brackets
    these are; the console prints exactly these characters, and put back
    between the quotes they are the literal again. The literal with the
    body [a,b{c}] between double quotes is the instance of the claim. *)
Theorem quoted_literal_round_trip
    (rt : Runtime) (q : ascii) (body : string) :
  is_quote q = true ->
  forallb_str (ordinary q) body = true ->
  parseArguments rt (quoted q body) = [VStr body]
  /\ option_map displayResult (hd_error (parseArguments rt (quoted q body)))
     = Some (Some body)
  /\ (forall s, parseArguments rt (quoted q body) = [VStr s] ->
                quoted q s = quoted q body).
Proof.
  intros Hq Hall.
  pose proof (parseArguments_quoted rt q body Hq Hall) as E.
  split; [exact E | split].
  - rewrite E. reflexivity.
  - intros s Hs. rewrite E in Hs. inversion Hs. reflexivity.
Qed.

Lemma quoted_literal_round_trip_witness :
  parseArguments Demo.rt (quoted dquote "a,b{c}") = [VStr "a,b{c}"]
  /\ option_map displayResult
       (hd_error (parseArguments Demo.rt (quoted dquote "a,b{c}")))
     = Some (Some "a,b{c}")
  /\ (forall s, parseArguments Demo.rt (quoted dquote "a,b{c}") = [VStr s] ->
                quoted dquote s = quoted dquote "a,b{c}").
Proof.
  apply (quoted_literal_round_trip Demo.rt dquote "a,b{c}"); reflexivity.
Defined.

(* ------------------------------------------------------------------ *)
(** ** Sample runs *)

Example normalize_ex : normalize "  calendar.next(); " = "calendar.next()".
Proof. reflexivity. Qed.

Example unsafe_eval : option_map show_pattern (first_unsafe "EVAL  (1)") = Some "/eval\s*\(/i".
Proof. vm_compute. reflexivity. Qed.

Example unsafe_handler : option_map show_pattern (first_unsafe "a.b(onclick =1)") = Some "/on\w+\s*=/i".
Proof. vm_compute. reflexivity. Qed.

Example safe_call : first_unsafe "calendar.getEvents()" = None.
Proof. vm_compute. reflexivity. Qed.

Example number_ex1 : Num.of_literal "-12.50" = Fin (-25 # 2).
Proof. reflexivity. Qed.

Example number_ex2 : Num.of_string " 0x1F " = Fin 31.
Proof. reflexivity. Qed.

Example number_ex3 : Num.of_string "1.5e3" = Fin 1500 /\ Num.of_string ".e3" = NaN /\ Num.of_string "12px" = NaN.
Proof. repeat split; reflexivity. Qed.

Example show_ex : Num.show_Z 1700 = "1700" /\ Num.show_nat 0 = "0" /\ Num.show_nat 12 = "12".
Proof. repeat split; reflexivity. Qed.

Example classify_method :
  parseCommand Demo.rt "calendar.eventStore.getStats(1, 'a')"
  = Some (Method "calendar" (Some "eventStore") (Some "getStats")
            [VNum (Fin 1); VStr "a"]).
Proof. reflexivity. Qed.

Example classify_property :
  parseCommand Demo.rt "calendar.eventStore"
  = Some (Property "calendar" (Some "eventStore") None).
Proof. reflexivity. Qed.

Example classify_constructor :
  parseCommand Demo.rt "new Event({title: 'x'})"
  = Some (Constructor "Event" [VObj [("title", VStr "x")]]).
Proof. reflexivity. Qed.

Example classify_nothing :
  parseCommand Demo.rt "a.b.c.d()" = None /\ parseCommand Demo.rt "1 + 1" = None.
Proof. split; reflexivity. Qed.

Example coerce_dates :
  parseValue Demo.rt "new Date()" = VDate (DateOfMillis (Fin 1700000000000))
  /\ parseValue Demo.rt "new Date(Date.now() + 500)"
     = VDate (DateOfMillis (Fin 1700000000500))
  /\ parseValue Demo.rt "new Date('2024-01-01')" = VDate (DateOfText "2024-01-01").
Proof. repeat split; vm_compute; reflexivity. Qed.

Example coerce_fallback_object :
  parseValue Demo.rt "{a: 'p:q', b: new Date(5), __proto__: 2}"
  = VObj [("a", VStr "'p"); ("b", VDate (DateOfMillis (Fin 5)))].
Proof. vm_compute. reflexivity. Qed.

Example construct_allowed :
  run Demo.rt Demo.host "new Event({title: 'x'})" 0%nat
  = (Ok (HObj 100),
     (1%nat, [EGet Demo.root "Event";
              ENew Demo.EventClass [VObj [("title", VStr "x")]]])).
Proof. vm_compute. reflexivity. Qed.

Example inherited_scope :
  run Demo.rt Demo.host "calendar.toString()" 0%nat
  = (Throw "Command execution failed: allowedList.includes is not a function",
     (0%nat, [EGet Demo.root "calendar"; EGet Demo.calendar "toString"])).
Proof. vm_compute. reflexivity. Qed.

Example inherited_member_outside_scope :
  run Demo.rt Demo.host "calendar.eventStore.constructor()" 0%nat
  = (Throw "Command execution failed: Method 'constructor' is not allowed",
     (0%nat, [EGet Demo.root "calendar"; EGet Demo.calendar "eventStore";
              EGet Demo.eventStore "constructor"])).
Proof. vm_compute. reflexivity. Qed.

(* ------------------------------------------------------------------ *)
(** ** The matcher decides the language of the pattern *)

Section RegexFacts.

Lemma append_empty (s1 s2 : string) :
  (s1 ++ s2)%string = EmptyString -> s1 = EmptyString /\ s2 = EmptyString.
Proof. destruct s1; simpl; [auto | discriminate]. Qed.

Lemma nullable_lang r : nullable r = true <-> lang r EmptyString.
Proof.
  split.
  - induction r as [| | p | r1 IH1 r2 IH2 | r1 IH1 r2 IH2 | r IH]; simpl;
      intros Hn; try discriminate.
    + constructor.
    + apply andb_prop in Hn. destruct Hn as [H1 H2].
      apply (lang_seq r1 r2 EmptyString EmptyString); auto.
    + apply orb_prop in Hn.
      destruct Hn; [apply lang_alt_l | apply lang_alt_r]; auto.
    + constructor.
  - intros Hl. remember EmptyString as s eqn:Es.
    induction Hl as [| p c Hp | r1 r2 s1 s2 H1 IH1 H2 IH2 | r1 r2 s H1 IH1
                     | r1 r2 s H2 IH2 | r | r s1 s2 H1 IH1 H2 IH2]; simpl; auto.
    + discriminate Es.
    + apply append_empty in Es. destruct Es as [-> ->].
      rewrite IH1, IH2; auto.
    + rewrite IH1; auto.
    + rewrite IH2; auto. apply orb_true_r.
Qed.

Lemma lang_void s : ~ lang Void s.
Proof. intros Hl. inversion Hl. Qed.

Lemma lang_eps_inv s : lang Eps s -> s = EmptyString.
Proof. intros Hl. inversion Hl. reflexivity. Qed.

Lemma lang_seq_inv r1 r2 s :
  lang (Seq r1 r2) s ->
  exists s1 s2, s = (s1 ++ s2)%string /\ lang r1 s1 /\ lang r2 s2.
Proof. intros Hl. inversion Hl; subst. eauto. Qed.

Lemma lang_alt_inv r1 r2 s : lang (Alt r1 r2) s -> lang r1 s \/ lang r2 s.
Proof. intros Hl. inversion Hl; subst; auto. Qed.

(** The two constructors that simplify keep the language. *)
Lemma seq_lang r1 r2 s : lang (seq r1 r2) s <-> lang (Seq r1 r2) s.
Proof.
  assert (Hvoid_l : forall r, lang Void s <-> lang (Seq Void r) s).
  { intros r. split; intros Hl.
    - destruct (lang_void _ Hl).
    - apply lang_seq_inv in Hl. destruct Hl as (s1 & s2 & _ & Hl & _).
      destruct (lang_void _ Hl). }
  assert (Hvoid_r : forall r, lang Void s <-> lang (Seq r Void) s).
  { intros r. split; intros Hl.
    - destruct (lang_void _ Hl).
    - apply lang_seq_inv in Hl. destruct Hl as (s1 & s2 & _ & _ & Hl).
      destruct (lang_void _ Hl). }
  assert (Heps_l : forall r, lang r s <-> lang (Seq Eps r) s).
  { intros r. split; intros Hl.
    - apply (lang_seq Eps r EmptyString s); [constructor | exact Hl].
    - apply lang_seq_inv in Hl. destruct Hl as (s1 & s2 & -> & H1 & H2).
      apply lang_eps_inv in H1. subst. exact H2. }
  assert (Heps_r : forall r, lang r s <-> lang (Seq r Eps) s).
  { intros r. split; intros Hl.
    - rewrite <- (append_nil_r s).
      apply (lang_seq r Eps s EmptyString); [exact Hl | constructor].
    - apply lang_seq_inv in Hl. destruct Hl as (s1 & s2 & -> & H1 & H2).
      apply lang_eps_inv in H2. subst. rewrite append_nil_r. exact H1. }
  destruct r1; destruct r2; simpl; auto; reflexivity.
Qed.

Lemma alt_lang r1 r2 s : lang (alt r1 r2) s <-> lang (Alt r1 r2) s.
Proof.
  assert (Hl : forall r, lang r s <-> lang (Alt Void r) s).
  { intros r. split; intros Hl.
    - apply lang_alt_r. exact Hl.
    - apply lang_alt_inv in Hl. destruct Hl as [Hl | Hl]; auto.
      destruct (lang_void _ Hl). }
  assert (Hr : forall r, lang r s <-> lang (Alt r Void) s).
  { intros r. split; intros Hl'.
    - apply lang_alt_l. exact Hl'.
    - apply lang_alt_inv in Hl'. destruct Hl' as [Hl' | Hl']; auto.
      destruct (lang_void _ Hl'). }
  destruct r1; destruct r2; simpl; auto; reflexivity.
Qed.

(** A non-empty text of a starred expression begins with a non-empty
    text of the expression. *)
Lemma star_cons r c s :
  lang (Star r) (String c s) ->
  exists s1 s2,
    s = (s1 ++ s2)%string /\ lang r (String c s1) /\ lang (Star r) s2.
Proof.
  intros Hl. remember (Star r) as r' eqn:Er. remember (String c s) as x eqn:Ex.
  induction Hl as [| | | | | | r0 s1 s2 H1 _ H2 IH2]; try discriminate.
  inversion Er; subst r0.
  destruct s1 as [| d s1'].
  - simpl in Ex. apply IH2; auto.
  - simpl in Ex. inversion Ex; subst. eauto.
Qed.

Lemma deriv_lang c r : forall s, lang (deriv c r) s <-> lang r (String c s).
Proof.
  induction r as [| | p | r1 IH1 r2 IH2 | r1 IH1 r2 IH2 | r IH]; intros s;
    cbn [deriv].
  - split; intros Hl; destruct (lang_void _ Hl).
  - split; intros Hl; [destruct (lang_void _ Hl) | inversion Hl].
  - destruct (p c) eqn:Hp; split; intros Hl.
    + apply lang_eps_inv in Hl. subst. apply lang_cls. exact Hp.
    + inversion Hl; subst. constructor.
    + destruct (lang_void _ Hl).
    + inversion Hl; subst. congruence.
  - assert (Hleft : lang (seq (deriv c r1) r2) s ->
                    lang (Seq r1 r2) (String c s)).
    { intros Hl. apply seq_lang in Hl. apply lang_seq_inv in Hl.
      destruct Hl as (s1 & s2 & -> & H1 & H2).
      apply IH1 in H1. apply (lang_seq r1 r2 (String c s1) s2); assumption. }
    destruct (nullable r1) eqn:Hn; split; intros Hl.
    + apply alt_lang in Hl. apply lang_alt_inv in Hl.
      destruct Hl as [Hl | Hl]; [auto |].
      apply IH2 in Hl. apply nullable_lang in Hn.
      apply (lang_seq r1 r2 EmptyString (String c s)); assumption.
    + apply alt_lang. apply lang_seq_inv in Hl.
      destruct Hl as (s1 & s2 & Es & H1 & H2).
      destruct s1 as [| d s1'].
      * simpl in Es. subst s2. apply lang_alt_r. apply IH2. exact H2.
      * simpl in Es. inversion Es; subst. apply lang_alt_l. apply seq_lang.
        apply lang_seq; [apply IH1 |]; assumption.
    + auto.
    + apply seq_lang. apply lang_seq_inv in Hl.
      destruct Hl as (s1 & s2 & Es & H1 & H2).
      destruct s1 as [| d s1'].
      * apply nullable_lang in H1. congruence.
      * simpl in Es. inversion Es; subst.
        apply lang_seq; [apply IH1 |]; assumption.
  - split; intros Hl.
    + apply alt_lang in Hl. apply lang_alt_inv in Hl.
      destruct Hl as [Hl | Hl];
        [apply lang_alt_l; apply IH1 | apply lang_alt_r; apply IH2]; exact Hl.
    + apply alt_lang. apply lang_alt_inv in Hl.
      destruct Hl as [Hl | Hl];
        [apply lang_alt_l; apply IH1 | apply lang_alt_r; apply IH2]; exact Hl.
  - split; intros Hl.
    + apply seq_lang in Hl. apply lang_seq_inv in Hl.
      destruct Hl as (s1 & s2 & -> & H1 & H2).
      apply IH in H1. apply (lang_star_more r (String c s1) s2); assumption.
    + apply seq_lang. apply star_cons in Hl.
      destruct Hl as (s1 & s2 & -> & H1 & H2).
      apply lang_seq; [apply IH |]; assumption.
Qed.

(** The anchored match. *)
Lemma matches_lang s : forall r, matches r s = true <-> lang r s.
Proof.
  induction s as [| c s IH]; intros r; cbn [matches].
  - apply nullable_lang.
  - rewrite IH. apply deriv_lang.
Qed.

(** The match of some prefix. *)
Lemma match_here_lang s : forall r,
  match_here r s = true
  <-> exists found rest, s = (found ++ rest)%string /\ lang r found.
Proof.
  induction s as [| c s IH]; intros r; cbn [match_here].
  - rewrite orb_false_r, nullable_lang. split.
    + intros Hl. exists EmptyString, EmptyString. auto.
    + intros (found & rest & Es & Hl). symmetry in Es.
      apply append_empty in Es. destruct Es as [-> _]. exact Hl.
  - split.
    + intros Hm. apply orb_prop in Hm. destruct Hm as [Hn | Hm].
      * exists EmptyString, (String c s). split; [reflexivity |].
        apply nullable_lang. exact Hn.
      * apply IH in Hm. destruct Hm as (found & rest & -> & Hl).
        exists (String c found), rest. split; [reflexivity |].
        apply deriv_lang. exact Hl.
    + intros (found & rest & Es & Hl). apply orb_true_iff.
      destruct found as [| d found'].
      * left. apply nullable_lang. exact Hl.
      * right. simpl in Es. inversion Es; subst. apply IH.
        exists found', rest. split; [reflexivity |].
        apply deriv_lang. exact Hl.
Qed.

(** [test] finds a match wherever one starts. *)
Lemma test_lang s : forall r,
  test r s = true
  <-> exists before found rest,
        s = (before ++ found ++ rest)%string /\ lang r found.
Proof.
  induction s as [| c s IH]; intros r; cbn [test].
  - rewrite orb_false_r, match_here_lang. split.
    + intros (found & rest & Es & Hl). exists EmptyString, found, rest. auto.
    + intros (before & found & rest & Es & Hl). symmetry in Es.
      apply append_empty in Es. destruct Es as [-> Es].
      exists found, rest. auto.
  - split.
    + intros Ht. apply orb_prop in Ht. destruct Ht as [Hm | Ht].
      * apply match_here_lang in Hm. destruct Hm as (found & rest & Es & Hl).
        exists EmptyString, found, rest. auto.
      * apply IH in Ht. destruct Ht as (before & found & rest & -> & Hl).
        exists (String c before), found, rest. auto.
    + intros (before & found & rest & Es & Hl). apply orb_true_iff.
      destruct before as [| d before'].
      * left. apply match_here_lang. exists found, rest. auto.
      * right. simpl in Es. inversion Es; subst. apply IH.
        exists before', found, rest. auto.
Qed.

End RegexFacts.

(** On the samples the recognizers of the classifier and the regular
    expressions of the source agree. *)
Example recognizers_agree_on_samples :
  forallb
    (fun t =>
       Bool.eqb (is_some (methodMatch t)) (matches method_re t)
       && Bool.eqb (is_some (propMatch t)) (matches property_re t)
       && Bool.eqb (is_some (constructor_match t)) (matches constructor_re t))
    shape_samples = true.
Proof. vm_compute. reflexivity. Qed.

Example decoder_samples :
  Json.decode "[1, 2.5, true, null, {}]"
  = Some (VArr [VNum (Fin 1); VNum (Fin (5 # 2)); VBool true; VNull; VObj []])
  /\ Json.decode "[1, 2,]" = None
  /\ Json.decode "01" = None
  /\ Json.decode "[1 2]" = None
  /\ Json.decode "{}x" = None
  /\ Json.decode "" = None
  /\ Json.decode " [ ] " = Some (VArr []).
Proof. repeat split; vm_compute; reflexivity. Qed.

(* ------------------------------------------------------------------ *)
(** ** The recognizers of the classifier and the patterns of the source *)

Section ClassifierFacts.

Lemma span_spec p s : forall a b,
  span p s = (a, b) ->
  s = (a ++ b)%string /\ forallb_str p a = true /\ stops p b.
Proof.
  induction s as [| c s IH]; intros a b; cbn [span].
  - intros E; inversion E; subst. simpl. auto.
  - destruct (p c) eqn:Hp.
    + destruct (span p s) as [a' b'] eqn:Es.
      intros E; inversion E; subst.
      destruct (IH a' b eq_refl) as (-> & Ha & Hb).
      cbn [append forallb_str]. rewrite Hp, Ha. auto.
    + intros E; inversion E; subst. simpl. auto.
Qed.

Lemma span_append p a : forall b,
  forallb_str p a = true -> stops p b -> span p (a ++ b) = (a, b).
Proof.
  induction a as [| c a IH]; intros b Ha Hb.
  - destruct b as [| d b]; [reflexivity |].
    simpl in Hb. cbn [append span]. rewrite Hb. reflexivity.
  - cbn [forallb_str] in Ha. apply andb_prop in Ha. destruct Ha as [Hc Ha].
    cbn [append span]. rewrite Hc, (IH b Ha Hb). reflexivity.
Qed.

Lemma lang_cls_inv p s : lang (Cls p) s -> exists c, s = str1 c /\ p c = true.
Proof. intros Hl. inversion Hl; subst. eauto. Qed.

Lemma lang_chr_inv c s : lang (chr c) s -> s = str1 c.
Proof.
  intros Hl. apply lang_cls_inv in Hl. destruct Hl as (d & -> & Hd).
  apply Ascii.eqb_eq in Hd. subst. reflexivity.
Qed.

Lemma lang_chr c : lang (chr c) (str1 c).
Proof. apply lang_cls. apply Ascii.eqb_refl. Qed.

Lemma star_cls_lang p s : forallb_str p s = true <-> lang (Star (Cls p)) s.
Proof.
  split.
  - induction s as [| c s IH]; cbn [forallb_str]; intros Hall.
    + constructor.
    + apply andb_prop in Hall. destruct Hall as [Hc Hs].
      apply (lang_star_more (Cls p) (str1 c) s); [apply lang_cls | apply IH];
        assumption.
  - intros Hl. remember (Star (Cls p)) as r eqn:Er.
    induction Hl as [| | | | | | r0 s1 s2 H1 _ H2 IH2]; try discriminate.
    + reflexivity.
    + inversion Er; subst r0. apply lang_cls_inv in H1.
      destruct H1 as (c & -> & Hc). cbn [str1 append forallb_str].
      rewrite Hc, (IH2 eq_refl). reflexivity.
Qed.

Lemma plus_cls_lang p s :
  (is_empty s = false /\ forallb_str p s = true) <-> lang (plus (Cls p)) s.
Proof.
  unfold plus. split.
  - intros [Hne Hall]. destruct s as [| c s]; [discriminate |].
    cbn [forallb_str] in Hall. apply andb_prop in Hall.
    destruct Hall as [Hc Hs].
    apply (lang_seq (Cls p) (Star (Cls p)) (str1 c) s);
      [apply lang_cls | apply star_cls_lang]; assumption.
  - intros Hl. apply lang_seq_inv in Hl.
    destruct Hl as (s1 & s2 & -> & H1 & H2).
    apply lang_cls_inv in H1. destruct H1 as (c & -> & Hc).
    apply star_cls_lang in H2. cbn [str1 append forallb_str is_empty].
    rewrite Hc, H2. auto.
Qed.

Lemma ends_with_split c r :
  endsWith c r = true -> r = (drop_last r ++ str1 c)%string.
Proof.
  unfold endsWith. induction r as [| d r IH]; [discriminate |].
  cbn [last_char drop_last]. destruct r as [| e r'].
  - intros Hd. apply Ascii.eqb_eq in Hd. subst. reflexivity.
  - intros Hl. cbn [append]. f_equal. apply IH. exact Hl.
Qed.

(** The tail of a call. *)
Lemma call_args_lang s : is_some (call_args s) = true <-> lang call_re s.
Proof.
  change call_re with (Seq (chr "(") (Seq (Star dot_char) (chr ")"))).
  split.
  - unfold call_args. destruct s as [| c r]; [discriminate |].
    destruct (Ascii.eqb_spec c "("%char) as [-> | Hc].
    + destruct (endsWith ")" r) eqn:He; [| discriminate].
      destruct (forallb_str (fun c => negb (is_line_terminator c)) (drop_last r))
        eqn:Hd; [| discriminate].
      intros _. rewrite (ends_with_split _ _ He).
      apply (lang_seq (chr "(") _ (str1 "(")); [apply lang_chr |].
      apply lang_seq; [apply star_cls_lang; exact Hd | apply lang_chr].
    + intros E. exfalso.
      destruct c as [[] [] [] [] [] [] [] []]; try discriminate E.
      apply Hc. reflexivity.
  - intros Hl. apply lang_seq_inv in Hl.
    destruct Hl as (s1 & s2 & -> & H1 & H2).
    apply lang_chr_inv in H1. subst s1.
    apply lang_seq_inv in H2. destruct H2 as (m & e & -> & Hm & He).
    apply lang_chr_inv in He. subst e. apply star_cls_lang in Hm.
    cbn [str1 append call_args]. unfold endsWith.
    rewrite last_char_append, drop_last_append. unfold dot_char in Hm.
    rewrite Hm. reflexivity.
Qed.

Lemma word_not_space c : is_word c = true -> is_space c = false.
Proof.
  destruct c as [[] [] [] [] [] [] [] []]; intros E;
    solve [reflexivity | discriminate E].
Qed.

Lemma segment_inv g :
  lang segment g ->
  g = EmptyString
  \/ exists w, g = String "." w /\ is_empty w = false
               /\ forallb_str is_word w = true.
Proof.
  unfold segment, opt. intros Hl. apply lang_alt_inv in Hl.
  destruct Hl as [Hl | Hl].
  - left. apply lang_eps_inv. exact Hl.
  - right. apply lang_seq_inv in Hl. destruct Hl as (d & w & -> & Hd & Hw).
    apply lang_chr_inv in Hd. subst d. apply plus_cls_lang in Hw.
    destruct Hw as [Hne Hall]. exists w. auto.
Qed.

Lemma dotted_segment w rest :
  is_empty w = false -> forallb_str is_word w = true -> stops is_word rest ->
  dotted (String "." (w ++ rest)) = (Some w, rest).
Proof.
  intros Hne Hall Hstop. unfold dotted.
  rewrite (span_append is_word w rest Hall Hstop), Hne. reflexivity.
Qed.

Lemma ends_path_stops s : ends_path s -> stops is_word s.
Proof. destruct s; simpl; tauto. Qed.

Lemma dotted_none s : ends_path s -> dotted s = (None, s).
Proof.
  destruct s as [| c s]; [reflexivity |]. simpl. intros [_ Hc].
  destruct c as [[] [] [] [] [] [] [] []]; try reflexivity.
  contradiction Hc; reflexivity.
Qed.

Lemma dotted_spec s o r :
  dotted s = (o, r) ->
  exists g, s = (g ++ r)%string /\ lang segment g.
Proof.
  unfold dotted, segment, opt.
  assert (Hnone : (None, s) = (o, r) ->
                  exists g, s = (g ++ r)%string
                            /\ lang (Alt Eps (Seq (chr ".") (plus word))) g).
  { intros E; inversion E; subst. exists EmptyString.
    split; [reflexivity | apply lang_alt_l; constructor]. }
  destruct s as [| c s']; [exact Hnone |].
  destruct (Ascii.eqb_spec c "."%char) as [-> | Hc].
  - destruct (span is_word s') as [w r'] eqn:Es.
    destruct (span_spec _ _ _ _ Es) as (-> & Hall & _).
    destruct (is_empty w) eqn:Hw; [exact Hnone |].
    intros E; inversion E; subst.
    exists (String "." w). split; [reflexivity |].
    apply lang_alt_r.
    apply (lang_seq (chr ".") (plus word) (str1 ".") w);
      [apply lang_chr | apply plus_cls_lang; auto].
  - intros E. apply Hnone.
    destruct c as [[] [] [] [] [] [] [] []]; try exact E.
    contradiction Hc; reflexivity.
Qed.

Lemma path_spec s o p1 p2 rest :
  path s = Some (o, p1, p2, rest) ->
  exists pre, s = (pre ++ rest)%string /\ lang path_re pre.
Proof.
  change path_re with (Seq (plus word) (Seq segment segment)).
  unfold path. destruct (span is_word s) as [w r0] eqn:Es.
  destruct (span_spec _ _ _ _ Es) as (-> & Hall & _).
  destruct (is_empty w) eqn:Hw; [discriminate |].
  destruct (dotted r0) as [q1 r1] eqn:E1.
  destruct (dotted r1) as [q2 r2] eqn:E2.
  intros E; injection E as <- <- <- <-.
  destruct (dotted_spec _ _ _ E1) as (g1 & -> & Hg1).
  destruct (dotted_spec _ _ _ E2) as (g2 & -> & Hg2).
  exists (w ++ (g1 ++ g2))%string. split.
  - rewrite !append_assoc. reflexivity.
  - apply lang_seq; [apply plus_cls_lang; auto | apply lang_seq; assumption].
Qed.

Lemma path_complete pre rest :
  lang path_re pre -> ends_path rest ->
  exists o p1 p2, path (pre ++ rest) = Some (o, p1, p2, rest).
Proof.
  change path_re with (Seq (plus word) (Seq segment segment)).
  intros Hl Hrest. apply lang_seq_inv in Hl.
  destruct Hl as (w & g & -> & Hw & Hg).
  apply plus_cls_lang in Hw. destruct Hw as [Hne Hall].
  apply lang_seq_inv in Hg. destruct Hg as (g1 & g2 & -> & Hg1 & Hg2).
  apply segment_inv in Hg1. apply segment_inv in Hg2.
  pose proof (ends_path_stops _ Hrest) as Hstop.
  assert (Hdot : forall x, stops is_word (String "." x)) by (intros; reflexivity).
  unfold path. rewrite !append_assoc.
  destruct Hg1 as [-> | (w1 & -> & Hne1 & Hall1)];
    destruct Hg2 as [-> | (w2 & -> & Hne2 & Hall2)]; cbn [append].
  - rewrite (span_append is_word w rest Hall Hstop), Hne.
    rewrite (dotted_none rest Hrest). rewrite (dotted_none rest Hrest). eauto.
  - rewrite (span_append is_word w _ Hall (Hdot _)), Hne.
    rewrite (dotted_segment w2 rest Hne2 Hall2 Hstop).
    rewrite (dotted_none rest Hrest). eauto.
  - rewrite (span_append is_word w _ Hall (Hdot _)), Hne.
    rewrite (dotted_segment w1 rest Hne1 Hall1 Hstop).
    rewrite (dotted_none rest Hrest). eauto.
  - rewrite (span_append is_word w _ Hall (Hdot _)), Hne.
    rewrite (dotted_segment w1 _ Hne1 Hall1 (Hdot _)).
    rewrite (dotted_segment w2 rest Hne2 Hall2 Hstop). eauto.
Qed.

Lemma call_ends_path s : lang call_re s -> ends_path s.
Proof.
  change call_re with (Seq (chr "(") (Seq (Star dot_char) (chr ")"))).
  intros Hl. apply lang_seq_inv in Hl. destruct Hl as (s1 & s2 & -> & H1 & _).
  apply lang_chr_inv in H1. subst. simpl. split; [reflexivity | discriminate].
Qed.

(** [methodMatch] succeeds exactly on the texts of the method pattern. *)
Theorem methodMatch_recognizes command :
  is_some (methodMatch command) = matches method_re command.
Proof.
  apply eq_true_iff_eq. rewrite matches_lang. unfold method_re, methodMatch.
  split.
  - destruct (path command) as [[[[o p1] p2] rest] |] eqn:Ep; [| discriminate].
    destruct (path_spec _ _ _ _ _ Ep) as (pre & -> & Hpre).
    destruct (call_args rest) as [a |] eqn:Ea; [| discriminate].
    intros _. apply lang_seq; [exact Hpre |].
    apply call_args_lang. rewrite Ea. reflexivity.
  - intros Hl. apply lang_seq_inv in Hl.
    destruct Hl as (pre & rest & -> & Hpre & Hcall).
    destruct (path_complete pre rest Hpre (call_ends_path _ Hcall))
      as (o & p1 & p2 & ->).
    apply call_args_lang in Hcall.
    destruct (call_args rest); [reflexivity | discriminate Hcall].
Qed.

(** [propMatch] succeeds exactly on the texts of the property pattern. *)
Theorem propMatch_recognizes command :
  is_some (propMatch command) = matches property_re command.
Proof.
  apply eq_true_iff_eq. rewrite matches_lang. unfold property_re, propMatch.
  split.
  - destruct (path command) as [[[[o p1] p2] rest] |] eqn:Ep; [| discriminate].
    destruct (path_spec _ _ _ _ _ Ep) as (pre & -> & Hpre).
    destruct rest; [| discriminate].
    intros _. rewrite append_nil_r. exact Hpre.
  - intros Hl.
    destruct (path_complete command EmptyString Hl I) as (o & p1 & p2 & E).
    rewrite append_nil_r in E. rewrite E. reflexivity.
Qed.

(** [constructor_match] succeeds exactly on the texts of the constructor
    pattern. *)
Theorem constructor_match_recognizes command :
  is_some (constructor_match command) = matches constructor_re command.
Proof.
  apply eq_true_iff_eq. rewrite matches_lang.
  change constructor_re
    with (Seq (Seq (chr "n") (Seq (chr "e") (chr "w")))
              (Seq (plus space) (Seq (plus word) call_re))).
  unfold constructor_match. split.
  - destruct command as [| c1 [| c2 [| c3 r]]]; try discriminate.
    + destruct c1 as [[] [] [] [] [] [] [] []]; discriminate.
    + destruct c1 as [[] [] [] [] [] [] [] []]; try discriminate;
        destruct c2 as [[] [] [] [] [] [] [] []]; discriminate.
    + destruct (Ascii.eqb_spec c1 "n"%char) as [-> | H1];
        [| intros E; exfalso;
           destruct c1 as [[] [] [] [] [] [] [] []]; try discriminate E;
           apply H1; reflexivity].
      destruct (Ascii.eqb_spec c2 "e"%char) as [-> | H2];
        [| intros E; exfalso;
           destruct c2 as [[] [] [] [] [] [] [] []]; try discriminate E;
           apply H2; reflexivity].
      destruct (Ascii.eqb_spec c3 "w"%char) as [-> | H3];
        [| intros E; exfalso;
           destruct c3 as [[] [] [] [] [] [] [] []]; try discriminate E;
           apply H3; reflexivity].
      destruct (span is_space r) as [b r1] eqn:Eb.
      destruct (span_spec _ _ _ _ Eb) as (-> & Hb & _).
      destruct (is_empty b) eqn:Hbe; [discriminate |].
      destruct (span is_word r1) as [w r2] eqn:Ew.
      destruct (span_spec _ _ _ _ Ew) as (-> & Hw & _).
      destruct (is_empty w) eqn:Hwe; [discriminate |].
      destruct (call_args r2) as [a |] eqn:Ea; [| discriminate].
      intros _.
      apply (lang_seq _ _ "new" (b ++ (w ++ r2))).
      * apply (lang_seq (chr "n") _ "n" "ew"); [apply lang_chr |].
        apply (lang_seq (chr "e") (chr "w") "e" "w"); apply lang_chr.
      * apply lang_seq; [apply plus_cls_lang; auto |].
        apply lang_seq; [apply plus_cls_lang; auto |].
        apply call_args_lang. rewrite Ea. reflexivity.
  - intros Hl. apply lang_seq_inv in Hl.
    destruct Hl as (k & t & -> & Hk & Ht).
    apply lang_seq_inv in Hk. destruct Hk as (k1 & k23 & -> & Hk1 & Hk23).
    apply lang_seq_inv in Hk23. destruct Hk23 as (k2 & k3 & -> & Hk2 & Hk3).
    apply lang_chr_inv in Hk1, Hk2, Hk3. subst k1 k2 k3.
    apply lang_seq_inv in Ht. destruct Ht as (b & t' & -> & Hb & Ht').
    apply lang_seq_inv in Ht'. destruct Ht' as (w & c & -> & Hw & Hc).
    apply plus_cls_lang in Hb, Hw.
    destruct Hb as [Hbe Hb]. destruct Hw as [Hwe Hw].
    cbn [str1 append].
    assert (Hstop_w : stops is_space (w ++ c)).
    { destruct w as [| d w']; [discriminate |].
      cbn [forallb_str] in Hw. apply andb_prop in Hw. destruct Hw as [Hd _].
      simpl. apply word_not_space. exact Hd. }
    rewrite (span_append is_space b _ Hb Hstop_w), Hbe.
    rewrite (span_append is_word w c Hw (ends_path_stops _ (call_ends_path _ Hc))).
    rewrite Hwe. apply call_args_lang in Hc.
    destruct (call_args c); [reflexivity | discriminate Hc].
Qed.

End ClassifierFacts.

(** ** What a run records *)

Section Effects.

Context (rt : Runtime) (H : Host).

Lemma executeProperty_reads object property subProperty w :
  forallb is_get (trace_of (executeProperty H object property subProperty (w, [])))
  = true
  /\ (List.length (trace_of (executeProperty H object property subProperty (w, [])))
      <= 3)%nat.
Proof.
  unfold executeProperty, trace_of. run_host H; cbn; split; (reflexivity || lia).
Qed.




Lemma execute_trace command s :
  trace_of (execute rt H command s)
  = match first_unsafe (normalize command) with
    | Some _ => snd s
    | None =>
        match parseCommand rt (normalize command) with
        | None => snd s
        | Some p => trace_of (dispatch H p s)
        end
    end.
Proof.
  unfold execute, try_catch, bind, validateSafety, trace_of.
  destruct (first_unsafe (normalize command)); [reflexivity |].
  cbn. destruct (parseCommand rt (normalize command)) as [p |]; [| reflexivity].
  destruct (dispatch H p s) as [[a | e] s']; reflexivity.
Qed.


End Effects.

(** ** More on method calls *)

Section MoreMethodCalls.

Context (rt : Runtime) (H : Host).

Lemma three_segment_call_outside_scopes
    command object prop sub args w root w1 target w2 f w3 root' w4 receiver w5 r w6 :
  classifies rt command (Method object (Some prop) (Some sub) args) ->
  host_get H (context H) object w = (Ok root, w1) ->
  truthy root = true ->
  host_get H root prop w1 = (Ok target, w2) ->
  truthy target = true ->
  host_get H target sub w2 = (Ok (HFun f), w3) ->
  allow_or (allowedMethods prop) (allowedMethods object) = Missing ->
  host_get H (context H) object w3 = (Ok root', w4) ->
  host_get H root' prop w4 = (Ok receiver, w5) ->
  host_call H (HFun f) receiver args w5 = (r, w6) ->
  run rt H command w
  = wrapped (r, (w6, [EGet (context H) object; EGet root prop; EGet target sub;
                      EGet (context H) object; EGet root' prop;
                      ECall (HFun f) receiver args])).
Proof.
  intros Hc Hroot Ht Hprop Ht' Hsub Hlist Hroot' Hrecv Hcall.
  destruct (parsed_method_captures _ _ _ _ _ _ (proj2 Hc)) as [Hp Hs].
  specialize (Hp prop eq_refl). specialize (Hs sub eq_refl).
  unfold run. rewrite (execute_classified rt H _ _ _ Hc).
  unfold dispatch, executeMethod, or_else. drive H. reflexivity.
Qed.

Lemma root_call_outside_scopes
    command object args w f w1 receiver w2 r w3 :
  classifies rt command (Method object None None args) ->
  host_get H (context H) object w = (Ok (HFun f), w1) ->
  allowedMethods object = Missing ->
  host_get H (context H) object w1 = (Ok receiver, w2) ->
  host_call H (HFun f) receiver args w2 = (r, w3) ->
  run rt H command w
  = wrapped (r, (w3, [EGet (context H) object; EGet (context H) object;
                      ECall (HFun f) receiver args])).
Proof.
  intros Hc Hroot Hlist Hrecv Hcall.
  assert (Hn : present None = false) by reflexivity.
  assert (Hu : allowedMethods "undefined" = Missing) by reflexivity.
  unfold run. rewrite (execute_classified rt H _ _ _ Hc).
  unfold dispatch, executeMethod, or_else. drive H. cbn [truthy negb].
  drive H. cbn [allow_or]. drive H. reflexivity.
Qed.

Lemma root_call_inside_scope
    command object args names w f w1 :
  classifies rt command (Method object None None args) ->
  host_get H (context H) object w = (Ok (HFun f), w1) ->
  allowedMethods object = Scope names ->
  run rt H command w
  = (Throw "Command execution failed: Method 'undefined' is not allowed",
     (w1, [EGet (context H) object])).
Proof.
  intros Hc Hroot Hlist.
  assert (Hn : present None = false) by reflexivity.
  assert (Hu : allowedMethods "undefined" = Missing) by reflexivity.
  pose proof (allowed_lists_lack_call _ _ Hlist) as Hcall.
  unfold run. rewrite (execute_classified rt H _ _ _ Hc).
  unfold dispatch, executeMethod, or_else. drive H. cbn [truthy negb].
  drive H. cbn [allow_or]. drive H. reflexivity.
Qed.

End MoreMethodCalls.

(** ** Texts that the classifier does not read *)

Lemma space_not_word c : is_space c = true -> is_word c = false.
Proof.
  intros Hs. destruct (is_word c) eqn:Hw; [| reflexivity].
  rewrite (word_not_space c Hw) in Hs. discriminate Hs.
Qed.

Lemma space_not_dot c : is_space c = true -> c <> "."%char.
Proof. intros Hs ->. discriminate Hs. Qed.

Lemma constructor_match_head s x :
  constructor_match s = Some x ->
  exists b r, s = String "n" (String "e" (String "w" (String b r)))
              /\ is_space b = true.
Proof.
  unfold constructor_match.
  destruct s as [| c1 s]; [intros E; discriminate E |]. intros E.
  destruct c1 as [[] [] [] [] [] [] [] []]; try discriminate E.
  destruct s as [| c2 s]; [discriminate E |].
  destruct c2 as [[] [] [] [] [] [] [] []]; try discriminate E.
  destruct s as [| c3 r]; [discriminate E |].
  destruct c3 as [[] [] [] [] [] [] [] []]; try discriminate E.
  destruct (span is_space r) as [blanks r1] eqn:Es.
  destruct (span_spec _ _ _ _ Es) as (-> & Hall & _).
  destruct blanks as [| b bl]; [discriminate E |].
  cbn [forallb_str] in Hall. apply andb_prop in Hall as [Hb _].
  exists b, (bl ++ r1)%string. split; [reflexivity | exact Hb].
Qed.

Lemma path_of_constructor b r :
  is_space b = true ->
  path (String "n" (String "e" (String "w" (String b r))))
  = Some ("new", None, None, String b r).
Proof.
  intros Hb. unfold path.
  change (String "n" (String "e" (String "w" (String b r))))
    with ("new" ++ String b r)%string.
  rewrite (span_append is_word "new" (String b r) eq_refl (space_not_word b Hb)).
  cbn [is_empty].
  rewrite (dotted_none (String b r)); [| split; [apply space_not_word | apply space_not_dot]; exact Hb].
  rewrite (dotted_none (String b r)); [| split; [apply space_not_word | apply space_not_dot]; exact Hb].
  reflexivity.
Qed.

Lemma append_cancel_r (a : string) : forall b x : string,
  (a ++ x)%string = (b ++ x)%string -> a = b.
Proof.
  induction a as [| c a IH]; intros b x E.
  - destruct b as [| d b]; [reflexivity |].
    cbn [append] in E. apply (f_equal String.length) in E.
    cbn [String.length] in E. rewrite length_append in E. lia.
  - destruct b as [| d b].
    + cbn [append] in E. apply (f_equal String.length) in E.
      cbn [String.length] in E. rewrite length_append in E. lia.
    + cbn [append] in E. injection E as -> E. f_equal. eapply IH; eauto.
Qed.

(** After the path, only an opening parenthesis or the end of the text
    can lead to a shape of the classifier, or a blank when the path is
    the word [new]. *)
Lemma path_rest_unread rt pre o p1 p2 c rest :
  path (pre ++ String c rest) = Some (o, p1, p2, String c rest) ->
  c <> "("%char -> (is_space c = true -> pre <> "new"%string) ->
  parseCommand rt (pre ++ String c rest) = None.
Proof.
  intros Hp Hc Hs. unfold parseCommand, methodMatch, propMatch. rewrite Hp.
  assert (Hcall : call_args (String c rest) = None).
  { unfold call_args. destruct (Ascii.eqb_spec c "("%char) as [-> | Hne].
    - contradiction Hc; reflexivity.
    - destruct c as [[] [] [] [] [] [] [] []]; try reflexivity.
      contradiction Hne; reflexivity. }
  rewrite Hcall. cbn [is_empty].
  destruct (constructor_match (pre ++ String c rest)) as [[cl a] |] eqn:Ec;
    [| reflexivity].
  destruct (constructor_match_head _ _ Ec) as (b & r & E & Hb).
  rewrite E in Hp. rewrite (path_of_constructor b r Hb) in Hp.
  injection Hp as _ _ _ <- <-.
  contradiction (Hs Hb).
  apply (append_cancel_r pre "new" (String b r)). exact E.
Qed.

Lemma path_three_segments a b c rest :
  is_empty a = false -> forallb_str is_word a = true ->
  is_empty b = false -> forallb_str is_word b = true ->
  is_empty c = false -> forallb_str is_word c = true ->
  stops is_word rest ->
  path (a ++ String "." (b ++ String "." (c ++ rest)))
  = Some (a, Some b, Some c, rest).
Proof.
  intros Ha Wa Hb Wb Hc Wc Hrest. unfold path.
  rewrite (span_append is_word a _ Wa) by reflexivity. rewrite Ha.
  rewrite (dotted_segment b _ Hb Wb) by reflexivity.
  rewrite (dotted_segment c _ Hc Wc Hrest). reflexivity.
Qed.

(** ** Further properties of the dispatcher *)


(** X2. A command that is read as a property access only reads: its trace
    holds at most three events, none of them a call or a construction. *)
Theorem property_access_only_reads
    (rt : Runtime) (H : Host) (command object : string)
    (property subProperty : option string) (w : World H) :
  classifies rt command (Property object property subProperty) ->
  forallb is_get (trace_of (run rt H command w)) = true
  /\ (List.length (trace_of (run rt H command w)) <= 3)%nat.
Proof.
  intros Hc. unfold run. rewrite execute_trace.
  destruct Hc as [-> ->]. apply executeProperty_reads.
Qed.

Lemma property_access_only_reads_witness :
  forallb is_get (trace_of (run Demo.rt Demo.host "calendar.eventStore.size" 0%nat))
  = true
  /\ (List.length (trace_of (run Demo.rt Demo.host "calendar.eventStore.size" 0%nat))
      <= 3)%nat.
Proof.
  apply (property_access_only_reads Demo.rt Demo.host "calendar.eventStore.size"
           "calendar" (Some "eventStore") (Some "size") 0%nat).
  split; vm_compute; reflexivity.
Defined.

(** X3. A call with three segments [object.prop.sub(args)] whose last
    segment is a function and passes the allow-list check (no list applies
    to [prop] or [object], or the one that applies holds [sub]) is made
    exactly once, with the arguments as coerced, on the receiver
    [context[object][prop]] read again from the context, and [execute]
    returns what the call returns. *)
Theorem listed_sub_method_is_invoked_once
    (rt : Runtime) (H : Host) (command object prop sub : string)
    (args : list value)
    (w w1 w2 w3 w4 w5 w6 : World H) (root target root' receiver result : hval)
    (f : nat) :
  classifies rt command (Method object (Some prop) (Some sub) args) ->
  host_get H (context H) object w = (Ok root, w1) ->
  truthy root = true ->
  host_get H root prop w1 = (Ok target, w2) ->
  truthy target = true ->
  host_get H target sub w2 = (Ok (HFun f), w3) ->
  permits (allow_or (allowedMethods prop) (allowedMethods object)) sub = true ->
  host_get H (context H) object w3 = (Ok root', w4) ->
  host_get H root' prop w4 = (Ok receiver, w5) ->
  host_call H (HFun f) receiver args w5 = (Ok result, w6) ->
  run rt H command w
  = (Ok result,
     (w6, [EGet (context H) object; EGet root prop; EGet target sub;
           EGet (context H) object; EGet root' prop;
           ECall (HFun f) receiver args])).
Proof.
  intros Hc Hroot Ht Hprop Ht' Hsub Hperm Hroot' Hrecv Hcall.
  destruct (allow_or (allowedMethods prop) (allowedMethods object))
    as [names | |] eqn:Hlist.
  - eapply three_segment_call_is_made; eauto.
  - discriminate Hperm.
  - rewrite (three_segment_call_outside_scopes rt H command object prop sub args
               w root w1 target w2 f w3 root' w4 receiver w5 (Ok result) w6);
      auto.
Qed.

Lemma listed_sub_method_is_invoked_once_witness :
  run Demo.rt Demo.host "calendar.eventStore.getStats(1, 2);" 0%nat
  = (Ok (HLit (VNum (Fin 2))),
     (1%nat, [EGet Demo.root "calendar"; EGet Demo.calendar "eventStore";
              EGet Demo.eventStore "getStats";
              EGet Demo.root "calendar"; EGet Demo.calendar "eventStore";
              ECall Demo.getStats Demo.eventStore [VNum (Fin 1); VNum (Fin 2)]])).
Proof.
  apply (listed_sub_method_is_invoked_once Demo.rt Demo.host
           "calendar.eventStore.getStats(1, 2);" "calendar" "eventStore" "getStats"
           [VNum (Fin 1); VNum (Fin 2)]
           0%nat 0%nat 0%nat 0%nat 0%nat 0%nat 1%nat
           Demo.calendar Demo.eventStore Demo.calendar Demo.eventStore
           (HLit (VNum (Fin 2))) 11).
  - split; vm_compute; reflexivity.
  - reflexivity.
  - reflexivity.
  - reflexivity.
  - reflexivity.
  - reflexivity.
  - reflexivity.
  - reflexivity.
  - reflexivity.
  - reflexivity.
Defined.

(** X4. A call with three segments whose last segment is a function that
    the applicable list does not hold is refused with the error that names
    that segment; the trace holds the three reads and no call. *)
Theorem unlisted_sub_method_is_forbidden
    (rt : Runtime) (H : Host) (command object prop sub : string)
    (args : list value) (names : list string)
    (w w1 w2 w3 : World H) (root target : hval) (f : nat) :
  classifies rt command (Method object (Some prop) (Some sub) args) ->
  host_get H (context H) object w = (Ok root, w1) ->
  truthy root = true ->
  host_get H root prop w1 = (Ok target, w2) ->
  truthy target = true ->
  host_get H target sub w2 = (Ok (HFun f), w3) ->
  allow_or (allowedMethods prop) (allowedMethods object) = Scope names ->
  mem sub names = false ->
  run rt H command w
  = (Throw ("Command execution failed: Method '" ++ sub ++ "' is not allowed"),
     (w3, [EGet (context H) object; EGet root prop; EGet target sub])).
Proof.
  intros Hc Hroot Ht Hprop Ht' Hsub Hlist Hmem.
  destruct (parsed_method_captures _ _ _ _ _ _ (proj2 Hc)) as [Hp Hs].
  specialize (Hp prop eq_refl). specialize (Hs sub eq_refl).
  unfold run. rewrite (execute_classified rt H _ _ _ Hc).
  unfold dispatch, executeMethod, or_else. drive H. reflexivity.
Qed.

Lemma unlisted_sub_method_is_forbidden_witness :
  (exists names, allowedMethods "EventStore" = Scope names
                 /\ mem "query" names = true)
  /\ run Demo.rt App.host "calendar.eventStore.query({})" 0%nat
     = (Throw "Command execution failed: Method 'query' is not allowed",
        (0%nat, [EGet App.root "calendar"; EGet App.calendar "eventStore";
                 EGet App.eventStore "query"])).
Proof.
  split; [eexists; split; reflexivity |].
  refine (unlisted_sub_method_is_forbidden Demo.rt App.host
            "calendar.eventStore.query({})" "calendar" "eventStore" "query"
            [VObj []] _ 0%nat 0%nat 0%nat 0%nat App.calendar App.eventStore 28
            _ _ _ _ _ _ _ _).
  - split; vm_compute; reflexivity.
  - reflexivity.
  - reflexivity.
  - reflexivity.
  - reflexivity.
  - reflexivity.
  - reflexivity.
  - reflexivity.
Defined.



(** X6. A call with one segment [name(args)] to a function of the context.
    If the table of allow-lists has no entry under [name], the function is
    called once, with itself (read again) as receiver. If [name] is a
    scope of the table, the call is refused whatever the list holds, and
    the error names the method [undefined]. If [name] is a member that the
    table inherits, the check itself fails. *)
Theorem root_function_call
    (rt : Runtime) (H : Host) (command object : string) (args : list value)
    (w w1 w2 w3 : World H) (receiver : hval) (f : nat) (r : outcome hval) :
  classifies rt command (Method object None None args) ->
  host_get H (context H) object w = (Ok (HFun f), w1) ->
  host_get H (context H) object w1 = (Ok receiver, w2) ->
  host_call H (HFun f) receiver args w2 = (r, w3) ->
  run rt H command w
  = match allowedMethods object with
    | Missing =>
        wrapped (r, (w3, [EGet (context H) object; EGet (context H) object;
                          ECall (HFun f) receiver args]))
    | Scope _ =>
        (Throw "Command execution failed: Method 'undefined' is not allowed",
         (w1, [EGet (context H) object]))
    | Inherited =>
        (Throw "Command execution failed: allowedList.includes is not a function",
         (w1, [EGet (context H) object]))
    end.
Proof.
  intros Hc Hroot Hrecv Hcall.
  destruct (allowedMethods object) as [names | |] eqn:Hlist.
  - eapply root_call_inside_scope; eauto.
  - unfold run. rewrite (execute_classified rt H _ _ _ Hc).
    unfold dispatch, executeMethod, bind, get, touch, throw, ret. cbn [fst snd].
    rewrite Hroot. cbn [truthy negb present is_function key_of fst snd].
    rewrite Hlist. reflexivity.
  - eapply root_call_outside_scopes; eauto.
Qed.

Lemma root_function_call_witness :
  run Demo.rt App.host "help()" 0%nat
  = (Ok (HLit (VStr "Help displayed above")),
     (1%nat, [EGet App.root "help"; EGet App.root "help";
              ECall App.help App.help []])).
Proof.
  apply (root_function_call Demo.rt App.host "help()" "help" []
           0%nat 0%nat 0%nat 1%nat App.help 20
           (Ok (HLit (VStr "Help displayed above")))).
  - split; vm_compute; reflexivity.
  - reflexivity.
  - reflexivity.
  - reflexivity.
Defined.



(** X8. A constructor call [new className(args)] of a name of the fixed
    list reads [context[className]] once. If the value read is falsy, the
    error is that the class is not found. If it is truthy but not a
    function, nothing is constructed: [new] throws the TypeError of the
    engine, which [execute] wraps, and the host is not touched again; this
    is how [new calendar()] ends, since [calendar] is on the fixed list
    although it is an instance. If it is a function, [new] is evaluated on
    it exactly once, with the arguments as coerced, and [execute] returns
    what the host answers: the instance, or the error wrapped. *)
Theorem listed_constructor_call
    (rt : Runtime) (H : Host) (command className : string) (args : list value)
    (w w1 : World H) (c : hval) :
  classifies rt command (Constructor className args) ->
  mem className allowedObjects = true ->
  host_get H (context H) className w = (Ok c, w1) ->
  run rt H command w
  = if negb (truthy c)
    then (Throw ("Command execution failed: Class '" ++ className ++ "' not found"),
          (w1, [EGet (context H) className]))
    else if negb (is_function c)
    then (Throw "Command execution failed: Constructor is not a constructor",
          (w1, [EGet (context H) className]))
    else wrapped (fst (host_new H c args w1),
                  (snd (host_new H c args w1),
                   [EGet (context H) className; ENew c args])).
Proof.
  intros Hc Hmem Hget.
  unfold run. rewrite (execute_classified rt H _ _ _ Hc).
  unfold dispatch, executeConstructor. drive H.
  destruct (truthy c); [| drive H; reflexivity].
  destruct (is_function c); drive H; [| reflexivity].
  destruct (host_new H c args w1) as [[instance | e] w2]; reflexivity.
Qed.

Lemma listed_constructor_call_witness :
  run Demo.rt Demo.host "new Event({title: 'Standup'})" 0%nat
  = (Ok (HObj 100),
     (1%nat, [EGet Demo.root "Event";
              ENew Demo.EventClass [VObj [("title", VStr "Standup")]]]))
  /\ run Demo.rt Demo.host "new EventStore()" 0%nat
     = (Throw "Command execution failed: Class 'EventStore' not found",
        (0%nat, [EGet Demo.root "EventStore"]))
  /\ run Demo.rt Demo.host "new calendar()" 0%nat
     = (Throw "Command execution failed: Constructor is not a constructor",
        (0%nat, [EGet Demo.root "calendar"])).
Proof.
  split; [| split].
  - apply (listed_constructor_call Demo.rt Demo.host
             "new Event({title: 'Standup'})" "Event"
             [VObj [("title", VStr "Standup")]] 0%nat 0%nat Demo.EventClass).
    + split; vm_compute; reflexivity.
    + reflexivity.
    + reflexivity.
  - apply (listed_constructor_call Demo.rt Demo.host
             "new EventStore()" "EventStore" [] 0%nat 0%nat (HLit VUndefined)).
    + split; vm_compute; reflexivity.
    + reflexivity.
    + reflexivity.
  - apply (listed_constructor_call Demo.rt Demo.host
             "new calendar()" "calendar" [] 0%nat 0%nat Demo.calendar).
    + split; vm_compute; reflexivity.
    + reflexivity.
    + reflexivity.
Defined.

Section Unread.

Context (rt : Runtime) (H : Host).

Lemma unread_is_refused command w :
  parseCommand rt (normalize command) = None ->
  exists message,
    run rt H command w = (Throw message, (w, []))
    /\ (first_unsafe (normalize command) = None ->
        message = "Command execution failed: Invalid command format").
Proof.
  intros Hp. unfold run.
  destruct (first_unsafe (normalize command)) as [p |] eqn:Hs.
  - eexists. split; [apply execute_unsafe; exact Hs | intros E; discriminate E].
  - eexists. split; [apply execute_unparsed; assumption | reflexivity].
Qed.

End Unread.

(** X9. A path of more than three segments is never dispatched: when the
    normalized text begins with three dotted names followed by one more
    dot, whatever comes after it, [execute] throws without touching the
    host, and the error is that of the format unless the denylist speaks
    first. *)
Theorem deeper_path_is_never_dispatched
    (rt : Runtime) (H : Host) (command a b c rest : string) (w : World H) :
  is_name a = true -> is_name b = true -> is_name c = true ->
  normalize command = (a ++ "." ++ b ++ "." ++ c ++ "." ++ rest)%string ->
  exists message,
    run rt H command w = (Throw message, (w, []))
    /\ (first_unsafe (normalize command) = None ->
        message = "Command execution failed: Invalid command format").
Proof.
  unfold is_name. intros Ha Hb Hc Hn.
  apply andb_prop in Ha as [Ha Wa]. apply andb_prop in Hb as [Hb Wb].
  apply andb_prop in Hc as [Hc Wc].
  apply negb_true_iff in Ha, Hb, Hc.
  apply unread_is_refused. rewrite Hn.
  replace (a ++ "." ++ b ++ "." ++ c ++ "." ++ rest)%string
    with ((a ++ "." ++ b ++ "." ++ c) ++ String "." rest)%string
    by (rewrite !append_assoc; reflexivity).
  apply (path_rest_unread rt _ a (Some b) (Some c) "."%char rest).
  - rewrite !append_assoc.
    apply (path_three_segments a b c (String "." rest)); auto. reflexivity.
  - discriminate.
  - intros E; discriminate E.
Qed.

Lemma deeper_path_is_never_dispatched_witness :
  exists message,
    run Demo.rt App.host "app.calendar.eventStore.clear()" 0%nat
    = (Throw message, (0%nat, []))
    /\ (first_unsafe (normalize "app.calendar.eventStore.clear()") = None ->
        message = "Command execution failed: Invalid command format").
Proof.
  apply (deeper_path_is_never_dispatched Demo.rt App.host
           "app.calendar.eventStore.clear()" "app" "calendar" "eventStore"
           "clear()" 0%nat); reflexivity.
Defined.

(** X10. After a path of one to three dotted names, only an opening
    parenthesis or the end of the text leads anywhere, or a blank after
    the single word [new]: when the next character is anything else (and
    no word character or dot, which would belong to the path), as in an
    index, an assignment or an operator, [execute] throws without touching
    the host. *)
Theorem foreign_character_is_never_dispatched
    (rt : Runtime) (H : Host) (command pre : string) (c : ascii) (rest : string)
    (w : World H) :
  lang path_re pre ->
  is_word c = false -> c <> "."%char -> c <> "("%char ->
  (is_space c = true -> pre <> "new"%string) ->
  normalize command = (pre ++ String c rest)%string ->
  exists message,
    run rt H command w = (Throw message, (w, []))
    /\ (first_unsafe (normalize command) = None ->
        message = "Command execution failed: Invalid command format").
Proof.
  intros Hpre Hw Hd Hp Hs Hn.
  apply unread_is_refused. rewrite Hn.
  destruct (path_complete pre (String c rest) Hpre (conj Hw Hd))
    as (o & p1 & p2 & Hpath).
  eapply path_rest_unread; eauto.
Qed.

Lemma foreign_character_is_never_dispatched_witness :
  exists message,
    run Demo.rt Demo.host "calendar.count = 5" 0%nat
    = (Throw message, (0%nat, []))
    /\ (first_unsafe (normalize "calendar.count = 5") = None ->
        message = "Command execution failed: Invalid command format").
Proof.
  apply (foreign_character_is_never_dispatched Demo.rt Demo.host
           "calendar.count = 5" "calendar.count" " "%char "= 5" 0%nat).
  - apply matches_lang. reflexivity.
  - reflexivity.
  - discriminate.
  - discriminate.
  - intros _ E. discriminate E.
  - reflexivity.
Defined.

(** ** The denylist and the case of letters *)

Lemma to_lower_idem a : to_lower (to_lower a) = to_lower a.
Proof. destruct a as [[] [] [] [] [] [] [] []]; reflexivity. Qed.

Lemma case_blind_eq_ci k : case_blind (eq_ci k).
Proof. intros a. unfold eq_ci. rewrite to_lower_idem. reflexivity. Qed.

Lemma case_blind_space : case_blind is_space.
Proof. intros a. destruct a as [[] [] [] [] [] [] [] []]; reflexivity. Qed.

Lemma case_blind_word : case_blind is_word.
Proof. intros a. destruct a as [[] [] [] [] [] [] [] []]; reflexivity. Qed.

Lemma case_blind_symbol k :
  is_upper k = false -> is_lower k = false -> case_blind (Ascii.eqb k).
Proof.
  intros Hu Hl a. unfold to_lower. destruct (is_upper a) eqn:Ha; [| reflexivity].
  destruct (Ascii.eqb_spec k a) as [-> | Hne].
  - rewrite Ha in Hu. discriminate Hu.
  - destruct (Ascii.eqb_spec k (ascii_of_N (code a + 32))) as [-> | _];
      [| reflexivity].
    exfalso. revert Hl Ha.
    destruct a as [[] [] [] [] [] [] [] []]; intros Hl Ha;
      solve [discriminate Ha | discriminate Hl].
Qed.

Lemma case_blind_pair p a b :
  case_blind p -> eq_ci a b = true -> p a = p b.
Proof.
  intros Hp E. unfold eq_ci in E. apply Ascii.eqb_eq in E.
  rewrite <- (Hp a), <- (Hp b), E. reflexivity.
Qed.

Lemma folds_seq r1 r2 : folds r1 -> folds r2 -> folds (seq r1 r2).
Proof. destruct r1, r2; cbn; tauto. Qed.

Lemma folds_alt r1 r2 : folds r1 -> folds r2 -> folds (alt r1 r2).
Proof. destruct r1, r2; cbn; tauto. Qed.

Lemma folds_deriv c r : folds r -> folds (deriv c r).
Proof.
  induction r as [| | p | r1 IH1 r2 IH2 | r1 IH1 r2 IH2 | r1 IH1];
    cbn [deriv folds]; intros Hf.
  - exact I.
  - exact I.
  - destruct (p c); exact I.
  - destruct Hf as [H1 H2]. destruct (nullable r1).
    + apply folds_alt; [apply folds_seq |]; auto.
    + apply folds_seq; auto.
  - destruct Hf as [H1 H2]. apply folds_alt; auto.
  - apply folds_seq; auto.
Qed.

Lemma deriv_ci a b r : folds r -> eq_ci a b = true -> deriv a r = deriv b r.
Proof.
  intros Hf E.
  induction r as [| | p | r1 IH1 r2 IH2 | r1 IH1 r2 IH2 | r1 IH1];
    cbn [deriv folds] in *.
  - reflexivity.
  - reflexivity.
  - rewrite (case_blind_pair p a b Hf E). reflexivity.
  - destruct Hf as [H1 H2]. rewrite (IH1 H1), (IH2 H2). reflexivity.
  - destruct Hf as [H1 H2]. rewrite (IH1 H1), (IH2 H2). reflexivity.
  - rewrite (IH1 Hf). reflexivity.
Qed.

Lemma match_here_ci s : forall t r,
  same_ci s t = true -> folds r -> match_here r s = match_here r t.
Proof.
  induction s as [| a s IH]; intros [| b t] r E Hf; try discriminate E.
  - reflexivity.
  - cbn [same_ci] in E. apply andb_prop in E as [Eab E].
    cbn [match_here]. rewrite (deriv_ci a b r Hf Eab).
    rewrite (IH t (deriv b r) E (folds_deriv b r Hf)). reflexivity.
Qed.

Lemma test_ci s : forall t r,
  same_ci s t = true -> folds r -> test r s = test r t.
Proof.
  induction s as [| a s IH]; intros [| b t] r E Hf; try discriminate E.
  - reflexivity.
  - cbn [test]. rewrite (match_here_ci (String a s) (String b t) r E Hf).
    cbn [same_ci] in E. apply andb_prop in E as [_ E].
    rewrite (IH t r E Hf). reflexivity.
Qed.

Lemma folds_lit_ci s : folds (lit_ci s).
Proof.
  induction s as [| c s IH]; cbn [lit_ci]; [exact I |].
  apply folds_seq; [apply case_blind_eq_ci | exact IH].
Qed.

Lemma folds_seqs l : Forall folds l -> folds (seqs l).
Proof.
  induction 1 as [| r l Hr _ IH]; cbn [seqs fold_right]; [exact I |].
  apply folds_seq; assumption.
Qed.

Lemma dangerous_folds : Forall (fun p => folds (re p)) dangerous.
Proof.
  assert (Hp : case_blind (Ascii.eqb "(")) by (apply case_blind_symbol; reflexivity).
  assert (He : case_blind (Ascii.eqb "=")) by (apply case_blind_symbol; reflexivity).
  assert (Hd : case_blind (Ascii.eqb "$")) by (apply case_blind_symbol; reflexivity).
  assert (Hb : case_blind (Ascii.eqb "{")) by (apply case_blind_symbol; reflexivity).
  pose proof case_blind_space as Hs. pose proof case_blind_word as Hw.
  unfold dangerous.
  repeat (apply Forall_cons; [cbn [re] |]); try apply Forall_nil;
    try apply folds_lit_ci;
    try (apply folds_seqs;
         repeat (apply Forall_cons; [| ]); try apply Forall_nil;
         try apply folds_lit_ci; cbn; auto).
  cbn. auto.
Qed.

Lemma find_ext {A} (f g : A -> bool) (l : list A) :
  Forall (fun x => f x = g x) l -> find f l = find g l.
Proof.
  induction 1 as [| x l Hx _ IH]; cbn [find]; [reflexivity |].
  rewrite Hx, IH. reflexivity.
Qed.

(** X11. The verdict of the Safety Validator does not depend on the case
    of the letters: two texts that differ only in case are refused by the
    same pattern or both accepted. *)
Theorem validator_ignores_letter_case (s t : string) :
  same_ci s t = true -> first_unsafe s = first_unsafe t.
Proof.
  intros E. unfold first_unsafe. apply find_ext.
  eapply Forall_impl; [| exact dangerous_folds].
  intros p Hp. unfold pattern_test. apply test_ci; assumption.
Qed.

Lemma validator_ignores_letter_case_witness :
  first_unsafe "calendar.SetTimeOut(f, 1)" = first_unsafe "calendar.settimeout(f, 1)".
Proof.
  apply (validator_ignores_letter_case "calendar.SetTimeOut(f, 1)"
           "calendar.settimeout(f, 1)").
  reflexivity.
Defined.

(** ** The history of the console *)

Module ConsoleFacts.

Import Console.

Lemma element_last (l : list string) (x : string) :
  element (l ++ [x]) (Z.of_nat (List.length (l ++ [x])) - 1) = Some x.
Proof.
  unfold element. rewrite length_app. cbn [List.length].
  replace (Z.of_nat (List.length l + 1) - 1)%Z with (Z.of_nat (List.length l))
    by lia.
  destruct (Z.ltb_spec (Z.of_nat (List.length l)) 0) as [Hneg | _]; [lia |].
  rewrite Nat2Z.id, nth_error_app2 by lia.
  rewrite Nat.sub_diag. reflexivity.
Qed.

Lemma is_last_snoc (l : list string) (x : string) : is_last x (l ++ [x]) = true.
Proof. unfold is_last. rewrite element_last. apply String.eqb_refl. Qed.

Lemma kept_snoc (h : list string) (x : string) :
  exists l,
    (if (maxHistorySize <? List.length (h ++ [x]))%nat
     then tl (h ++ [x]) else h ++ [x]) = l ++ [x]
    /\ (List.length h <= maxHistorySize ->
        List.length (l ++ [x]) <= maxHistorySize)%nat.
Proof.
  destruct (Nat.ltb_spec maxHistorySize (List.length (h ++ [x]))) as [Hlt | Hle].
  - destruct h as [| a h'].
    + cbn in Hlt. unfold maxHistorySize in Hlt. lia.
    + exists h'. split; [reflexivity |].
      rewrite length_app. cbn [List.length]. lia.
  - exists h. split; [reflexivity | intros _; exact Hle].
Qed.

Lemma up_of_fresh (l : list string) (x : string) (typed : option string) :
  up {| commandHistory := l ++ [x];
        historyIndex := Z.of_nat (List.length (l ++ [x]));
        input := typed |}
  = {| commandHistory := l ++ [x];
       historyIndex := Z.of_nat (List.length (l ++ [x])) - 1;
       input := Some x |}.
Proof.
  unfold up, navigateHistory, length_of. cbn [commandHistory historyIndex].
  assert (Hpos : (0 < Z.of_nat (List.length (l ++ [x])))%Z).
  { rewrite length_app. cbn [List.length]. lia. }
  destruct (Z.eqb_spec (Z.of_nat (List.length (l ++ [x]))) 0) as [E | _]; [lia |].
  destruct (Z.ltb_spec 0 (Z.of_nat (List.length (l ++ [x])))) as [_ | Hn]; [| lia].
  cbn [Z.eqb andb]. rewrite element_last. reflexivity.
Qed.

Lemma up_step (c : console) :
  length_of c <> 0%Z -> (0 < historyIndex c)%Z ->
  up c = {| commandHistory := commandHistory c;
            historyIndex := historyIndex c - 1;
            input := element (commandHistory c) (historyIndex c - 1) |}.
Proof.
  intros Hn Hpos. unfold up, navigateHistory.
  destruct (Z.eqb_spec (length_of c) 0) as [E | _]; [contradiction |].
  destruct (Z.ltb_spec 0 (historyIndex c)) as [_ | Hle]; [| lia].
  reflexivity.
Qed.

Lemma down_step (c : console) :
  length_of c <> 0%Z -> (historyIndex c < length_of c)%Z ->
  down c
  = if (historyIndex c <? length_of c - 1)%Z
    then {| commandHistory := commandHistory c;
            historyIndex := historyIndex c + 1;
            input := element (commandHistory c) (historyIndex c + 1) |}
    else {| commandHistory := commandHistory c;
            historyIndex := length_of c;
            input := Some EmptyString |}.
Proof.
  intros Hn Hlt. unfold down, navigateHistory.
  destruct (Z.eqb_spec (length_of c) 0) as [E | _]; [contradiction |].
  change ((1 =? -1)%Z) with false. change ((1 =? 1)%Z) with true. cbn [andb].
  destruct (Z.ltb_spec (historyIndex c) (length_of c - 1)) as [_ | Hge];
    [reflexivity |].
  destruct (Z.eqb_spec (historyIndex c) (length_of c - 1)) as [_ | Hne];
    [reflexivity | lia].
Qed.

End ConsoleFacts.

(** X12. The history of the console never grows beyond its bound: if it
    holds at most [maxHistorySize] commands, it still does after
    [addToHistory], and the command just given is its last entry. Unless
    the command repeats the last entry, the cursor is set just after it. *)
Theorem history_stays_bounded (command : string) (c : Console.console) :
  (List.length (Console.commandHistory c) <= Console.maxHistorySize)%nat ->
  (List.length (Console.commandHistory (Console.addToHistory command c))
   <= Console.maxHistorySize)%nat
  /\ Console.is_last command
       (Console.commandHistory (Console.addToHistory command c)) = true
  /\ (Console.is_last command (Console.commandHistory c) = false ->
      Console.historyIndex (Console.addToHistory command c)
      = Console.length_of (Console.addToHistory command c)).
Proof.
  intros Hlen. unfold Console.addToHistory.
  destruct (Console.is_last command (Console.commandHistory c)) eqn:Hdup.
  - repeat split; auto. intros E; discriminate E.
  - cbn [Console.commandHistory Console.historyIndex].
    destruct (ConsoleFacts.kept_snoc (Console.commandHistory c) command)
      as (l & -> & Hb).
    repeat split; auto. apply ConsoleFacts.is_last_snoc.
Qed.

Lemma history_stays_bounded_witness :
  (List.length (Console.commandHistory
     (Console.addToHistory "help()"
        {| Console.commandHistory := repeat "calendar.today()" 100;
           Console.historyIndex := 100; Console.input := Some "help()" |}))
   <= Console.maxHistorySize)%nat.
Proof.
  apply (history_stays_bounded "help()"
           {| Console.commandHistory := repeat "calendar.today()" 100;
              Console.historyIndex := 100; Console.input := Some "help()" |}).
  cbn [Console.commandHistory]. rewrite repeat_length.
  unfold Console.maxHistorySize. lia.
Defined.

(** X13. The arrow keys keep the cursor of the history in range and never
    change the history. When [navigateHistory] changes anything, it shows
    the empty text with the cursor just after the last entry, or the entry
    that lies under the new cursor. *)
Theorem navigation_stays_in_range (direction : Z) (c : Console.console) :
  Console.in_range c ->
  Console.in_range (Console.navigateHistory direction c)
  /\ Console.commandHistory (Console.navigateHistory direction c)
     = Console.commandHistory c
  /\ (Console.navigateHistory direction c = c
      \/ (Console.historyIndex (Console.navigateHistory direction c)
          = Console.length_of c
          /\ Console.input (Console.navigateHistory direction c)
             = Some EmptyString)
      \/ exists entry,
           nth_error (Console.commandHistory c)
             (Z.to_nat (Console.historyIndex (Console.navigateHistory direction c)))
           = Some entry
           /\ Console.input (Console.navigateHistory direction c) = Some entry).
Proof.
  unfold Console.in_range, Console.navigateHistory, Console.length_of.
  intros Hr.
  assert (Hnth : forall i, (0 <= i < Z.of_nat (List.length (Console.commandHistory c)))%Z ->
            exists entry,
              nth_error (Console.commandHistory c) (Z.to_nat i) = Some entry
              /\ Console.element (Console.commandHistory c) i = Some entry).
  { intros i Hi. unfold Console.element.
    destruct (Z.ltb_spec i 0) as [Hneg | _]; [lia |].
    destruct (nth_error (Console.commandHistory c) (Z.to_nat i)) as [entry |] eqn:E.
    - eauto.
    - apply nth_error_None in E. lia. }
  destruct (Z.eqb_spec (Z.of_nat (List.length (Console.commandHistory c))) 0)
    as [E0 | N0]; [auto |].
  destruct (Z.eqb_spec direction (-1)) as [Eup | Nup]; cbn [andb].
  - destruct (Z.ltb_spec 0 (Console.historyIndex c)) as [Hpos | Hnpos].
    + cbn [Console.commandHistory Console.historyIndex Console.input].
      split; [lia | split; [reflexivity |]]. right; right.
      destruct (Hnth (Console.historyIndex c - 1)%Z) as (entry & E1 & E2); [lia |].
      exists entry. rewrite E2. auto.
    + subst direction. cbn [Z.eqb andb]. auto.
  - destruct (Z.eqb_spec direction 1) as [Edown | Ndown]; cbn [andb]; [| auto].
    destruct (Z.ltb_spec (Console.historyIndex c)
                (Z.of_nat (List.length (Console.commandHistory c)) - 1))
      as [Hlt | Hge].
    + cbn [Console.commandHistory Console.historyIndex Console.input].
      split; [lia | split; [reflexivity |]]. right; right.
      destruct (Hnth (Console.historyIndex c + 1)%Z) as (entry & E1 & E2); [lia |].
      exists entry. rewrite E2. auto.
    + destruct (Z.eqb_spec (Console.historyIndex c)
                  (Z.of_nat (List.length (Console.commandHistory c)) - 1))
        as [Eend | Nend]; [| auto].
      cbn [Console.commandHistory Console.historyIndex Console.input].
      split; [lia | split; [reflexivity |]]. right; left. auto.
Qed.

Lemma navigation_stays_in_range_witness :
  Console.in_range
    (Console.navigateHistory (-1)
       {| Console.commandHistory := ["help()"; "calendar.today()"];
          Console.historyIndex := 2; Console.input := Some EmptyString |}).
Proof.
  apply (navigation_stays_in_range (-1)
           {| Console.commandHistory := ["help()"; "calendar.today()"];
              Console.historyIndex := 2; Console.input := Some EmptyString |}).
  unfold Console.in_range. cbn. lia.
Defined.

(** X14. Going up and then down again brings the cursor of the history
    back to where it was, from any position but the first entry. *)
Theorem up_then_down_restores_the_cursor (c : Console.console) :
  Console.in_range c -> (0 < Console.historyIndex c)%Z ->
  Console.historyIndex (Console.down (Console.up c)) = Console.historyIndex c
  /\ Console.commandHistory (Console.down (Console.up c))
     = Console.commandHistory c.
Proof.
  unfold Console.in_range. intros Hr Hpos.
  rewrite ConsoleFacts.up_step by lia.
  rewrite ConsoleFacts.down_step;
    unfold Console.length_of in *;
    cbn [Console.commandHistory Console.historyIndex]; try lia.
  destruct (Z.ltb_spec (Console.historyIndex c - 1)
              (Z.of_nat (List.length (Console.commandHistory c)) - 1))
    as [Hlt | Hge];
    cbn [Console.commandHistory Console.historyIndex];
    split; (lia || reflexivity).
Qed.

Lemma up_then_down_restores_the_cursor_witness :
  Console.historyIndex
    (Console.down (Console.up
       {| Console.commandHistory := ["help()"; "calendar.today()"];
          Console.historyIndex := 2; Console.input := Some EmptyString |}))
  = 2%Z.
Proof.
  apply (up_then_down_restores_the_cursor
           {| Console.commandHistory := ["help()"; "calendar.today()"];
              Console.historyIndex := 2; Console.input := Some EmptyString |}).
  - unfold Console.in_range. cbn. lia.
  - cbn. lia.
Defined.

(** X15. A command that does not repeat the last entry of the history is
    what the up arrow shows right after it was added, whatever the state
    of the console was before. *)
Theorem up_recalls_the_command_just_added (command : string) (c : Console.console) :
  Console.is_last command (Console.commandHistory c) = false ->
  Console.input (Console.up (Console.addToHistory command c)) = Some command.
Proof.
  intros Hdup. unfold Console.addToHistory. rewrite Hdup.
  destruct (ConsoleFacts.kept_snoc (Console.commandHistory c) command)
    as (l & -> & _).
  rewrite ConsoleFacts.up_of_fresh. reflexivity.
Qed.

Lemma up_recalls_the_command_just_added_witness :
  Console.input
    (Console.up (Console.addToHistory "help()" (Console.initial "help()")))
  = Some "help()".
Proof.
  apply (up_recalls_the_command_just_added "help()" (Console.initial "help()")).
  reflexivity.
Defined.

(** X16. A command that repeats the last entry leaves the cursor where it
    is. So after the up arrow has recalled the last command and that
    command was run again, the next up arrow does not show it: it shows
    the entry before it. *)
Theorem rerun_of_recalled_command_moves_recall_back
    (earlier : list string) (previous command : string) (typed : option string) :
  Console.input (Console.up (Console.fresh (earlier ++ [previous; command]) typed))
  = Some command
  /\ Console.addToHistory command
       (Console.up (Console.fresh (earlier ++ [previous; command]) typed))
     = Console.up (Console.fresh (earlier ++ [previous; command]) typed)
  /\ Console.input
       (Console.up
          (Console.addToHistory command
             (Console.up (Console.fresh (earlier ++ [previous; command]) typed))))
     = Some previous.
Proof.
  unfold Console.fresh.
  replace (earlier ++ [previous; command])
    with ((earlier ++ [previous]) ++ [command])
    by (rewrite <- app_assoc; reflexivity).
  rewrite ConsoleFacts.up_of_fresh.
  assert (Hadd : Console.addToHistory command
            {| Console.commandHistory := (earlier ++ [previous]) ++ [command];
               Console.historyIndex :=
                 Z.of_nat (List.length ((earlier ++ [previous]) ++ [command])) - 1;
               Console.input := Some command |}
          = {| Console.commandHistory := (earlier ++ [previous]) ++ [command];
               Console.historyIndex :=
                 Z.of_nat (List.length ((earlier ++ [previous]) ++ [command])) - 1;
               Console.input := Some command |}).
  { unfold Console.addToHistory. cbn [Console.commandHistory].
    rewrite ConsoleFacts.is_last_snoc. reflexivity. }
  split; [reflexivity | split; [exact Hadd |]].
  rewrite Hadd.
  rewrite ConsoleFacts.up_step;
    unfold Console.length_of;
    cbn [Console.commandHistory Console.historyIndex Console.input];
    rewrite ?length_app; cbn [List.length]; try lia.
  unfold Console.element.
  destruct (Z.ltb_spec (Z.of_nat (List.length earlier + 1 + 1) - 1 - 1) 0)
    as [Hneg | _]; [lia |].
  replace (Z.to_nat (Z.of_nat (List.length earlier + 1 + 1) - 1 - 1))
    with (List.length earlier) by lia.
  rewrite <- app_assoc. rewrite nth_error_app2 by lia.
  rewrite Nat.sub_diag. reflexivity.
Qed.

(** ** How the console shows the errors of the parser *)

Lemma prefix_append (p b : string) : prefix p (p ++ b) = true.
Proof.
  induction p as [| c p IH]; [destruct b; reflexivity |].
  cbn [append prefix]. destruct (ascii_dec c c) as [_ | Hne];
    [exact IH | contradiction Hne; reflexivity].
Qed.

Lemma includes_here (p s : string) : prefix p s = true -> includes p s = true.
Proof. intros E. destruct s; cbn [includes]; rewrite E; reflexivity. Qed.

Lemma includes_append (p a s : string) :
  includes p s = true -> includes p (a ++ s) = true.
Proof.
  intros E. induction a as [| c a IH]; [exact E |].
  cbn [append includes]. rewrite IH. apply orb_true_r.
Qed.

Lemma includes_intro (p a b : string) : includes p (a ++ p ++ b) = true.
Proof. apply includes_append, includes_here, prefix_append. Qed.

Lemma includes_skip (p : string) (c : ascii) (s : string) :
  prefix p (String c s) = false -> includes p (String c s) = includes p s.
Proof. intros E. cbn [includes]. rewrite E. reflexivity. Qed.

(** A pattern whose fourth character is a blank does not begin inside a
    word that is followed by a quote. *)
Lemma spaced_pattern_absent (x y z : ascii) (q name tail : string) :
  y <> squote -> z <> squote ->
  forallb_str is_word name = true ->
  includes (String x (String y (String z (String " " q)))) (String squote tail)
  = false ->
  includes (String x (String y (String z (String " " q))))
    (name ++ String squote tail) = false.
Proof.
  intros Hy Hz Hw Htail.
  induction name as [| c name IH]; [exact Htail |].
  cbn [forallb_str] in Hw. apply andb_prop in Hw as [Hc Hw].
  specialize (IH Hw).
  cbn [append includes]. rewrite IH, orb_false_r.
  cbn [prefix]. destruct (ascii_dec x c) as [_ | _]; [| reflexivity].
  destruct name as [| c2 name]; cbn [append prefix].
  { destruct (ascii_dec y squote) as [E | _]; [contradiction | reflexivity]. }
  destruct (ascii_dec y c2) as [_ | _]; [| reflexivity].
  destruct name as [| c3 name]; cbn [append prefix].
  { destruct (ascii_dec z squote) as [E | _]; [contradiction | reflexivity]. }
  destruct (ascii_dec z c3) as [_ | _]; [| reflexivity].
  destruct name as [| c4 name]; cbn [append prefix].
  { destruct (ascii_dec " " squote) as [E | _]; [discriminate E | reflexivity]. }
  destruct (ascii_dec " " c4) as [E | _]; [| reflexivity].
  subst c4. cbn [forallb_str] in Hw.
  apply andb_prop in Hw as [_ Hw]. apply andb_prop in Hw as [_ Hw].
  apply andb_prop in Hw as [Hw _]. discriminate Hw.
Qed.

Lemma dotted_word s w r :
  dotted s = (Some w, r) -> forallb_str is_word w = true.
Proof.
  unfold dotted. destruct s as [| c s']; [discriminate |].
  destruct (Ascii.eqb_spec c "."%char) as [-> | Hc].
  - destruct (span is_word s') as [w' r'] eqn:Es.
    destruct (span_spec _ _ _ _ Es) as (_ & Hall & _).
    destruct (is_empty w'); intros E; inversion E; subst; auto.
  - intro E.
    destruct c as [[] [] [] [] [] [] [] []]; try discriminate E.
    contradiction Hc; reflexivity.
Qed.

Lemma parsed_method_word rt command object prop subProperty args :
  parseCommand rt command = Some (Method object (Some prop) subProperty args) ->
  forallb_str is_word prop = true.
Proof.
  unfold parseCommand, methodMatch, propMatch.
  destruct (path command) as [[[[o p1] p2] rest] |] eqn:Ep.
  - assert (Hw : forall p, p1 = Some p -> forallb_str is_word p = true).
    { revert Ep. unfold path. destruct (span is_word command) as [o' r0].
      destruct (is_empty o'); [discriminate |].
      destruct (dotted r0) as [q1 r1] eqn:E1.
      destruct (dotted r1) as [q2 r2].
      intros E; injection E as <- <- <- <-. intros p ->.
      eapply dotted_word; eauto. }
    destruct (call_args rest) as [a |].
    + intros E; inversion E; subst. auto.
    + destruct (is_empty rest); [intros E; discriminate E |].
      destruct (constructor_match command) as [[c a] |];
        intros E; discriminate E.
  - destruct (constructor_match command) as [[c a] |];
      intros E; discriminate E.
Qed.

Lemma dangerous_shown :
  Forall (fun p =>
            Report.handleError "Error"
              ("Command execution failed: Unsafe pattern detected: "
               ++ show_pattern p)
            = Some [(("Command execution failed: Unsafe pattern detected: "
                      ++ show_pattern p)%string, "error"%string)])
    dangerous.
Proof. unfold dangerous. repeat (apply Forall_cons; [reflexivity |]). apply Forall_nil. Qed.

(** X17. A command that the denylist refuses is shown to the user with the
    message of the parser as it is: whatever the pattern, the console adds
    neither the label of a security error nor a hint. *)
Theorem denylist_refusal_is_shown_as_it_is
    (rt : Runtime) (H : Host) (command : string) (w : World H) :
  first_unsafe (normalize command) <> None ->
  exists message,
    fst (run rt H command w) = Throw message
    /\ Report.shown (fst (run rt H command w)) = Some [(message, "error"%string)].
Proof.
  intros Hu.
  destruct (first_unsafe (normalize command)) as [p |] eqn:Hp;
    [| contradiction Hu; reflexivity].
  unfold run. rewrite (execute_unsafe rt H _ _ _ Hp). cbn [fst Report.shown].
  eexists. split; [reflexivity |].
  apply find_some in Hp. destruct Hp as [Hin _].
  pose proof dangerous_shown as Hall. rewrite Forall_forall in Hall.
  exact (Hall p Hin).
Qed.

Lemma denylist_refusal_is_shown_as_it_is_witness :
  exists message,
    fst (run Demo.rt Demo.host "localStorage.clear()" 0%nat) = Throw message
    /\ Report.shown (fst (run Demo.rt Demo.host "localStorage.clear()" 0%nat))
       = Some [(message, "error"%string)].
Proof.
  apply (denylist_refusal_is_shown_as_it_is Demo.rt Demo.host
           "localStorage.clear()" 0%nat).
  vm_compute. intros E; discriminate E.
Defined.

Lemma forbidden_shown (name : string) :
  forallb_str is_word name = true ->
  Report.handleError "Error"
    ("Command execution failed: Method '" ++ name ++ "' is not allowed")
  = Some [(("Security: Command execution failed: Method '" ++ name
            ++ "' is not allowed")%string, "error"%string)].
Proof.
  intros Hw.
  assert (Hnf : forall q,
            includes (String "n" (String "o" (String "t" (String " " q))))
              "' is not allowed" = false ->
            includes (String "n" (String "o" (String "t" (String " " q))))
              ("Command execution failed: Method '" ++ name
               ++ "' is not allowed") = false).
  { intros q Hq.
    assert (Hname : includes (String "n" (String "o" (String "t" (String " " q))))
                      (name ++ "' is not allowed") = false).
    { apply (spaced_pattern_absent "n" "o" "t" q name " is not allowed");
        [discriminate | discriminate | exact Hw | exact Hq]. }
    cbn [append].
    do 34 (rewrite includes_skip; [| reflexivity]). exact Hname. }
  assert (Hal : includes "not allowed"
                  ("Command execution failed: Method '" ++ name
                   ++ "' is not allowed") = true).
  { apply includes_append, includes_append. reflexivity. }
  unfold Report.handleError, Report.getUserMessage.
  change (Demo.lookup "Error" Report.errorMessages) with (@None string).
  change (mem "Error" object_prototype_keys) with false. cbv iota.
  rewrite (Hnf "found" eq_refl), Hal, (Hnf "a function" eq_refl). reflexivity.
Qed.

(** X18. What the user sees of a call with two segments to a function
    that the check of the allow-lists stops. If the table answers a list
    under the property name, else under the root name, the console logs
    one entry, the message of the parser behind the label [Security:], and
    no hint. If the table answers a member that it inherits, as under
    [toString], the console logs the message of the failed check as it is,
    followed by the hint to include parentheses, which the command has. *)
Theorem stopped_method_call_is_shown
    (rt : Runtime) (H : Host) (command object prop : string)
    (args : list value) (w w1 w2 : World H) (target : hval) (f : nat) :
  classifies rt command (Method object (Some prop) None args) ->
  host_get H (context H) object w = (Ok target, w1) ->
  truthy target = true ->
  host_get H target prop w1 = (Ok (HFun f), w2) ->
  allow_or (allowedMethods prop) (allowedMethods object) <> Missing ->
  Report.shown (fst (run rt H command w))
  = match allow_or (allowedMethods prop) (allowedMethods object) with
    | Inherited =>
        Some [("Command execution failed: allowedList.includes is not a function"%string,
               "error"%string);
              ("Hint: Make sure to include parentheses for function calls"%string,
               "info"%string)]
    | _ =>
        Some [(("Security: Command execution failed: Method '" ++ prop
                ++ "' is not allowed")%string, "error"%string)]
    end.
Proof.
  intros Hc Hroot Ht Hprop Hstop.
  destruct (allow_or (allowedMethods prop) (allowedMethods object))
    as [names | |] eqn:Hlist.
  - rewrite (two_segment_call_is_refused rt H command object prop args names
               w target w1 f w2 Hc Hroot Ht Hprop Hlist).
    pose proof (parsed_method_word _ _ _ _ _ _ (proj2 Hc)) as Hw.
    cbn [fst Report.shown].
    exact (forbidden_shown prop Hw).
  - rewrite (two_segment_call_fails_in_the_check rt H command object prop args
               w target w1 f w2 Hc Hroot Ht Hprop Hlist).
    vm_compute. reflexivity.
  - contradiction Hstop. reflexivity.
Qed.

Lemma stopped_method_call_is_shown_witness :
  Report.shown (fst (run Demo.rt Demo.host "calendar.getEvents()" 0%nat))
  = Some [("Security: Command execution failed: Method 'getEvents' is not allowed"%string,
           "error"%string)]
  /\ Report.shown (fst (run Demo.rt Demo.host "calendar.toString()" 0%nat))
     = Some [("Command execution failed: allowedList.includes is not a function"%string,
              "error"%string);
             ("Hint: Make sure to include parentheses for function calls"%string,
              "info"%string)].
Proof.
  split.
  - refine (stopped_method_call_is_shown Demo.rt Demo.host
              "calendar.getEvents()" "calendar" "getEvents" []
              0%nat 0%nat 0%nat Demo.calendar 10 _ _ _ _ _).
    + split; vm_compute; reflexivity.
    + reflexivity.
    + reflexivity.
    + reflexivity.
    + vm_compute. discriminate.
  - refine (stopped_method_call_is_shown Demo.rt Demo.host
              "calendar.toString()" "calendar" "toString" []
              0%nat 0%nat 0%nat Demo.calendar 908 _ _ _ _ _).
    + split; vm_compute; reflexivity.
    + reflexivity.
    + reflexivity.
    + reflexivity.
    + vm_compute. discriminate.
Defined.

(** X19. A command whose first name is missing from the context, or
    falsy there, is shown to the user as a command or object that was not
    found, followed by the hint that points to [help()]; this holds of a
    method call and of a property access alike. *)
Theorem missing_object_is_shown_with_a_hint
    (rt : Runtime) (H : Host) (command object : string)
    (property subProperty : option string) (args : list value)
    (w w1 : World H) (falsy : hval) :
  classifies rt command (Method object property subProperty args)
  \/ classifies rt command (Property object property subProperty) ->
  host_get H (context H) object w = (Ok falsy, w1) ->
  truthy falsy = false ->
  Report.shown (fst (run rt H command w))
  = Some [(("Command or object not found: Command execution failed: Object '"
            ++ object ++ "' not found")%string, "error"%string);
          (("Hint: Use " ++ str1 dquote ++ "help()" ++ str1 dquote
            ++ " to see available commands")%string, "info"%string)].
Proof.
  intros Hc Hroot Hf.
  assert (Hrun : fst (run rt H command w)
                 = Throw ("Command execution failed: Object '" ++ object
                          ++ "' not found")).
  { unfold run. destruct Hc as [Hc | Hc];
      rewrite (execute_classified rt H _ _ _ Hc); cbn [dispatch].
    - rewrite (method_root_falsy H object property subProperty args w falsy w1
                 Hroot Hf). reflexivity.
    - rewrite (property_root_falsy H object property subProperty w falsy w1
                 Hroot Hf). reflexivity. }
  rewrite Hrun. cbn [Report.shown].
  assert (Hnf : includes "not found"
                  ("Command execution failed: Object '" ++ object
                   ++ "' not found") = true).
  { apply includes_append, includes_append. reflexivity. }
  unfold Report.handleError, Report.getUserMessage.
  change (Demo.lookup "Error" Report.errorMessages) with (@None string).
  change (mem "Error" object_prototype_keys) with false. cbv iota.
  rewrite Hnf. reflexivity.
Qed.

Lemma missing_object_is_shown_with_a_hint_witness :
  Report.shown (fst (run Demo.rt Demo.host "Calendar.today()" 0%nat))
  = Some [("Command or object not found: Command execution failed: Object 'Calendar' not found"%string,
           "error"%string);
          (("Hint: Use " ++ str1 dquote ++ "help()" ++ str1 dquote
            ++ " to see available commands")%string, "info"%string)].
Proof.
  refine (missing_object_is_shown_with_a_hint Demo.rt Demo.host
            "Calendar.today()" "Calendar" (Some "today"%string) None []
            0%nat 0%nat (HLit VUndefined) _ _ _).
  - left. split; vm_compute; reflexivity.
  - reflexivity.
  - reflexivity.
Defined.


(** ** The sanitizer *)

Lemma value_induction (P : value -> Prop) :
  P VNull -> P VUndefined -> (forall b, P (VBool b)) -> (forall n, P (VNum n)) ->
  (forall s, P (VStr s)) -> (forall d, P (VDate d)) ->
  (forall fs, Forall (fun kv => P (snd kv)) fs -> P (VObj fs)) ->
  (forall items, Forall P items -> P (VArr items)) ->
  forall v, P v.
Proof.
  intros Hnull Hundef Hbool Hnum Hstr Hdate Hobj Harr.
  fix IH 1. intros v. destruct v as [| | b | n | s | d | fs | items].
  - exact Hnull.
  - exact Hundef.
  - apply Hbool.
  - apply Hnum.
  - apply Hstr.
  - apply Hdate.
  - apply Hobj. induction fs as [| [k x] fs IHfs].
    + apply Forall_nil.
    + apply Forall_cons; [apply IH | exact IHfs].
  - apply Harr. induction items as [| x items IHitems].
    + apply Forall_nil.
    + apply Forall_cons; [apply IH | exact IHitems].
Qed.

Lemma clean_obj fs : clean (VObj fs) = forallb clean_entry fs.
Proof.
  induction fs as [| [k x] fs IH]; [reflexivity |].
  cbn [forallb clean_entry fst snd]. rewrite <- IH. reflexivity.
Qed.

Lemma sanitize_string_clean s : clean (VStr (sanitize_string s)) = true.
Proof.
  unfold sanitize_string. cbn [clean].
  induction s as [| c s IH]; [reflexivity |].
  cbn [filter_str]. fold (is_angle c).
  destruct (is_angle c) eqn:Ec; cbn [negb]; [exact IH |].
  cbn [forallb_str]. rewrite Ec, IH. reflexivity.
Qed.

Lemma update_clean k v o :
  clean v = true -> forallb clean_entry o = true ->
  forallb clean_entry (Obj.update k v o) = true.
Proof.
  intros Hv. induction o as [| [k' v'] o IH]; [reflexivity |].
  cbn [Obj.update forallb]. intros Ho. apply andb_prop in Ho as [Hkv Ho].
  destruct (k' =? k)%string; cbn [forallb].
  - rewrite Ho, andb_true_r. unfold clean_entry in *. cbn [fst snd] in *.
    apply andb_prop in Hkv as [Hk _]. rewrite Hk, Hv. reflexivity.
  - rewrite Hkv, (IH Ho). reflexivity.
Qed.

Lemma insert_index_clean n k v o :
  clean_entry (k, v) = true -> forallb clean_entry o = true ->
  forallb clean_entry (Obj.insert_index n k v o) = true.
Proof.
  intros Hkv. induction o as [| [k' v'] o IH]; cbn [Obj.insert_index forallb].
  - intros _. rewrite Hkv. reflexivity.
  - intros Ho. pose proof Ho as Ho'. apply andb_prop in Ho as [Hkv' Ho].
    destruct (Obj.array_index k') as [m |].
    + destruct (n <? m)%N; cbn [forallb].
      * rewrite Hkv. exact Ho'.
      * rewrite Hkv', (IH Ho). reflexivity.
    + cbn [forallb]. rewrite Hkv. exact Ho'.
Qed.

Lemma assign_clean k v o :
  dangerous_key k = false -> clean v = true ->
  forallb clean_entry o = true ->
  forallb clean_entry (Obj.assign k v o) = true.
Proof.
  intros Hk Hv Ho. unfold Obj.assign, Obj.set.
  assert (Hkv : clean_entry (k, v) = true).
  { unfold clean_entry. cbn [fst snd]. rewrite Hk, Hv. reflexivity. }
  destruct (k =? "__proto__")%string; [exact Ho |].
  destruct (Obj.has_key k o).
  - apply update_clean; assumption.
  - destruct (Obj.array_index k) as [n |].
    + apply insert_index_clean; assumption.
    + rewrite forallb_app, Ho. cbn [forallb]. rewrite Hkv. reflexivity.
Qed.

Lemma sanitize_entry_clean key v sanitized :
  sanitized_clean v ->
  forallb clean_entry sanitized = true ->
  forallb clean_entry (sanitize_entry sanitizeObject key v sanitized) = true.
Proof.
  intros Hv Hs. unfold sanitize_entry.
  destruct (dangerous_key key) eqn:Hk; [exact Hs |].
  destruct v; apply assign_clean; auto using sanitize_string_clean.
Qed.

Lemma sanitizeObject_clean v : sanitized_clean v.
Proof.
  induction v as [| | b | n | s | d | fs IH | items IH] using value_induction;
    try reflexivity; try exact I.
  - unfold sanitized_clean. cbn [sanitizeObject]. rewrite clean_obj.
    assert (Hgen : forall sanitized,
              forallb clean_entry sanitized = true ->
              forallb clean_entry
                ((fix over_fields (es : Obj.fields) (sanitized : Obj.fields) :=
                    match es with
                    | [] => sanitized
                    | (key, v) :: es' =>
                        over_fields es'
                          (sanitize_entry sanitizeObject key v sanitized)
                    end) fs sanitized) = true).
    { induction IH as [| [k x] fs Hx _ IHfs]; intros sanitized Hs; [exact Hs |].
      apply IHfs. apply sanitize_entry_clean; assumption. }
    apply Hgen. reflexivity.
  - unfold sanitized_clean. cbn [sanitizeObject]. rewrite clean_obj.
    assert (Hgen : forall i sanitized,
              forallb clean_entry sanitized = true ->
              forallb clean_entry
                ((fix over_items (i : nat) (es : list value)
                      (sanitized : Obj.fields) :=
                    match es with
                    | [] => sanitized
                    | v :: es' =>
                        over_items (S i) es'
                          (sanitize_entry sanitizeObject (Num.show_nat i) v
                             sanitized)
                    end) i items sanitized) = true).
    { induction IH as [| x items Hx _ IHitems]; intros i sanitized Hs;
        [exact Hs |].
      apply IHitems. apply sanitize_entry_clean; assumption. }
    apply Hgen. reflexivity.
Qed.

(** X20. What the sanitizer promises holds at every depth of what it
    returns for a mapping or an array: no string holds an angle bracket and
    no key begins with two underscores or with [on]. A string handed to
    it directly is outside that promise: it comes back unchanged, angle
    brackets included. *)
Theorem sanitized_value_is_clean :
  (forall fs, clean (sanitizeObject (VObj fs)) = true)
  /\ (forall items, clean (sanitizeObject (VArr items)) = true)
  /\ (forall s, sanitizeObject (VStr s) = VStr s)
  /\ clean (sanitizeObject (VStr "<script>")) = false.
Proof.
  split; [| split; [| split]].
  - intros fs. exact (sanitizeObject_clean (VObj fs)).
  - intros items. exact (sanitizeObject_clean (VArr items)).
  - reflexivity.
  - reflexivity.
Qed.

(** ** Blank arguments *)

Section BlankArguments.

Context (rt : Runtime).

Lemma blank_toplevel s : blank s = true -> toplevel s.
Proof.
  unfold blank. induction s as [| c s IH]; cbn [forallb_str]; intros Hb.
  - apply toplevel_nil.
  - apply andb_prop in Hb as [Hc Hs].
    apply toplevel_plain; [| | apply IH; exact Hs];
      destruct c as [[] [] [] [] [] [] [] []];
      solve [reflexivity | discriminate Hc].
Qed.

Lemma blank_coerced s : blank s = true -> coerce_raw rt s = VStr EmptyString.
Proof.
  intros Hb. unfold coerce_raw.
  pose proof (trim_blank s) as E. rewrite Hb in E.
  destruct (trim s); [reflexivity | discriminate E].
Qed.

Lemma parseArguments_trailing first pieces last :
  Forall toplevel (first :: pieces) -> blank last = true ->
  parseArguments rt (join_args ((first :: pieces) ++ [last]))
  = map (coerce_raw rt) (first :: pieces).
Proof.
  intros Hall Hb. unfold parseArguments.
  assert (Hnb : blank (join_args ((first :: pieces) ++ [last])) = false).
  { change ((first :: pieces) ++ [last]) with (first :: pieces ++ [last]).
    rewrite join_args_cons, blank_append.
    change (String "," (join_args (pieces ++ [last])))
      with ("," ++ join_args (pieces ++ [last]))%string.
    rewrite blank_append. rewrite andb_false_r. reflexivity. }
  rewrite trim_blank, Hnb.
  change lexer_init with (Lexer [] EmptyString 0 false None).
  rewrite scan_join by (auto using blank_toplevel). simpl.
  rewrite trim_blank, Hb. reflexivity.
Qed.

End BlankArguments.

(** X21. A blank piece of an argument list counts unless it is the last
    one: after the last comma, blank text adds no argument, so a trailing
    comma is dropped; before a comma, blank text is the argument that is
    the empty string. *)
Theorem trailing_comma_adds_no_argument
    (rt : Runtime) (first : string) (pieces : list string) (last : string) :
  Forall toplevel (first :: pieces) ->
  blank last = true ->
  parseArguments rt (join_args ((first :: pieces) ++ [last]))
  = map (coerce_raw rt) (first :: pieces)
  /\ (blank first = true -> coerce_raw rt first = VStr EmptyString).
Proof.
  intros Hall Hb. split.
  - apply parseArguments_trailing; assumption.
  - apply blank_coerced.
Qed.

Lemma trailing_comma_adds_no_argument_witness :
  parseArguments Demo.rt " , 'a', " = [VStr EmptyString; VStr "a"].
Proof.
  refine (proj1 (trailing_comma_adds_no_argument Demo.rt " " [" 'a'"] " " _ _)).
  - apply Forall_cons; [| apply Forall_cons; [| apply Forall_nil]].
    + apply blank_toplevel. reflexivity.
    + apply toplevel_plain; [reflexivity | reflexivity |].
      apply (toplevel_string "'" "a" EmptyString);
        [reflexivity | reflexivity | apply toplevel_nil].
  - reflexivity.
Defined.

(** ** Completion with the Tab key *)

Module AutocompleteFacts.

Import Autocomplete.

Lemma no_separator_append (a b : string) :
  no_separator (a ++ b) = no_separator a && no_separator b.
Proof.
  unfold no_separator. induction a as [| c a IH]; [reflexivity |].
  cbn [append forallb_str]. rewrite IH. apply andb_assoc.
Qed.

Lemma last_piece_clear s : forall word,
  no_separator word = true -> no_separator (last_piece word s) = true.
Proof.
  induction s as [| c s IH]; intros word Hw; cbn [last_piece]; [exact Hw |].
  destruct (is_separator c) eqn:Hc.
  - apply IH. reflexivity.
  - apply IH. rewrite no_separator_append, Hw. unfold no_separator.
    cbn [str1 forallb_str]. rewrite Hc. reflexivity.
Qed.

Lemma prefix_longer (w a b : string) :
  prefix w a = true -> prefix w (a ++ b) = true.
Proof.
  revert a. induction w as [| c w IH]; intros a E.
  - destruct (a ++ b)%string; reflexivity.
  - destruct a as [| x a]; [discriminate E |].
    cbn [append prefix] in *. destruct (ascii_dec c x); [auto | discriminate E].
Qed.

Lemma prefix_before_dot (w a b : string) :
  no_separator w = true ->
  prefix w (a ++ String "." b) = true -> prefix w a = true.
Proof.
  revert a. induction w as [| c w IH]; intros a Hw E.
  - destruct a; reflexivity.
  - unfold no_separator in Hw. cbn [forallb_str] in Hw.
    apply andb_prop in Hw as [Hc Hw].
    destruct a as [| x a]; cbn [append prefix] in *.
    + destruct (ascii_dec c "."%char) as [-> | _]; [discriminate Hc | discriminate E].
    + destruct (ascii_dec c x); [apply IH; assumption | discriminate E].
Qed.

Lemma single_match (f : string -> bool) (l : list string) (o x : string) :
  filter f l = [o] -> In x l -> f x = true -> x = o.
Proof.
  intros E Hin Hf.
  assert (Hx : In x (filter f l)) by (apply filter_In; auto).
  rewrite E in Hx. destruct Hx as [<- | []]. reflexivity.
Qed.

Lemma single_match_completable (w o : string) :
  no_separator w = true ->
  filter (fun opt => startsWith w opt) buildAutocompleteOptions = [o] ->
  In o completable.
Proof.
  intros Hw E.
  assert (Ho : In o (filter (fun opt => startsWith w opt) buildAutocompleteOptions)).
  { rewrite E. left; reflexivity. }
  apply filter_In in Ho. destruct Ho as [Hin Hf].
  assert (Hroot : forall m, o = ("calendar" ++ String "." m)%string -> False).
  { intros m ->.
    assert (Hc : startsWith w "calendar" = true).
    { apply (prefix_before_dot w "calendar" m Hw Hf). }
    pose proof (single_match _ _ _ "calendar"%string E
                  (or_introl eq_refl) Hc) as Habs.
    discriminate Habs. }
  unfold buildAutocompleteOptions in Hin. cbn [In] in Hin.
  repeat (destruct Hin as [<- | Hin];
          [ first
              [ exfalso; eapply Hroot; reflexivity
              | cbn; tauto
              | idtac ]
          | ]); try contradiction.
  - exfalso.
    assert (Hc : startsWith w "calendar.getEvents" = true).
    { apply (prefix_longer w "calendar" ".getEvents" Hf). }
    pose proof (single_match _ _ _ "calendar.getEvents"%string E
                  (or_intror (or_introl eq_refl)) Hc) as Habs.
    discriminate Habs.
  - exfalso.
    assert (Hc : startsWith w "EventStore" = true).
    { apply (prefix_longer w "Event" "Store" Hf). }
    assert (Hin' : In "EventStore"%string buildAutocompleteOptions).
    { unfold buildAutocompleteOptions. cbn. tauto. }
    pose proof (single_match _ _ _ "EventStore"%string E Hin' Hc) as Habs.
    discriminate Habs.
Qed.

End AutocompleteFacts.

(** X22. The Tab key never completes a member of the calendar. The word
    being typed ends at the last blank, dot or parenthesis, so it holds no
    dot, and a word that begins an option of the form [calendar.member]
    begins [calendar] as well: the match is not unique. Whatever the text
    and the cursor, the only options that a press of Tab puts into the
    input are [EventStore], [new Date], [Date.now], [true], [false],
    [null] and [undefined]; the text around the word is kept. *)
Theorem tab_never_completes_a_calendar_member
    (input : string) (cursorPos : nat) (value : string) (cursor : nat) :
  Autocomplete.handleAutocomplete input cursorPos
  = Autocomplete.Completed value cursor ->
  exists word completion,
    word = Autocomplete.last_piece EmptyString (Autocomplete.take cursorPos input)
    /\ In completion Autocomplete.completable
    /\ startsWith word completion = true
    /\ value = (Autocomplete.take (cursorPos - String.length word) input
                ++ completion ++ drop cursorPos input)%string.
Proof.
  unfold Autocomplete.handleAutocomplete.
  set (word := Autocomplete.last_piece EmptyString (Autocomplete.take cursorPos input)).
  assert (Hw : Autocomplete.no_separator word = true).
  { apply AutocompleteFacts.last_piece_clear. reflexivity. }
  destruct (is_empty word); [intros E; discriminate E |].
  destruct (filter (fun opt => startsWith word opt)
              Autocomplete.buildAutocompleteOptions)
    as [| o [| o' rest]] eqn:Ef; intros E; try discriminate E.
  injection E as <- _.
  exists word, o. split; [reflexivity | split; [| split; [| reflexivity]]].
  - eapply AutocompleteFacts.single_match_completable; eauto.
  - assert (Ho : In o (filter (fun opt => startsWith word opt)
                         Autocomplete.buildAutocompleteOptions)).
    { rewrite Ef. left; reflexivity. }
    apply filter_In in Ho. exact (proj2 Ho).
Qed.

Lemma tab_never_completes_a_calendar_member_witness :
  exists word completion,
    word = Autocomplete.last_piece EmptyString
             (Autocomplete.take 15 "x = new EventSt()")
    /\ In completion Autocomplete.completable
    /\ startsWith word completion = true
    /\ "x = new EventStore()"%string
       = (Autocomplete.take (15 - String.length word) "x = new EventSt()"
          ++ completion ++ drop 15 "x = new EventSt()")%string.
Proof.
  apply (tab_never_completes_a_calendar_member "x = new EventSt()" 15
           "x = new EventStore()" 18).
  reflexivity.
Defined.

(** ** Sanitizing twice *)

Lemma sanitize_entry_stored key v sanitized :
  sanitize_entry sanitizeObject key v sanitized
  = if dangerous_key key then sanitized else Obj.assign key (stored v) sanitized.
Proof. unfold sanitize_entry, stored. destruct (dangerous_key key), v; reflexivity. Qed.

Lemma settled_obj fs :
  settled (VObj fs)
  = canonical (keys fs) && forallb (fun kv => settled (snd kv)) fs.
Proof.
  cbn [settled]. fold (keys fs). f_equal.
  induction fs as [| [k x] fs IH]; [reflexivity |].
  cbn [forallb snd]. rewrite <- IH. reflexivity.
Qed.

Lemma has_key_mem k o : Obj.has_key k o = mem k (keys o).
Proof.
  unfold Obj.has_key, mem, keys. induction o as [| [k' v] o IH]; [reflexivity |].
  cbn [existsb map fst]. rewrite IH, (String.eqb_sym k' k). reflexivity.
Qed.

Lemma keys_update k v o : keys (Obj.update k v o) = keys o.
Proof.
  unfold keys. induction o as [| [k' v'] o IH]; [reflexivity |].
  cbn [Obj.update]. destruct (k' =? k)%string; cbn [map fst]; [reflexivity |].
  rewrite IH. reflexivity.
Qed.

Lemma forallb_update (Q : value -> bool) k v o :
  Q v = true -> forallb (fun kv => Q (snd kv)) o = true ->
  forallb (fun kv => Q (snd kv)) (Obj.update k v o) = true.
Proof.
  intros Hv. induction o as [| [k' v'] o IH]; [reflexivity |].
  cbn [Obj.update forallb snd]. intros Ho. apply andb_prop in Ho as [Hx Ho].
  destruct (k' =? k)%string; cbn [forallb snd].
  - rewrite Hv, Ho. reflexivity.
  - rewrite Hx, (IH Ho). reflexivity.
Qed.

Lemma forallb_insert_index (Q : string * value -> bool) n k v o :
  forallb Q (Obj.insert_index n k v o) = Q (k, v) && forallb Q o.
Proof.
  induction o as [| [k' v'] o IH]; cbn [Obj.insert_index forallb].
  - reflexivity.
  - destruct (Obj.array_index k') as [m |]; [| reflexivity].
    destruct (n <? m)%N; cbn [forallb]; [reflexivity |].
    rewrite IH. rewrite !andb_assoc. f_equal. apply andb_comm.
Qed.

Lemma forallb_keys (P : string -> bool) o :
  forallb P (keys o) = forallb (fun kv => P (fst kv)) o.
Proof. unfold keys. induction o as [| [k v] o IH]; cbn; congruence. Qed.

Lemma forallb_keys_insert_index (P : string -> bool) n k v o :
  forallb P (keys (Obj.insert_index n k v o)) = P k && forallb P (keys o).
Proof. rewrite !forallb_keys. apply forallb_insert_index. Qed.

Lemma mem_insert_index x n k v o :
  mem x (keys (Obj.insert_index n k v o)) = (x =? k)%string || mem x (keys o).
Proof.
  unfold mem, keys.
  induction o as [| [k' v'] o IH]; cbn [Obj.insert_index map fst existsb].
  - reflexivity.
  - destruct (Obj.array_index k') as [m |]; [| reflexivity].
    destruct (n <? m)%N; cbn [map fst existsb]; [reflexivity |].
    rewrite IH. rewrite !orb_assoc. f_equal. apply orb_comm.
Qed.

Lemma distinct_insert_index n k v o :
  distinct (keys (Obj.insert_index n k v o))
  = negb (mem k (keys o)) && distinct (keys o).
Proof.
  induction o as [| [k' v'] o IH]; cbn [Obj.insert_index].
  - reflexivity.
  - destruct (Obj.array_index k') as [m |]; [| reflexivity].
    destruct (n <? m)%N; [reflexivity |].
    change (keys ((k', v') :: Obj.insert_index n k v o))
      with (k' :: keys (Obj.insert_index n k v o)).
    change (keys ((k', v') :: o)) with (k' :: keys o).
    cbn [distinct]. rewrite IH, mem_insert_index.
    change (mem k (k' :: keys o)) with ((k =? k')%string || mem k (keys o)).
    rewrite (String.eqb_sym k' k).
    destruct (k =? k')%string, (mem k' (keys o)), (mem k (keys o)),
      (distinct (keys o)); reflexivity.
Qed.

Lemma index_at_least_trans n m k :
  (n <=? m)%N = true -> index_at_least m k = true -> index_at_least n k = true.
Proof.
  unfold index_at_least. destruct (Obj.array_index k) as [x |]; [| reflexivity].
  intros H1 H2. apply N.leb_le in H1, H2. apply N.leb_le. lia.
Qed.

Lemma ordered_cons k r :
  ordered (k :: r)
  = match Obj.array_index k with
    | Some n => forallb (index_at_least n) r
    | None => forallb not_index r
    end && ordered r.
Proof. reflexivity. Qed.

Lemma ordered_head_not_index k r :
  Obj.array_index k = None -> ordered (k :: r) = true ->
  forallb not_index (k :: r) = true.
Proof.
  intros Hk Ho. rewrite ordered_cons, Hk in Ho.
  apply andb_prop in Ho as [Hr _]. cbn [forallb]. unfold not_index at 1.
  rewrite Hk. exact Hr.
Qed.

Lemma not_index_at_least n ks :
  forallb not_index ks = true -> forallb (index_at_least n) ks = true.
Proof.
  induction ks as [| k ks IH]; [reflexivity |]. cbn [forallb].
  intros Hb. apply andb_prop in Hb as [Hk Hks]. rewrite (IH Hks), andb_true_r.
  unfold not_index in Hk. unfold index_at_least.
  destruct (Obj.array_index k); [discriminate Hk | reflexivity].
Qed.

Lemma ordered_insert_index n k v o :
  Obj.array_index k = Some n -> ordered (keys o) = true ->
  ordered (keys (Obj.insert_index n k v o)) = true.
Proof.
  intros Hk. induction o as [| [k' v'] o IH]; cbn [Obj.insert_index].
  - intros _. cbn. rewrite Hk. reflexivity.
  - change (keys ((k', v') :: o)) with (k' :: keys o). intros Ho.
    destruct (Obj.array_index k') as [m |] eqn:Hk'.
    + pose proof Ho as Ho'. rewrite ordered_cons, Hk' in Ho.
      apply andb_prop in Ho as [Hm Hrest].
      destruct (N.ltb_spec n m) as [Hlt | Hge].
      * change (keys ((k, v) :: (k', v') :: o)) with (k :: k' :: keys o).
        rewrite (ordered_cons k), Hk, Ho', andb_true_r. cbn [forallb].
        assert (Hnm : (n <=? m)%N = true) by (apply N.leb_le; lia).
        unfold index_at_least at 1. rewrite Hk', Hnm. cbn [andb].
        rewrite forallb_forall in Hm. apply forallb_forall.
        intros x Hx. eapply index_at_least_trans; eauto.
      * change (keys ((k', v') :: Obj.insert_index n k v o))
          with (k' :: keys (Obj.insert_index n k v o)).
        rewrite (ordered_cons k'), Hk', (IH Hrest), andb_true_r.
        rewrite forallb_keys_insert_index, Hm.
        unfold index_at_least. rewrite Hk.
        assert (Hmn : (m <=? n)%N = true) by (apply N.leb_le; lia).
        rewrite Hmn. reflexivity.
    + pose proof (ordered_head_not_index k' (keys o) Hk' Ho) as Hall.
      change (keys ((k, v) :: (k', v') :: o)) with (k :: k' :: keys o).
      rewrite (ordered_cons k), Hk, Ho, andb_true_r.
      apply not_index_at_least. exact Hall.
Qed.

Lemma distinct_snoc ks k :
  distinct (ks ++ [k]) = negb (mem k ks) && distinct ks.
Proof.
  induction ks as [| x ks IH]; [reflexivity |].
  cbn [app distinct]. rewrite IH.
  unfold mem. rewrite existsb_app. cbn [existsb].
  rewrite orb_false_r, (String.eqb_sym x k).
  destruct (k =? x)%string, (existsb (String.eqb x) ks),
    (existsb (String.eqb k) ks), (distinct ks); reflexivity.
Qed.

Lemma ordered_snoc ks k :
  Obj.array_index k = None -> ordered ks = true -> ordered (ks ++ [k]) = true.
Proof.
  intros Hk. induction ks as [| x ks IH]; intros Ho.
  - cbn. rewrite Hk. reflexivity.
  - cbn [app ordered] in *. apply andb_prop in Ho as [Hx Ho].
    rewrite (IH Ho), andb_true_r.
    destruct (Obj.array_index x); rewrite forallb_app, Hx; cbn [forallb];
      [unfold index_at_least | unfold not_index]; rewrite Hk; reflexivity.
Qed.

Lemma not_dangerous_proto k :
  dangerous_key k = false -> (k =? "__proto__")%string = false.
Proof.
  intros Hd. destruct (String.eqb_spec k "__proto__") as [-> | _];
    [discriminate Hd | reflexivity].
Qed.

(** The invariant of the loop: the object built so far has canonical keys
    and settled values. *)
Lemma assign_settled k v o :
  dangerous_key k = false -> settled v = true ->
  settled (VObj o) = true -> settled (VObj (Obj.assign k v o)) = true.
Proof.
  intros Hk Hv. rewrite !settled_obj. intros Ho.
  apply andb_prop in Ho as [Hc Hvals].
  unfold canonical in Hc. apply andb_prop in Hc as [Hc Hsafe].
  apply andb_prop in Hc as [Hd Hord].
  unfold Obj.assign. rewrite (not_dangerous_proto k Hk). unfold Obj.set.
  rewrite has_key_mem. destruct (mem k (keys o)) eqn:Hmem.
  - rewrite keys_update. unfold canonical. rewrite Hd, Hord, Hsafe.
    apply (forallb_update settled); assumption.
  - destruct (Obj.array_index k) as [n |] eqn:Hidx.
    + unfold canonical.
      rewrite distinct_insert_index, Hmem, Hd.
      rewrite (ordered_insert_index n k v o Hidx Hord).
      rewrite forallb_keys_insert_index, forallb_insert_index, Hsafe, Hvals.
      cbn [fst snd]. rewrite Hk, Hv. reflexivity.
    + unfold canonical, keys. rewrite map_app. cbn [map fst].
      fold (keys o). rewrite distinct_snoc, Hmem, Hd.
      rewrite (ordered_snoc (keys o) k Hidx Hord).
      rewrite !forallb_app, Hsafe, Hvals. cbn [forallb snd].
      rewrite Hk, Hv. reflexivity.
Qed.

Lemma sanitize_string_settled s : settled (VStr (sanitize_string s)) = true.
Proof. exact (sanitize_string_clean s). Qed.

Lemma stored_settled v : sanitized_settled v.
Proof.
  unfold sanitized_settled.
  induction v as [| | b | n | s | d | fs IH | items IH] using value_induction;
    try reflexivity.
  - apply sanitize_string_settled.
  - cbn [stored sanitizeObject].
    assert (Hgen : forall sanitized,
              settled (VObj sanitized) = true ->
              settled
                (VObj
                   ((fix over_fields (es : Obj.fields) (sanitized : Obj.fields) :=
                       match es with
                       | [] => sanitized
                       | (key, v) :: es' =>
                           over_fields es'
                             (sanitize_entry sanitizeObject key v sanitized)
                       end) fs sanitized)) = true).
    { induction IH as [| [k x] fs Hx _ IHfs]; intros sanitized Hs; [exact Hs |].
      apply IHfs. rewrite sanitize_entry_stored.
      destruct (dangerous_key k) eqn:Hk; [exact Hs |].
      apply assign_settled; assumption. }
    apply Hgen. reflexivity.
  - cbn [stored sanitizeObject].
    assert (Hgen : forall i sanitized,
              settled (VObj sanitized) = true ->
              settled
                (VObj
                   ((fix over_items (i : nat) (es : list value)
                         (sanitized : Obj.fields) :=
                       match es with
                       | [] => sanitized
                       | v :: es' =>
                           over_items (S i) es'
                             (sanitize_entry sanitizeObject (Num.show_nat i) v
                                sanitized)
                       end) i items sanitized)) = true).
    { induction IH as [| x items Hx _ IHitems]; intros i sanitized Hs;
        [exact Hs |].
      apply IHitems. rewrite sanitize_entry_stored.
      destruct (dangerous_key (Num.show_nat i)) eqn:Hk; [exact Hs |].
      apply assign_settled; assumption. }
    apply Hgen. reflexivity.
Qed.

Lemma sanitize_string_fixed s :
  forallb_str (fun c => negb (is_angle c)) s = true -> sanitize_string s = s.
Proof.
  unfold sanitize_string. induction s as [| c s IH]; [reflexivity |].
  cbn [forallb_str filter_str]. fold (is_angle c). intros Hb.
  apply andb_prop in Hb as [Hc Hs]. rewrite Hc, (IH Hs). reflexivity.
Qed.

Lemma distinct_middle a k b : distinct (a ++ k :: b) = true -> mem k a = false.
Proof.
  induction a as [| x a IH]; [reflexivity |].
  cbn [app distinct]. intros Hd. apply andb_prop in Hd as [Hx Hd].
  change (mem k (x :: a)) with ((k =? x)%string || mem k a).
  rewrite (IH Hd), orb_false_r.
  destruct (String.eqb_spec k x) as [-> | _]; [| reflexivity].
  unfold mem in Hx. rewrite existsb_app in Hx. cbn [existsb] in Hx.
  rewrite String.eqb_refl, orb_true_r in Hx. discriminate Hx.
Qed.

Lemma ordered_before a k b n :
  Obj.array_index k = Some n -> ordered (a ++ k :: b) = true ->
  forallb (index_at_most n) a = true.
Proof.
  intros Hk. induction a as [| x a IH]; [reflexivity |].
  cbn [app]. rewrite ordered_cons. intros Ho. apply andb_prop in Ho as [Hx Ho].
  cbn [forallb]. rewrite (IH Ho), andb_true_r.
  unfold index_at_most. destruct (Obj.array_index x) as [m |].
  - rewrite forallb_app in Hx. apply andb_prop in Hx as [_ Hx].
    cbn [forallb] in Hx. apply andb_prop in Hx as [Hx _].
    unfold index_at_least in Hx. rewrite Hk in Hx. exact Hx.
  - rewrite forallb_app in Hx. apply andb_prop in Hx as [_ Hx].
    cbn [forallb] in Hx. apply andb_prop in Hx as [Hx _].
    unfold not_index in Hx. rewrite Hk in Hx. discriminate Hx.
Qed.

Lemma insert_index_last n k v o :
  forallb (index_at_most n) (keys o) = true ->
  Obj.insert_index n k v o = o ++ [(k, v)].
Proof.
  induction o as [| [k' v'] o IH]; [reflexivity |].
  change (keys ((k', v') :: o)) with (k' :: keys o). cbn [forallb].
  intros Hb. apply andb_prop in Hb as [Hk' Ho].
  cbn [Obj.insert_index app]. unfold index_at_most in Hk'.
  destruct (Obj.array_index k') as [m |]; [| discriminate Hk'].
  apply N.leb_le in Hk'. destruct (N.ltb_spec n m) as [Hlt | _]; [lia |].
  rewrite (IH Ho). reflexivity.
Qed.

(** A pair that comes next in canonical order is put at the end. *)
Lemma assign_next pre k v suf :
  canonical (keys (pre ++ (k, v) :: suf)) = true ->
  Obj.assign k v pre = pre ++ [(k, v)].
Proof.
  unfold canonical, keys. rewrite map_app. cbn [map fst]. fold (keys pre).
  intros Hc. apply andb_prop in Hc as [Hc Hsafe].
  apply andb_prop in Hc as [Hd Hord].
  rewrite forallb_app in Hsafe. apply andb_prop in Hsafe as [_ Hsafe].
  cbn [forallb] in Hsafe. apply andb_prop in Hsafe as [Hk _].
  apply negb_true_iff in Hk.
  unfold Obj.assign. rewrite (not_dangerous_proto k Hk). unfold Obj.set.
  rewrite has_key_mem, (distinct_middle _ _ _ Hd).
  destruct (Obj.array_index k) as [n |] eqn:Hidx; [| reflexivity].
  apply insert_index_last. eapply ordered_before; eauto.
Qed.

Lemma canonical_not_dangerous pre k v suf :
  canonical (keys (pre ++ (k, v) :: suf)) = true -> dangerous_key k = false.
Proof.
  unfold canonical, keys. rewrite map_app. cbn [map fst].
  intros Hc. apply andb_prop in Hc as [_ Hsafe].
  rewrite forallb_app in Hsafe. apply andb_prop in Hsafe as [_ Hsafe].
  cbn [forallb] in Hsafe. apply andb_prop in Hsafe as [Hk _].
  apply negb_true_iff in Hk. exact Hk.
Qed.

Lemma settled_fixed v : fixed_when_settled v.
Proof.
  unfold fixed_when_settled.
  induction v as [| | b | n | s | d | fs IH | items IH] using value_induction;
    try reflexivity; try (intros E; discriminate E).
  - cbn [settled stored]. intros Hs. rewrite (sanitize_string_fixed s Hs).
    reflexivity.
  - rewrite settled_obj. intros Hs. apply andb_prop in Hs as [Hc Hvals].
    cbn [stored sanitizeObject]. f_equal.
    assert (Hgen : forall suf pre,
              canonical (keys (pre ++ suf)) = true ->
              forallb (fun kv => settled (snd kv)) suf = true ->
              Forall (fun kv => settled (snd kv) = true -> stored (snd kv) = snd kv)
                suf ->
              (fix over_fields (es : Obj.fields) (sanitized : Obj.fields) :=
                 match es with
                 | [] => sanitized
                 | (key, v) :: es' =>
                     over_fields es' (sanitize_entry sanitizeObject key v sanitized)
                 end) suf pre = pre ++ suf).
    { induction suf as [| [k x] suf IHsuf]; intros pre Hcan Hset Hfix.
      - rewrite app_nil_r. reflexivity.
      - cbn [forallb snd] in Hset. apply andb_prop in Hset as [Hx Hset].
        inversion Hfix as [| y l Hy Hl]; subst. cbn [snd] in Hy.
        rewrite sanitize_entry_stored.
        rewrite (canonical_not_dangerous pre k x suf Hcan).
        rewrite (Hy Hx), (assign_next pre k x suf Hcan).
        rewrite (IHsuf (pre ++ [(k, x)])); auto.
        + rewrite <- app_assoc. reflexivity.
        + rewrite <- app_assoc. exact Hcan. }
    apply (Hgen fs []); assumption.
Qed.

(** X23. Sanitizing is idempotent: what [sanitizeObject] returns is
    returned unchanged when it is sanitized again, whatever the value;
    the order of the keys is kept as well. *)
Theorem sanitizing_twice_changes_nothing (v : value) :
  sanitizeObject (sanitizeObject v) = sanitizeObject v.
Proof.
  pose proof (stored_settled v) as Hs. unfold sanitized_settled in Hs.
  pose proof (settled_fixed (stored v) Hs) as Hf.
  destruct v as [| | b | n | s | d | fs | items]; try reflexivity;
    cbn [stored] in Hs, Hf.
  - destruct (sanitizeObject (VObj fs)) eqn:E; try discriminate Hs;
      solve [reflexivity | exact Hf].
  - destruct (sanitizeObject (VArr items)) eqn:E; try discriminate Hs;
      solve [reflexivity | exact Hf].
Qed.

(** ** The offset idiom of the Date constructor *)

Lemma digits_from_uint_acc d : forall acc,
  Num.digits_from (N.pos acc) (NilEmpty.string_of_uint d)
  = N.pos (Pos.of_uint_acc d acc).
Proof.
  induction d as [| d IH | d IH | d IH | d IH | d IH | d IH | d IH | d IH
                  | d IH | d IH]; intros acc;
    cbn [NilEmpty.string_of_uint Num.digits_from Pos.of_uint_acc];
    [reflexivity | ..];
    rewrite <- IH; f_equal;
    match goal with
    | |- context [Num.digit_value ?c] =>
        let v := eval vm_compute in (Num.digit_value c) in
        change (Num.digit_value c) with v
    end; lia.
Qed.

Lemma digits_of_uint d :
  Num.digits (NilEmpty.string_of_uint d) = Pos.of_uint d.
Proof.
  unfold Num.digits.
  induction d as [| d IH | d IH | d IH | d IH | d IH | d IH | d IH | d IH
                  | d IH | d IH];
    cbn [NilEmpty.string_of_uint Num.digits_from Pos.of_uint];
    [reflexivity | exact IH | ..];
    rewrite <- digits_from_uint_acc; reflexivity.
Qed.

Lemma uint_digits d : forallb_str is_digit (NilEmpty.string_of_uint d) = true.
Proof.
  induction d; cbn [NilEmpty.string_of_uint forallb_str]; auto.
Qed.

Lemma show_Z_value z :
  (0 <= z)%Z -> Z.of_N (Num.digits (Num.show_Z z)) = z.
Proof.
  intros Hz. unfold Num.show_Z. destruct z as [| p | p]; [reflexivity | | lia].
  cbn [Z.to_int NilEmpty.string_of_int].
  rewrite digits_of_uint, DecimalPos.Unsigned.of_to. reflexivity.
Qed.

Lemma show_Z_digits z :
  (0 <= z)%Z ->
  forallb_str is_digit (Num.show_Z z) = true /\ is_empty (Num.show_Z z) = false.
Proof.
  intros Hz. split.
  - unfold Num.show_Z. destruct z as [| p | p]; [reflexivity | | lia].
    apply uint_digits.
  - destruct (Num.show_Z z) eqn:E; [| reflexivity].
    pose proof (show_Z_value z Hz) as Hv. rewrite E in Hv. cbn in Hv.
    destruct z as [| p | p]; [discriminate E | discriminate Hv | lia].
Qed.

Lemma Qred_integer z : Qred (inject_Z z) = inject_Z z.
Proof.
  unfold Qred, inject_Z.
  pose proof (Z.ggcd_gcd z 1) as Hg.
  pose proof (Z.ggcd_correct_divisors z 1) as Hd.
  destruct (Z.ggcd z 1) as [g [aa bb]]. cbn [fst snd] in *.
  rewrite Z.gcd_1_r in Hg. subst g. destruct Hd as [Ha Hb].
  rewrite Z.mul_1_l in Ha, Hb. subst aa bb. reflexivity.
Qed.

Lemma add_of_Z a b : Num.add (Num.of_Z a) (Num.of_Z b) = Num.of_Z (a + b).
Proof.
  unfold Num.add, Num.of_Z. f_equal.
  replace (inject_Z a + inject_Z b)%Q with (inject_Z (a + b)).
  - apply Qred_integer.
  - unfold inject_Z, Qplus. cbn [Qnum Qden]. rewrite !Z.mul_1_r. reflexivity.
Qed.

Lemma sub_of_Z a b : Num.sub (Num.of_Z a) (Num.of_Z b) = Num.of_Z (a - b).
Proof.
  unfold Num.sub.
  replace (Num.neg (Num.of_Z b)) with (Num.of_Z (- b)).
  - rewrite add_of_Z. reflexivity.
  - unfold Num.neg, Num.of_Z. f_equal. symmetry. apply (Qred_integer (- b)).
Qed.

Lemma replace_from_clear (rep s : string) :
  forallb_str (fun c => negb (c =? "D")%char) s = true ->
  replace_from "Date.now()" rep 0 s = s.
Proof.
  induction s as [| c s IH]; [reflexivity |].
  cbn [forallb_str]. intros Hb. apply andb_prop in Hb as [Hc Hs].
  cbn [replace_from prefix].
  destruct (ascii_dec "D" c) as [<- | _]; [discriminate Hc |].
  rewrite (IH Hs). reflexivity.
Qed.

Lemma trim_end_keeps_head c r :
  is_space c = false -> exists r', trim_end (String c r) = String c r'.
Proof.
  intros Hc. cbn [trim_end]. destruct (trim_end r) as [| d r'].
  - rewrite Hc. exists EmptyString. reflexivity.
  - eauto.
Qed.

Lemma nan_of_letter r : Num.isNaN (String "D" r) = true.
Proof.
  unfold Num.isNaN, Num.of_string, trim. cbn [trim_start is_space].
  change (is_space "D") with false. cbv iota.
  destruct (trim_end_keeps_head "D" r eq_refl) as [r' ->]. reflexivity.
Qed.

Lemma number_literal_starts_with_sign_or_digit r :
  matches number_literal (String "n" r) = false.
Proof.
  cbn [matches].
  replace (deriv "n" number_literal) with Void by (vm_compute; reflexivity).
  apply matches_void.
Qed.

Lemma forallb_str_append (p : ascii -> bool) (a b : string) :
  forallb_str p (a ++ b) = forallb_str p a && forallb_str p b.
Proof.
  induction a as [| c a IH]; [reflexivity |].
  cbn [append forallb_str]. rewrite IH. apply andb_assoc.
Qed.

Lemma forallb_str_weaken (p q : ascii -> bool) (s : string) :
  (forall c, p c = true -> q c = true) ->
  forallb_str p s = true -> forallb_str q s = true.
Proof.
  intros Hpq. induction s as [| c s IH]; [reflexivity |].
  cbn [forallb_str]. intros Hb. apply andb_prop in Hb as [Hc Hs].
  rewrite (Hpq c Hc), (IH Hs). reflexivity.
Qed.

Lemma trim_start_blank_prefix (sp rest : string) :
  blank sp = true -> stops is_space rest ->
  trim_start (sp ++ rest) = rest.
Proof.
  unfold blank. induction sp as [| c sp IH]; cbn [append forallb_str].
  - intros _ Hr. destruct rest as [| d rest]; [reflexivity |].
    cbn [trim_start]. cbn in Hr. rewrite Hr. reflexivity.
  - intros Hb Hr. apply andb_prop in Hb as [Hc Hsp].
    cbn [trim_start]. rewrite Hc. apply IH; assumption.
Qed.

Lemma space_not_digit c : is_space c = true -> is_digit c = false.
Proof.
  destruct c as [[] [] [] [] [] [] [] []]; intros E;
    solve [reflexivity | discriminate E].
Qed.

Lemma digit_not_space c : is_digit c = true -> is_space c = false.
Proof.
  destruct c as [[] [] [] [] [] [] [] []]; intros E;
    solve [reflexivity | discriminate E].
Qed.

Lemma digit_not_letter c : is_digit c = true -> negb (c =? "D")%char = true.
Proof.
  destruct c as [[] [] [] [] [] [] [] []]; intros E;
    solve [reflexivity | discriminate E].
Qed.

Lemma space_not_letter c : is_space c = true -> negb (c =? "D")%char = true.
Proof.
  destruct c as [[] [] [] [] [] [] [] []]; intros E;
    solve [reflexivity | discriminate E].
Qed.

Section DateIdiom.

Context (rt : Runtime).

Lemma parseValue_new_date x :
  parseValue rt ("new Date(" ++ x) = VDate (parseDate rt ("new Date(" ++ x)).
Proof.
  unfold parseValue. cbn [parseValue_fuel].
  replace (("new Date(" ++ x =? "null")%string) with false by reflexivity.
  replace (("new Date(" ++ x =? "undefined")%string) with false by reflexivity.
  replace (("new Date(" ++ x =? "true")%string) with false by reflexivity.
  replace (("new Date(" ++ x =? "false")%string) with false by reflexivity.
  replace (startsWith (str1 dquote) ("new Date(" ++ x)) with false by reflexivity.
  replace (startsWith (str1 squote) ("new Date(" ++ x)) with false by reflexivity.
  cbn [andb orb].
  change ("new Date(" ++ x)%string with (String "n" ("ew Date(" ++ x)) at 1.
  rewrite number_literal_starts_with_sign_or_digit.
  replace (startsWith "new Date(" ("new Date(" ++ x)) with true
    by (symmetry; apply prefix_append).
  reflexivity.
Qed.

Lemma offset_expression_reads (lhs sp1 : string) (op : ascii) (sp2 rhs : string) :
  is_empty lhs = false -> forallb_str is_digit lhs = true ->
  blank sp1 = true -> blank sp2 = true ->
  op = "+"%char \/ op = "-"%char ->
  is_empty rhs = false -> forallb_str is_digit rhs = true ->
  offset_expression (lhs ++ sp1 ++ String op (sp2 ++ rhs))
  = Some (lhs, op, rhs).
Proof.
  intros Hl Dl H1 H2 Hop Hr Dr. unfold offset_expression.
  assert (Hstop : stops is_digit (sp1 ++ String op (sp2 ++ rhs))).
  { destruct sp1 as [| c sp1]; cbn [append stops].
    - destruct Hop as [-> | ->]; reflexivity.
    - unfold blank in H1. cbn [forallb_str] in H1.
      apply andb_prop in H1 as [Hc _]. apply space_not_digit. exact Hc. }
  rewrite (span_append is_digit lhs _ Dl Hstop), Hl.
  rewrite (trim_start_blank_prefix sp1 (String op (sp2 ++ rhs)) H1)
    by (destruct Hop as [-> | ->]; reflexivity).
  assert (Hrhs : trim_start (sp2 ++ rhs) = rhs).
  { apply trim_start_blank_prefix; [exact H2 |].
    destruct rhs as [| d rhs]; [exact I |]. cbn [forallb_str] in Dr.
    apply andb_prop in Dr as [Hd _]. apply digit_not_space. exact Hd. }
  rewrite Hrhs, Hr, Dr.
  destruct Hop as [-> | ->]; reflexivity.
Qed.

Lemma parseDate_offset (sp1 : string) (op : ascii) (sp2 ds : string) :
  (0 <= clock rt)%Z ->
  blank sp1 = true -> blank sp2 = true ->
  op = "+"%char \/ op = "-"%char ->
  is_empty ds = false -> forallb_str is_digit ds = true ->
  parseDate rt ("new Date(" ++ ("Date.now()" ++ sp1 ++ String op (sp2 ++ ds)) ++ ")")
  = DateOfMillis
      (Num.of_Z (if (op =? "+")%char
                 then clock rt + Z.of_N (Num.digits ds)
                 else clock rt - Z.of_N (Num.digits ds))).
Proof.
  intros Hclock H1 H2 Hop Hd Dd.
  set (tail := (sp1 ++ String op (sp2 ++ ds))%string).
  assert (Hslice : slice 9 ("new Date(" ++ ("Date.now()" ++ tail) ++ ")")
                   = ("Date.now()" ++ tail)%string).
  { unfold slice. cbn [append drop].
    change (String "D" (String "a" (String "t" (String "e" (String "."
              (String "n" (String "o" (String "w" (String "(" (String ")"
                 (tail ++ ")")))))))))))
      with (("Date.now()" ++ tail) ++ str1 ")")%string.
    apply drop_last_append. }
  assert (Hclear : forallb_str (fun c => negb (c =? "D")%char) tail = true).
  { unfold tail. rewrite forallb_str_append. cbn [forallb_str].
    rewrite forallb_str_append.
    rewrite (forallb_str_weaken is_space _ sp1 space_not_letter H1).
    rewrite (forallb_str_weaken is_space _ sp2 space_not_letter H2).
    rewrite (forallb_str_weaken is_digit _ ds digit_not_letter Dd).
    destruct Hop as [-> | ->]; reflexivity. }
  destruct (show_Z_digits (clock rt) Hclock) as [Dc Nc].
  unfold parseDate. rewrite Hslice.
  replace (is_empty ("Date.now()" ++ tail)) with false by reflexivity.
  replace (startsWith (str1 dquote) ("Date.now()" ++ tail)) with false
    by reflexivity.
  replace (startsWith (str1 squote) ("Date.now()" ++ tail)) with false
    by reflexivity.
  cbn [orb].
  change ("Date.now()" ++ tail)%string
    with (String "D" ("ate.now()" ++ tail)) at 1.
  rewrite nan_of_letter. cbn [negb].
  rewrite (includes_here "Date.now()" ("Date.now()" ++ tail)
             (prefix_append "Date.now()" tail)).
  assert (Hexpr : replace_all "Date.now()" (Num.show_Z (clock rt))
                    ("Date.now()" ++ tail)
                  = (Num.show_Z (clock rt) ++ tail)%string).
  { unfold replace_all.
    change ("Date.now()" ++ tail)%string
      with (String "D" ("ate.now()" ++ tail)).
    cbn [replace_from].
    replace (prefix "Date.now()" (String "D" ("ate.now()" ++ tail))) with true
      by (symmetry; apply (prefix_append "Date.now()" tail)).
    cbn [String.length Nat.sub append replace_from].
    rewrite (replace_from_clear _ tail Hclear). reflexivity. }
  rewrite Hexpr. unfold tail.
  rewrite (offset_expression_reads (Num.show_Z (clock rt)) sp1 op sp2 ds
             Nc Dc H1 H2 Hop Hd Dd).
  rewrite (show_Z_value (clock rt) Hclock).
  destruct Hop as [-> | ->].
  - change (("+" =? "+")%char) with true. cbv iota. rewrite add_of_Z. reflexivity.
  - change (("-" =? "+")%char) with false. cbv iota. rewrite sub_of_Z. reflexivity.
Qed.

End DateIdiom.

(** X24. The idiom [new Date(Date.now() + n)] of the coercer, for every
    clock and every offset in the range where the numbers of the runtime
    are exact: with blanks or none around the sign and [n] a run of
    digits, the value is the Date of the clock plus [n] milliseconds, and
    with a minus sign the Date of the clock minus [n]. *)
Theorem date_offset_idiom
    (rt : Runtime) (sp1 : string) (op : ascii) (sp2 ds : string) :
  (0 <= clock rt < 2 ^ 52)%Z ->
  blank sp1 = true -> blank sp2 = true ->
  op = "+"%char \/ op = "-"%char ->
  is_empty ds = false -> forallb_str is_digit ds = true ->
  (String.length ds <= 15)%nat ->
  parseValue rt ("new Date(Date.now()" ++ sp1 ++ String op (sp2 ++ ds) ++ ")")
  = VDate
      (DateOfMillis
         (Num.of_Z (if (op =? "+")%char
                    then clock rt + Z.of_N (Num.digits ds)
                    else clock rt - Z.of_N (Num.digits ds)))).
Proof.
  intros [Hclock _] H1 H2 Hop Hd Dd _.
  replace ("new Date(Date.now()" ++ sp1 ++ String op (sp2 ++ ds) ++ ")")%string
    with ("new Date(" ++ ("Date.now()" ++ sp1 ++ String op (sp2 ++ ds)) ++ ")")%string.
  - rewrite parseValue_new_date. f_equal. apply parseDate_offset; assumption.
  - cbn [append]. rewrite !append_assoc. cbn [append]. rewrite !append_assoc.
    reflexivity.
Qed.

Lemma date_offset_idiom_witness :
  parseValue Demo.rt "new Date(Date.now() + 3600000)"
  = VDate (DateOfMillis (Num.of_Z 1700003600000)).
Proof.
  apply (date_offset_idiom Demo.rt " " "+" " " "3600000").
  - cbn. lia.
  - reflexivity.
  - reflexivity.
  - left. reflexivity.
  - reflexivity.
  - reflexivity.
  - cbn. lia.
Defined.

(** ** Conflicts between events *)

Module ConflictFacts.

Import Conflicts.

Lemma against_spec e1 later : forall conflicts,
  against e1 later conflicts
  = conflicts ++ map (time_conflict e1) (filter (overlap e1) later).
Proof.
  induction later as [| e2 rest IH]; intros conflicts; cbn [against filter map].
  - rewrite app_nil_r. reflexivity.
  - rewrite IH. destruct (overlap e1 e2); [| reflexivity].
    cbn [map]. rewrite <- app_assoc. reflexivity.
Qed.

Lemma scan_spec events : forall conflicts,
  scan events conflicts = conflicts ++ pairwise events.
Proof.
  induction events as [| e1 later IH]; intros conflicts; cbn [scan pairwise].
  - rewrite app_nil_r. reflexivity.
  - rewrite IH, against_spec, <- app_assoc. reflexivity.
Qed.

Lemma pairwise_in events c :
  In c (pairwise events) <->
  exists e1 e2,
    in_order events e1 e2 /\ overlap e1 e2 = true /\ c = time_conflict e1 e2.
Proof.
  split.
  - induction events as [| e1 later IH]; cbn [pairwise]; [intros [] |].
    intros Hin. apply in_app_or in Hin as [Hin | Hin].
    + apply in_map_iff in Hin as (e2 & <- & Hin).
      apply filter_In in Hin as [Hin Ho].
      apply in_split in Hin as (between & after & ->).
      exists e1, e2. split; [| auto]. exists [], between, after. reflexivity.
    + destruct (IH Hin) as (x & y & (before & between & after & ->) & Ho & ->).
      exists x, y. split; [| auto].
      exists (e1 :: before), between, after. reflexivity.
  - intros (e1 & e2 & (before & between & after & ->) & Ho & ->).
    induction before as [| x before IH]; cbn [app pairwise]; apply in_or_app.
    + left. apply in_map. apply filter_In. split; [| exact Ho].
      apply in_or_app. right. left. reflexivity.
    + right. exact IH.
Qed.

Lemma pairwise_count events :
  (2 * List.length (pairwise events)
   <= List.length events * (List.length events - 1))%nat.
Proof.
  induction events as [| e1 later IH]; cbn [pairwise List.length]; [lia |].
  rewrite length_app, length_map.
  pose proof (filter_length_le (overlap e1) later) as Hf.
  nia.
Qed.

Lemma overlap_instant e1 e2 :
  lasting e1 -> lasting e2 ->
  overlap e1 e2 = true <-> exists t, during t e1 /\ during t e2.
Proof.
  unfold lasting, during, overlap. intros H1 H2. split.
  - intros Ho. apply andb_prop in Ho as [Ha Hb].
    apply Z.ltb_lt in Ha, Hb.
    exists (Z.max (startUTC e1) (startUTC e2)). lia.
  - intros (t & Ht1 & Ht2). apply andb_true_intro. split; apply Z.ltb_lt; lia.
Qed.

End ConflictFacts.

(** X25. [detectConflicts] reports exactly the pairs of events that
    overlap, each pair once, with the event that comes first in the list
    as [event1]: a conflict is in the result if and only if its two events
    occur in that order in the list and pass the overlap test. So there
    are at most n(n-1)/2 conflicts among n events. *)
Theorem conflicts_are_the_overlapping_pairs
    (events : list Conflicts.calendar_event) :
  (forall c,
     In c (Conflicts.detectConflicts events) <->
     exists e1 e2,
       Conflicts.in_order events e1 e2
       /\ Conflicts.overlap e1 e2 = true
       /\ c = Conflicts.time_conflict e1 e2)
  /\ Conflicts.detectConflicts events = Conflicts.pairwise events
  /\ (2 * List.length (Conflicts.detectConflicts events)
      <= List.length events * (List.length events - 1))%nat.
Proof.
  assert (E : Conflicts.detectConflicts events = Conflicts.pairwise events).
  { unfold Conflicts.detectConflicts. rewrite ConflictFacts.scan_spec.
    reflexivity. }
  rewrite E. split; [| split].
  - intros c. apply ConflictFacts.pairwise_in.
  - reflexivity.
  - apply ConflictFacts.pairwise_count.
Qed.

(** X26. Among events that end after they start, a conflict between two
    events is reported exactly when they share an instant, the end of an
    event not counting: events that follow each other back to back are
    not in conflict. *)
Theorem conflict_means_a_common_instant
    (events : list Conflicts.calendar_event) (e1 e2 : Conflicts.calendar_event) :
  Forall Conflicts.lasting events ->
  Conflicts.in_order events e1 e2 ->
  (In (Conflicts.time_conflict e1 e2) (Conflicts.detectConflicts events) <->
   exists t, Conflicts.during t e1 /\ Conflicts.during t e2)
  /\ (Conflicts.endUTC e1 <= Conflicts.startUTC e2 ->
      ~ In (Conflicts.time_conflict e1 e2) (Conflicts.detectConflicts events))%Z.
Proof.
  intros Hall Hord.
  assert (H1 : Conflicts.lasting e1 /\ Conflicts.lasting e2).
  { destruct Hord as (before & between & after & ->).
    rewrite Forall_forall in Hall. split; apply Hall.
    - apply in_or_app. right. left. reflexivity.
    - apply in_or_app. right. right. apply in_or_app. right. left. reflexivity. }
  destruct H1 as [H1 H2].
  assert (Hiff : In (Conflicts.time_conflict e1 e2) (Conflicts.detectConflicts events)
                 <-> Conflicts.overlap e1 e2 = true).
  { unfold Conflicts.detectConflicts. rewrite ConflictFacts.scan_spec.
    cbn [app]. rewrite ConflictFacts.pairwise_in. split.
    - intros (x & y & _ & Ho & E). injection E as -> ->. exact Ho.
    - intros Ho. exists e1, e2. auto. }
  split.
  - rewrite Hiff. apply ConflictFacts.overlap_instant; assumption.
  - intros Hle Hin. apply Hiff in Hin.
    apply (ConflictFacts.overlap_instant e1 e2 H1 H2) in Hin.
    destruct Hin as (t & Ht1 & Ht2). unfold Conflicts.during in *. lia.
Qed.

Lemma conflict_means_a_common_instant_witness :
  In (Conflicts.time_conflict
        {| Conflicts.title := "Standup"; Conflicts.startUTC := 0;
           Conflicts.endUTC := 1800000 |}
        {| Conflicts.title := "Review"; Conflicts.startUTC := 900000;
           Conflicts.endUTC := 3600000 |})
     (Conflicts.detectConflicts
        [ {| Conflicts.title := "Standup"; Conflicts.startUTC := 0;
             Conflicts.endUTC := 1800000 |};
          {| Conflicts.title := "Lunch"; Conflicts.startUTC := 1800000;
             Conflicts.endUTC := 3600000 |};
          {| Conflicts.title := "Review"; Conflicts.startUTC := 900000;
             Conflicts.endUTC := 3600000 |} ])
  <-> exists t,
        Conflicts.during t
          {| Conflicts.title := "Standup"; Conflicts.startUTC := 0;
             Conflicts.endUTC := 1800000 |}
        /\ Conflicts.during t
             {| Conflicts.title := "Review"; Conflicts.startUTC := 900000;
                Conflicts.endUTC := 3600000 |}.
Proof.
  refine (proj1 (conflict_means_a_common_instant _ _ _ _ _)).
  - repeat (apply Forall_cons; [unfold Conflicts.lasting; cbn; lia |]).
    apply Forall_nil.
  - exists [], [ {| Conflicts.title := "Lunch"; Conflicts.startUTC := 1800000;
                   Conflicts.endUTC := 3600000 |} ], [].
    reflexivity.
Defined.
